(** * SeeMyStats: ingestion, caching and aggregation engine

    A shallow embedding of [app/utils/health_parser.py] and
    [app/utils/dashboard_cache.py], of the background parse of
    [app/components/upload.py] and of the index route of
    [app/components/dashboard.py], and the properties proved on it.

    - Python values that occur in records are the inductive [pyval];
      a record (an XML attribute dict, a JSON object, a CSV row) is a
      [gmap string pyval]; the type index is a [gmap hkey (list record)].
    - The operating system is a read-only oracle [Env] (what [os.stat],
      [os.path.isdir], [glob.glob] and the XML, JSON and CSV readers
      answer, and which writes fail) plus the mutable store [disk] of the
      files the engine itself writes.
    - Methods that mutate the parser, the module-level memory cache or the
      disk are written in the monad [M] of state and exceptions; the state
      survives an exception, as the fields of [self] do in Python.
    - A cache payload holds its records by value.  In the program the
      payload kept in [MEMORY_CACHE] shares its list and dict with the
      parser that saved or loaded it; the statements about the cache speak
      of a load that finds the two tiers as the save left them.
    - Floating point numbers are idealised as real numbers ([pyfloat] adds
      NaN); timestamps are integers (seconds of wall-clock time).
    - The pandas and date parsing functions are parameters ([Pandas]);
      the current time is one of them.
    - The presentation layer ([build_dashboard_payload] and what it
      calls) is a parameter of the two components: a function of the
      parser that may raise. *)

From Stdlib Require Import ZArith QArith Qcanon Reals Lra Lia String Ascii List.
From stdpp Require Import gmap strings list fin_maps sorting pretty.

Local Open Scope Z_scope.
Local Open Scope string_scope.
Local Open Scope list_scope.

(** ** Python values *)

(** The values a record field can hold.  XML attributes are always
    [VStr]; JSON and CSV add numbers, [None]/null, NaN (an empty CSV cell)
    and nested lists or objects, which are unhashable ([VCompound] keeps
    only whether the container is non-empty, which is its truth value).
    Python booleans behave as the numbers 0 and 1 everywhere the engine
    looks at them and are represented as such. *)
Inductive pyval :=
| VNone
| VNum (q : Qc)
| VNaN
| VStr (s : string)
| VCompound (nonempty : bool).

Global Instance pyval_eq_dec : EqDecision pyval.
Proof. solve_decision. Defined.

(** [bool(v)] *)
Definition truthy (v : pyval) : bool :=
  match v with
  | VNone => false
  | VNum q => negb (bool_decide (q = 0%Qc))
  | VNaN => true
  | VStr s => negb (bool_decide (s = ""))
  | VCompound b => b
  end.

(** Keys of the type index: the hashable values. *)
Inductive hkey :=
| KNone
| KNum (q : Qc)
| KNaN
| KStr (s : string).

Global Instance hkey_eq_dec : EqDecision hkey.
Proof. solve_decision. Defined.

Global Instance hkey_countable : Countable hkey.
Proof.
  refine (inj_countable'
    (fun k => match k with
              | KNone => inl (inl tt)
              | KNaN => inl (inr tt)
              | KNum q => inr (inl q)
              | KStr s => inr (inr s)
              end)
    (fun x => match x with
              | inl (inl _) => KNone
              | inl (inr _) => KNaN
              | inr (inl q) => KNum q
              | inr (inr s) => KStr s
              end) _).
  by intros [].
Defined.

(** [hash(v)]: [None] stands for [TypeError: unhashable type]. *)
Definition hash_key (v : pyval) : option hkey :=
  match v with
  | VNone => Some KNone
  | VNum q => Some (KNum q)
  | VNaN => Some KNaN
  | VStr s => Some (KStr s)
  | VCompound _ => None
  end.

Abbreviation record := (gmap string pyval).
Abbreviation index := (gmap hkey (list record)).

(** ** Paths *)

Definition CACHE_FILENAME : string := "health_cache.pkl".
Definition CACHE_VERSION : Z := 1.
Definition MEMORY_CACHE_LIMIT : nat := 1.

Definition DASHBOARD_CACHE_FILENAME : string := "dashboard_cache.pkl".
Definition DASHBOARD_CACHE_VERSION : Z := 1.

Definition EXPORT_XML : string := "export.xml".
(** The traditional-Chinese name of the export, UTF-8 encoded. *)
Definition SHUCHU_XML : string := "輸出.xml".

Definition slash : ascii := "/"%char.

Fixpoint ends_with_slash (p : string) : bool :=
  match p with
  | EmptyString => false
  | String c EmptyString => bool_decide (c = slash)
  | String _ rest => ends_with_slash rest
  end.

Definition starts_with_slash (p : string) : bool :=
  match p with
  | String c _ => bool_decide (c = slash)
  | EmptyString => false
  end.

(** [os.path.join(a, b)] (POSIX). *)
Definition path_join (a b : string) : string :=
  if starts_with_slash b then b
  else if bool_decide (a = "") || ends_with_slash a then a +:+ b
  else a +:+ "/" +:+ b.

(** Splits at the last slash: [(head including that slash, tail)]. *)
Fixpoint split_last_slash (p : string) : string * string :=
  match p with
  | EmptyString => ("", "")
  | String c rest =>
      let '(h, t) := split_last_slash rest in
      if bool_decide (c = slash) then
        if bool_decide (h = "") then (String c "", t) else (String c h, t)
      else
        if bool_decide (h = "") then ("", String c t) else (String c h, t)
  end.

Fixpoint all_slashes (p : string) : bool :=
  match p with
  | EmptyString => true
  | String c rest => bool_decide (c = slash) && all_slashes rest
  end.

(** Removes the slashes at the end of [p]. *)
Fixpoint rstrip_slashes (p : string) : string :=
  match p with
  | EmptyString => ""
  | String c rest =>
      if all_slashes (String c rest) then "" else String c (rstrip_slashes rest)
  end.

(** [os.path.dirname(p)] (POSIX). *)
Definition dirname (p : string) : string :=
  let h := fst (split_last_slash p) in
  if all_slashes h then h else rstrip_slashes h.

(** [os.path.basename(p)] (POSIX). *)
Definition basename (p : string) : string := snd (split_last_slash p).

(** ** Exceptions *)

Inductive exn_class :=
| OSError            (* with its subclasses FileNotFoundError, PermissionError, ... *)
| RecursionError
| TypeError
| ValueError
| ParseError         (* xml.etree.ElementTree.ParseError *)
| UnicodeDecodeError
| PickleError.

Global Instance exn_class_eq_dec : EqDecision exn_class.
Proof. solve_decision. Defined.

Record exn := Exn { exn_cls : exn_class; exn_msg : string }.

Global Instance exn_eq_dec : EqDecision exn.
Proof. solve_decision. Defined.

Inductive outcome (A : Type) :=
| Ret (a : A)
| Raise (e : exn).
Arguments Ret {A} a.
Arguments Raise {A} e.

(** ** The operating system as seen by the engine *)

Record StatInfo := { st_mtime : Z; st_size : Z }.

Inductive stamp_kind := SDir | SFile.

(** The dict built by [_get_source_stamp]; a directory stamp has no
    ["size"] key. *)
Record Stamp := {
  stamp_type : stamp_kind;
  stamp_path : string;
  stamp_mtime : Z;
  stamp_size : option Z
}.

Global Instance stamp_kind_eq_dec : EqDecision stamp_kind.
Proof. solve_decision. Defined.
Global Instance Stamp_eq_dec : EqDecision Stamp.
Proof. solve_decision. Defined.

(** One element delivered by [ET.iterparse(..., events=('end',))]: its tag,
    its attributes, and how many more bytes of the file had been read when
    it was delivered (so that [xml_file.tell()] is the running sum). *)
Record xml_event := {
  ev_tag : string;
  ev_attrib : gmap string string;
  ev_read : N
}.

(** What iterating over a file yields: the elements, then possibly a
    [ParseError] for a malformed document. *)
Record xml_stream := {
  xs_events : list xml_event;
  xs_error : option exn
}.

Inductive json_item :=
| JObject (r : record)
| JOther.           (* a string, number, list, ... inside the top-level list *)

Inductive json_doc :=
| JList (items : list json_item)
| JNotList.

(** A [pandas.DataFrame] as far as the engine reads it: the column labels
    and the rows as [to_dict('records')] returns them. *)
Record dataframe := {
  df_columns : list string;
  df_rows : list record
}.

Inductive encoding := Utf8 | Latin1.

Inductive write_result :=
| WriteOk
| OpenFails (e : exn)      (* [open(tmp, 'wb')] raises: no file is created *)
| DumpFails (e : exn).     (* [pickle.dump] raises: a partial file is left *)

Record Env := {
  (** [os.path.isdir] *)
  e_isdir : string → bool;
  (** [os.stat]; [None] is an [OSError] *)
  e_stat : string → option StatInfo;
  (** [glob.glob(os.path.join(root, "**", pattern), recursive=True)] *)
  e_glob : string → string → list string;
  (** how many nested calls the interpreter still allows *)
  e_depth : nat;
  (** [os.path.getsize]; [None] is an [OSError] *)
  e_getsize : string → option N;
  (** [open(path, 'rb')] followed by [ET.iterparse] *)
  e_xml : string → outcome xml_stream;
  (** [open(path, encoding='utf-8')] followed by [json.load] *)
  e_json : string → outcome json_doc;
  (** [open(path, encoding='utf-8')] followed by [readline] *)
  e_readline_utf8 : string → outcome unit;
  (** [pd.read_csv(path, encoding=...)] *)
  e_read_csv : string → encoding → outcome dataframe;
  (** writing a pickle to a path *)
  e_write : string → write_result;
  (** [os.replace(src, dst)]; [Some e] is the exception it raises *)
  e_replace : string → string → option exn;
  (** whether [os.remove] raises (it raises nothing but [OSError]) *)
  e_remove_fails : string → bool
}.

Definition file_stamp (p : string) (si : StatInfo) : Stamp :=
  {| stamp_type := SFile; stamp_path := p;
     stamp_mtime := st_mtime si; stamp_size := Some (st_size si) |}.

Definition dir_stamp (p : string) (si : StatInfo) : Stamp :=
  {| stamp_type := SDir; stamp_path := p;
     stamp_mtime := st_mtime si; stamp_size := None |}.

Definition recursion_error : exn :=
  Exn RecursionError "maximum recursion depth exceeded".

(** [os.stat] inside [try: ... except OSError: return None]. *)
Definition stat_or_none (e : Env) (p : string) (mk : string → StatInfo → Stamp)
  : outcome (option Stamp) :=
  match e_stat e p with
  | Some si => Ret (Some (mk p si))
  | None => Ret None
  end.

(** ** Mutable state *)

(** What the dashboard stores next to the stamp; its contents are produced
    by the presentation layer and are opaque here. *)
Record dashboard_data := {
  dd_stats : string;
  dd_dashboard_chart : string;
  dd_data_types : list hkey
}.

(** A cache payload: a Python dict read with [.get], so every key may be
    missing. *)
Record cache_dict := {
  cd_cache_version : option Z;
  cd_source_stamp : option Stamp;
  cd_records : option (list record);
  cd_record_types : option index;
  cd_dashboard : option dashboard_data
}.

(** [bool(d)] for a dict: false only for the empty dict. *)
Definition dict_truthy (d : cache_dict) : bool :=
  bool_decide (is_Some (cd_cache_version d)) || bool_decide (is_Some (cd_source_stamp d))
  || bool_decide (is_Some (cd_records d)) || bool_decide (is_Some (cd_record_types d))
  || bool_decide (is_Some (cd_dashboard d)).

Inductive fcontent :=
| Pickled (d : cache_dict)   (* [pickle.load] returns this dict *)
| PickledOther               (* [pickle.load] returns something that is no dict *)
| Garbage.                   (* [pickle.load] raises *)

Inductive event :=
| Printed (line : string)
| Traceback
| Progress (percent : Z) (message : string).

Record World := {
  (** [self.records], [self.record_types] *)
  records : list record;
  record_types : index;
  (** the module globals *)
  MEMORY_CACHE : gmap string cache_dict;
  MEMORY_CACHE_ORDER : list string;
  (** the files written by the engine *)
  disk : gmap string fcontent;
  (** what was printed and reported, oldest first *)
  events : list event
}.

Definition set_store (rs : list record) (ix : index) (w : World) : World :=
  {| records := rs; record_types := ix;
     MEMORY_CACHE := MEMORY_CACHE w; MEMORY_CACHE_ORDER := MEMORY_CACHE_ORDER w;
     disk := disk w; events := events w |}.

Definition set_memory (c : gmap string cache_dict) (o : list string) (w : World) : World :=
  {| records := records w; record_types := record_types w;
     MEMORY_CACHE := c; MEMORY_CACHE_ORDER := o;
     disk := disk w; events := events w |}.

Definition set_disk (d : gmap string fcontent) (w : World) : World :=
  {| records := records w; record_types := record_types w;
     MEMORY_CACHE := MEMORY_CACHE w; MEMORY_CACHE_ORDER := MEMORY_CACHE_ORDER w;
     disk := d; events := events w |}.

Definition add_event (ev : event) (w : World) : World :=
  {| records := records w; record_types := record_types w;
     MEMORY_CACHE := MEMORY_CACHE w; MEMORY_CACHE_ORDER := MEMORY_CACHE_ORDER w;
     disk := disk w; events := events w ++ [ev] |}.

(** ** The monad of methods: state that survives exceptions *)

Definition M (A : Type) : Type := World → outcome A * World.

Global Instance M_ret : MRet M := fun A a w => (Ret a, w).
Global Instance M_bind : MBind M := fun A B k m w =>
  match m w with
  | (Ret a, w') => k a w'
  | (Raise ex, w') => (Raise ex, w')
  end.

Definition raise {A} (ex : exn) : M A := fun w => (Raise ex, w).
Definition get : M World := fun w => (Ret w, w).
Definition modify (f : World → World) : M unit := fun w => (Ret tt, f w).
Definition lift {A} (o : outcome A) : M A := fun w => (o, w).

(** [try: body except Exception as ex: handler ex] *)
Definition try_except {A} (body : M A) (handler : exn → M A) : M A :=
  fun w => match body w with
           | (Ret a, w') => (Ret a, w')
           | (Raise ex, w') => handler ex w'
           end.

(** [try: body except cls as ex: handler ex] *)
Definition try_except_cls {A} (cls : exn_class) (body : M A) (handler : exn → M A) : M A :=
  try_except body (fun ex => if decide (exn_cls ex = cls) then handler ex else raise ex).

(** [for x in l: body x] *)
Fixpoint for_each {A} (l : list A) (body : A → M unit) : M unit :=
  match l with
  | [] => mret tt
  | x :: l' => body x ;; for_each l' body
  end.

Definition print (line : string) : M unit := modify (add_event (Printed line)).
Definition print_exc : M unit := modify (add_event Traceback).

(** ** Numbers, timestamps and the pandas library *)

(** A Python float: a real number or NaN. *)
Inductive pyfloat :=
| FNaN
| FVal (x : R).

(** A [pd.Timestamp]: seconds of wall-clock time; [to_date] is [.date()]
    as a day number. *)
Definition to_date (t : Z) : Z := t `div` 86400.

(** What the library functions answer; [None] is a raised exception. *)
Record Pandas := {
  (** [pd.to_datetime(s, format=fmt)] *)
  to_datetime_format : string → string → option Z;
  (** [pd.to_datetime(s, utc=True)] *)
  to_datetime_utc : string → option Z;
  (** [pd.to_datetime(s)] *)
  to_datetime : string → option Z;
  (** what [_safe_date_conversion] obtains for a list or a dict *)
  to_datetime_container : bool → option Z;
  (** [float(s)] for a string *)
  float_of_string : string → option pyfloat;
  (** whether [Series.str] accepts a column with these values *)
  str_accessor : list pyval → bool;
  (** [pd.Timestamp.now()], taken as constant during one call *)
  now : Z
}.

(** ** Strings *)

(** [c in s] for a one-character string [c] *)
Fixpoint contains_char (c : ascii) (s : string) : bool :=
  match s with
  | EmptyString => false
  | String a rest => bool_decide (a = c) || contains_char c rest
  end.

(** [s.replace('Z', '+00:00')] *)
Fixpoint replace_Z (s : string) : string :=
  match s with
  | EmptyString => ""
  | String a rest =>
      if bool_decide (a = "Z"%char) then "+00:00" +:+ replace_Z rest
      else String a (replace_Z rest)
  end.

Definition lower_char (a : ascii) : ascii :=
  let n := nat_of_ascii a in
  if bool_decide (65 ≤ n)%nat && bool_decide (n ≤ 90)%nat then ascii_of_nat (n + 32) else a.

(** [s.lower()], on the ASCII letters; the bytes of other characters are
    kept. *)
Fixpoint lower (s : string) : string :=
  match s with
  | EmptyString => ""
  | String a rest => String (lower_char a) (lower rest)
  end.

(** ** Data frames *)

(** [sort_values]: rows ordered by an integer key, equal keys in their
    previous order. *)
Fixpoint insert_by {A} (key : A → Z) (x : A) (l : list A) : list A :=
  match l with
  | [] => [x]
  | y :: l' => if decide (key x ≤ key y)%Z then x :: l else y :: insert_by key x l'
  end.

Definition sort_values {A} (key : A → Z) (l : list A) : list A :=
  foldr (insert_by key) [] l.

(** The group keys of [groupby]: ascending, each once. *)
Fixpoint insert_key (d : Z) (l : list Z) : list Z :=
  match l with
  | [] => [d]
  | y :: l' =>
      if decide (d < y)%Z then d :: l
      else if decide (d = y) then l
      else y :: insert_key d l'
  end.

Definition group_keys (ds : list Z) : list Z := foldr insert_key [] ds.

(** [df.groupby(key)]: the groups in ascending key order, each with its
    rows in frame order. *)
Definition groupby {A} (key : A → Z) (rows : list A) : list (Z * list A) :=
  map (fun d => (d, filter (fun r => key r = d) rows)) (group_keys (map key rows)).

Local Open Scope R_scope.

Definition Rsum (l : list R) : R := foldr Rplus 0 l.

(** The entries that are not NaN. *)
Fixpoint dropna (l : list pyfloat) : list R :=
  match l with
  | [] => []
  | FNaN :: l' => dropna l'
  | FVal x :: l' => x :: dropna l'
  end.

(** [Series.sum()], which skips NaN. *)
Definition sum_skipna (l : list pyfloat) : R := Rsum (dropna l).

Definition maximum (l : list R) : pyfloat :=
  match l with
  | [] => FNaN
  | x :: l' => FVal (foldr Rmax x l')
  end.

Definition minimum (l : list R) : pyfloat :=
  match l with
  | [] => FNaN
  | x :: l' => FVal (foldr Rmin x l')
  end.

Definition mean (l : list R) : pyfloat :=
  match l with
  | [] => FNaN
  | _ => FVal (Rsum l / INR (length l))
  end.

(** The sample standard deviation ([ddof=1]), NaN for fewer than two
    values. *)
Definition std (l : list R) : pyfloat :=
  match l with
  | [] | [_] => FNaN
  | _ =>
      let m := Rsum l / INR (length l) in
      FVal (sqrt (Rsum (map (fun x => (x - m) * (x - m)) l) / (INR (length l) - 1)))
  end.

(** [x.max() - x.min()] *)
Definition value_range (l : list R) : pyfloat :=
  match maximum l, minimum l with
  | FVal hi, FVal lo => FVal (hi - lo)
  | _, _ => FNaN
  end.

Definition isna (f : pyfloat) : bool :=
  match f with
  | FNaN => true
  | FVal _ => false
  end.

(** [fillna(0)] *)
Definition fillna0 (f : pyfloat) : R :=
  match f with
  | FNaN => 0
  | FVal x => x
  end.

(** [np.clip(x, lo, hi)] *)
Definition clip (x lo hi : R) : R := Rmin (Rmax x lo) hi.

Local Close Scope R_scope.

(** ** The memory cache *)

(** [list.remove(x)] for an [x] that is in the list. *)
Fixpoint remove_first (x : string) (l : list string) : list string :=
  match l with
  | [] => []
  | y :: l' => if decide (y = x) then l' else y :: remove_first x l'
  end.

(** The [while len(MEMORY_CACHE_ORDER) > MEMORY_CACHE_LIMIT] loop. *)
Fixpoint evict (cache_path : string) (order : list string) (cache : gmap string cache_dict)
  : list string * gmap string cache_dict :=
  match order with
  | [] => ([], cache)
  | old_path :: rest =>
      if decide (MEMORY_CACHE_LIMIT < length order)%nat then
        evict cache_path rest
          (if decide (old_path ≠ cache_path) then delete old_path cache else cache)
      else (order, cache)
  end.

Definition _store_memory_cache (cache_path : string) (payload : cache_dict) : M unit :=
  modify (fun w =>
    let cache := <[cache_path := payload]> (MEMORY_CACHE w) in
    let order := MEMORY_CACHE_ORDER w in
    let order := if decide (cache_path ∈ order) then remove_first cache_path order else order in
    let order := order ++ [cache_path] in
    let '(order, cache) := evict cache_path order cache in
    set_memory cache order w).

(** ** The on-disk cache *)

(** [with open(tmp_path, 'wb') as f: pickle.dump(payload, f)] *)
Definition write_pickle (e : Env) (tmp_path : string) (payload : cache_dict) : M unit :=
  match e_write e tmp_path with
  | WriteOk => modify (fun w => set_disk (<[tmp_path := Pickled payload]> (disk w)) w)
  | OpenFails ex => raise ex
  | DumpFails ex =>
      modify (fun w => set_disk (<[tmp_path := Garbage]> (disk w)) w) ;; raise ex
  end.

(** [os.replace(src, dst)] *)
Definition os_replace (e : Env) (src dst : string) : M unit :=
  match e_replace e src dst with
  | Some ex => raise ex
  | None =>
      w ← get;
      match disk w !! src with
      | Some c => modify (fun w => set_disk (<[dst := c]> (delete src (disk w))) w)
      | None => raise (Exn OSError "No such file or directory")
      end
  end.

(** [if os.path.exists(tmp_path): os.remove(tmp_path)] inside
    [try: ... except OSError: pass] *)
Definition remove_if_exists (e : Env) (tmp_path : string) : M unit :=
  w ← get;
  if bool_decide (is_Some (disk w !! tmp_path)) then
    if e_remove_fails e tmp_path then mret tt
    else modify (fun w => set_disk (delete tmp_path (disk w)) w)
  else mret tt.

(** [with open(cache_path, 'rb') as f: payload = pickle.load(f)] *)
Definition read_pickle (cache_path : string) : M (option cache_dict) :=
  w ← get;
  match disk w !! cache_path with
  | Some (Pickled d) => mret (Some d)
  | Some PickledOther => mret None
  | Some Garbage => raise (Exn PickleError "could not unpickle")
  | None => raise (Exn OSError "No such file or directory")
  end.

Module dashboard_cache.

Definition _cache_path_for_source (e : Env) (source_path : string) : string :=
  if e_isdir e source_path then path_join source_path DASHBOARD_CACHE_FILENAME
  else path_join (dirname source_path) DASHBOARD_CACHE_FILENAME.

(** [dashboard_cache._get_source_stamp]; [depth] is the number of calls
    the interpreter still allows, a [RecursionError] is no [OSError] and
    leaves the function. *)
Fixpoint _get_source_stamp_at (depth : nat) (e : Env) (source_path : string)
  : outcome (option Stamp) :=
  match depth with
  | O => Raise recursion_error
  | S depth' =>
      if e_isdir e source_path then
        let xml_files := e_glob e source_path EXPORT_XML in
        match xml_files with
        | first :: _ => _get_source_stamp_at depth' e first
        | [] => stat_or_none e source_path dir_stamp
        end
      else stat_or_none e source_path file_stamp
  end.

Definition _get_source_stamp (e : Env) (source_path : string) :=
  _get_source_stamp_at (e_depth e) e source_path.

(** [save_dashboard_cache] *)
Definition save_dashboard_cache (e : Env) (source_path : string)
    (stats dashboard_chart : string) (data_types : list hkey) : M bool :=
  source_stamp ← lift (_get_source_stamp e source_path);
  match source_stamp with
  | None => mret false
  | Some source_stamp =>
      let cache_path := _cache_path_for_source e source_path in
      let payload := {| cd_cache_version := Some DASHBOARD_CACHE_VERSION;
                        cd_source_stamp := Some source_stamp;
                        cd_records := None;
                        cd_record_types := None;
                        cd_dashboard := Some {| dd_stats := stats;
                                                dd_dashboard_chart := dashboard_chart;
                                                dd_data_types := data_types |} |} in
      let tmp_path := cache_path +:+ ".tmp" in
      try_except
        (write_pickle e tmp_path payload ;;
         os_replace e tmp_path cache_path ;;
         mret true)
        (fun _ =>
           remove_if_exists e tmp_path ;;
           mret false)
  end.

(** [load_dashboard_cache]: the payload, or [None]. *)
Definition load_dashboard_cache (e : Env) (source_path : string) : M (option cache_dict) :=
  let cache_path := _cache_path_for_source e source_path in
  w ← get;
  if negb (bool_decide (is_Some (disk w !! cache_path))) then mret None else
  source_stamp ← lift (_get_source_stamp e source_path);
  match source_stamp with
  | None => mret None
  | Some source_stamp =>
      payload ← try_except (d ← read_pickle cache_path; mret (Some d)) (fun _ => mret None);
      match payload with
      | None => mret None                       (* [pickle.load] raised *)
      | Some None => mret None                  (* not a dict *)
      | Some (Some payload) =>
          if negb (bool_decide (cd_cache_version payload = Some DASHBOARD_CACHE_VERSION))
          then mret None
          else if negb (bool_decide (cd_source_stamp payload = Some source_stamp))
          then mret None
          else mret (Some payload)
      end
  end.

End dashboard_cache.

Module health_parser.

Definition _cache_path_for_source (e : Env) (source_path : string) : string :=
  if e_isdir e source_path then path_join source_path CACHE_FILENAME
  else path_join (dirname source_path) CACHE_FILENAME.

(** [HealthDataParser._get_source_stamp] *)
Fixpoint _get_source_stamp_at (depth : nat) (e : Env) (source_path : string)
  : outcome (option Stamp) :=
  match depth with
  | O => Raise recursion_error
  | S depth' =>
      if e_isdir e source_path then
        let xml_files := e_glob e source_path EXPORT_XML in
        let xml_files := xml_files ++ e_glob e source_path SHUCHU_XML in
        match xml_files with
        | first :: _ => _get_source_stamp_at depth' e first
        | [] => stat_or_none e source_path dir_stamp
        end
      else stat_or_none e source_path file_stamp
  end.

Definition _get_source_stamp (e : Env) (source_path : string) :=
  _get_source_stamp_at (e_depth e) e source_path.

(** [HealthDataParser._load_cache] *)
Definition _load_cache (e : Env) (cache_path source_path : string) : M bool :=
  w ← get;
  if negb (bool_decide (is_Some (disk w !! cache_path))) then mret false else
  source_stamp ← lift (_get_source_stamp e source_path);
  match source_stamp with
  | None => mret false
  | Some source_stamp =>
      let from_disk : M bool :=
        payload ← try_except (d ← read_pickle cache_path; mret (Some d)) (fun _ => mret None);
        match payload with
        | None => mret false                       (* [pickle.load] raised *)
        | Some None => mret false                  (* not a dict *)
        | Some (Some payload) =>
            if negb (bool_decide (cd_cache_version payload = Some CACHE_VERSION)) then mret false
            else if negb (bool_decide (cd_source_stamp payload = Some source_stamp)) then mret false
            else
              modify (set_store (default [] (cd_records payload))
                                (default ∅ (cd_record_types payload))) ;;
              _store_memory_cache cache_path payload ;;
              print ("Loaded cached health data from " +:+ cache_path) ;;
              w ← get;
              mret (bool_decide (0 < length (records w))%nat)
        end in
      match MEMORY_CACHE w !! cache_path with
      | Some memory_payload =>
          if dict_truthy memory_payload
             && bool_decide (cd_cache_version memory_payload = Some CACHE_VERSION)
             && bool_decide (cd_source_stamp memory_payload = Some source_stamp)
          then
            modify (set_store (default [] (cd_records memory_payload))
                              (default ∅ (cd_record_types memory_payload))) ;;
            print ("Loaded cached health data from memory (" +:+ cache_path +:+ ")") ;;
            w ← get;
            mret (bool_decide (0 < length (records w))%nat)
          else from_disk
      | None => from_disk
      end
  end.

(** [HealthDataParser._save_cache]; the method returns [None] on every
    path. *)
Definition _save_cache (e : Env) (cache_path source_path : string) : M unit :=
  source_stamp ← lift (_get_source_stamp e source_path);
  match source_stamp with
  | None => mret tt
  | Some source_stamp =>
      w ← get;
      let payload := {| cd_cache_version := Some CACHE_VERSION;
                        cd_source_stamp := Some source_stamp;
                        cd_records := Some (records w);
                        cd_record_types := Some (record_types w);
                        cd_dashboard := None |} in
      let tmp_path := cache_path +:+ ".tmp" in
      try_except
        (write_pickle e tmp_path payload ;;
         os_replace e tmp_path cache_path ;;
         _store_memory_cache cache_path payload ;;
         print ("Saved cache to " +:+ cache_path))
        (fun ex =>
           print ("Failed to save cache " +:+ cache_path +:+ ": " +:+ exn_msg ex) ;;
           remove_if_exists e tmp_path)
  end.

(** [if key not in ix: ix[key] = []] followed by [ix[key].append(record)] *)
Definition bucket_append (key : hkey) (record : record) (ix : index) : index :=
  let ix := if bool_decide (is_Some (ix !! key)) then ix else <[key := []]> ix in
  alter (fun bucket => bucket ++ [record]) key ix.

(** The lines under [# 记录类型], the same in the three readers:
    [record_type = record.get('type')] and the insertion into
    [self.record_types].  The membership test hashes the key, so an
    unhashable type raises [TypeError]. *)
Definition index_record (record : record) : M unit :=
  let record_type := default VNone (record !! "type") in
  if truthy record_type then
    match hash_key record_type with
    | None => raise (Exn TypeError "unhashable type")
    | Some key =>
        modify (fun w => set_store (records w) (bucket_append key record (record_types w)) w)
    end
  else mret tt.

(** [self.records.append(record)] *)
Definition append_record (record : record) : M unit :=
  modify (fun w => set_store (records w ++ [record]) (record_types w) w).

(** [elem.attrib] as a record: every value is a string. *)
Definition attrib_record (a : gmap string string) : record := VStr <$> a.

(** [max(5, min(95, int((current_pos / total_size) * 90) + 5))]: the
    quotient is taken exactly and [int] truncates towards zero. *)
Definition progress_percent (current_pos total_size : Z) : Z :=
  let progress := Z.quot (current_pos * 90) total_size + 5 in
  Z.max 5 (Z.min 95 progress).

(** The locals of the parsing loop. *)
Record xml_locals := {
  last_progress : Z;
  record_count : Z;
  file_pos : Z       (* what [xml_file.tell()] returns *)
}.

(** The body of [for event, elem in ET.iterparse(...)], for one element.
    [elem.clear()] releases the element; the attribute dict kept in
    [record] is not emptied by it (CPython's C implementation of
    ElementTree). *)
Definition xml_step (progress_callback : bool) (total_size : option N)
    (ev : xml_event) (loc : xml_locals) : M xml_locals :=
  let pos := file_pos loc + Z.of_N (ev_read ev) in
  if bool_decide (ev_tag ev = "Record") then
    let record := attrib_record (ev_attrib ev) in
    append_record record ;;
    index_record record ;;
    let record_count := record_count loc + 1 in
    if progress_callback
       && bool_decide (default 0%N total_size ≠ 0%N)
       && bool_decide (record_count `mod` 5000 = 0)
    then
      let progress := progress_percent pos (Z.of_N (default 0%N total_size)) in
      if bool_decide (progress ≠ last_progress loc) then
        modify (add_event (Progress progress
                  ("Parsing export.xml... " +:+ pretty progress +:+ "%"))) ;;
        mret {| last_progress := progress; record_count := record_count; file_pos := pos |}
      else
        mret {| last_progress := last_progress loc; record_count := record_count;
                file_pos := pos |}
    else
      mret {| last_progress := last_progress loc; record_count := record_count;
              file_pos := pos |}
  else
    mret {| last_progress := last_progress loc; record_count := record_count loc;
            file_pos := pos |}.

Fixpoint xml_loop (progress_callback : bool) (total_size : option N)
    (evs : list xml_event) (loc : xml_locals) : M xml_locals :=
  match evs with
  | [] => mret loc
  | ev :: evs' =>
      loc' ← xml_step progress_callback total_size ev loc;
      xml_loop progress_callback total_size evs' loc'
  end.

(** [HealthDataParser.parse_xml]; [progress_callback] says whether a
    callback was passed, its invocations are recorded as [Progress]
    events. *)
Definition parse_xml (e : Env) (xml_path : string) (progress_callback : bool) : M bool :=
  try_except
    (let cache_path := _cache_path_for_source e xml_path in
     hit ← _load_cache e cache_path xml_path;
     if hit : bool then
       (if progress_callback
        then modify (add_event (Progress 95 "Loaded cached data."))
        else mret tt) ;;
       mret true
     else
       print ("Parsing XML file: " +:+ xml_path) ;;
       let total_size := e_getsize e xml_path in
       stream ← lift (e_xml e xml_path);
       xml_loop progress_callback total_size (xs_events stream)
         {| last_progress := -1; record_count := 0; file_pos := 0 |} ;;
       match xs_error stream with Some ex => raise ex | None => mret tt end ;;
       w ← get;
       print ("XML parse complete: " +:+ pretty (length (records w)) +:+ " records, "
              +:+ pretty (size (record_types w)) +:+ " types") ;;
       _save_cache e cache_path xml_path ;;
       w ← get;
       mret (bool_decide (0 < length (records w))%nat))
    (fun ex =>
       print ("Error parsing XML file: " +:+ exn_msg ex) ;;
       print_exc ;;
       mret false).

(** The body of [for record in data] in [parse_json_files]. *)
Definition json_record_step (item : json_item) : M unit :=
  match item with
  | JObject record =>
      if bool_decide (is_Some (record !! "type")) then
        append_record record ;;
        index_record record
      else mret tt
  | JOther => mret tt
  end.

(** [HealthDataParser.parse_json_files] *)
Definition parse_json_files (e : Env) (directory_path : string) : M bool :=
  try_except
    (let json_files := e_glob e directory_path "*.json" in
     for_each json_files (fun json_file =>
       try_except
         (data ← lift (e_json e json_file);
          match data with
          | JList items => for_each items json_record_step
          | JNotList => mret tt
          end)
         (fun ex =>
            print ("Error parsing JSON file " +:+ json_file +:+ ": " +:+ exn_msg ex))) ;;
     w ← get;
     mret (bool_decide (0 < length (records w))%nat))
    (fun ex =>
       print ("Error parsing JSON files: " +:+ exn_msg ex) ;;
       print_exc ;;
       mret false).

Definition health_data_columns : list string := ["type"; "startDate"; "endDate"; "value"].

(** The body of [for record in records] in [parse_csv_files]. *)
Definition csv_record_step (record : record) : M unit :=
  if bool_decide (is_Some (record !! "type")) then
    append_record record ;;
    index_record record
  else mret tt.

(** [HealthDataParser.parse_csv_files] *)
Definition parse_csv_files (e : Env) (directory_path : string) : M bool :=
  try_except
    (let csv_files := e_glob e directory_path "*.csv" in
     for_each csv_files (fun csv_file =>
       try_except
         (encoding ← try_except_cls UnicodeDecodeError
                       (lift (e_readline_utf8 e csv_file) ;; mret Utf8)
                       (fun _ => mret Latin1);
          df ← lift (e_read_csv e csv_file encoding);
          let has_health_columns :=
            existsb (fun col => bool_decide (col ∈ df_columns df)) health_data_columns in
          if has_health_columns then for_each (df_rows df) csv_record_step
          else mret tt)
         (fun ex =>
            print ("Error parsing CSV file " +:+ csv_file +:+ ": " +:+ exn_msg ex))) ;;
     w ← get;
     mret (bool_decide (0 < length (records w))%nat))
    (fun ex =>
       print ("Error parsing CSV files: " +:+ exn_msg ex) ;;
       print_exc ;;
       mret false).

(** The [for xml_file in export_files] loop of [parse_directory]:
    whether some file was parsed successfully (then the loop breaks). *)
Fixpoint parse_first_xml (e : Env) (export_files : list string) : M bool :=
  match export_files with
  | [] => mret false
  | xml_file :: rest =>
      ok ← parse_xml e xml_file false;
      if ok : bool then mret true else parse_first_xml e rest
  end.

(** [HealthDataParser.parse_directory] *)
Definition parse_directory (e : Env) (directory_path : string) : M bool :=
  try_except
    (let xml_files := e_glob e directory_path "*.xml" in
     let export_files :=
       filter (fun xml_file => basename xml_file ∈ [EXPORT_XML; SHUCHU_XML]) xml_files in
     let cache_source := default directory_path (head export_files) in
     let cache_path := _cache_path_for_source e cache_source in
     hit ← _load_cache e cache_path cache_source;
     if hit : bool then mret true
     else
       parsed_xml ← parse_first_xml e export_files;
       let success : bool := parsed_xml in
       success ← (if negb success then parse_json_files e directory_path
                  else mret success);
       success ← (if negb success then parse_csv_files e directory_path
                  else mret success);
       (if success && negb parsed_xml
        then _save_cache e cache_path directory_path
        else mret tt) ;;
       mret success)
    (fun ex =>
       print ("Error parsing directory: " +:+ exn_msg ex) ;;
       print_exc ;;
       mret false).

(** *** Derived metrics

    The methods below only read [self.record_types].  Their bodies do
    not raise in this model, so the enclosing [try ... except] that
    returns an empty frame is not shown, and their [print]s are left
    out. *)

Definition date_formats : list string :=
  ["%Y-%m-%d %H:%M:%S%z"; "%Y-%m-%dT%H:%M:%S%z"; "%Y-%m-%d %H:%M:%SZ"; "%Y-%m-%dT%H:%M:%SZ"].

(** The [for fmt in [...]] loop: the first format that parses. *)
Fixpoint try_formats (pd : Pandas) (date_str : string) (fmts : list string) : option Z :=
  match fmts with
  | [] => None
  | fmt :: rest =>
      match to_datetime_format pd date_str fmt with
      | Some t => Some t
      | None => try_formats pd date_str rest
      end
  end.

(** [HealthDataParser._safe_date_conversion]: every exception ends in
    [pd.Timestamp.now()].  A number raises [TypeError] at ['Z' in date_str]. *)
Definition _safe_date_conversion (pd : Pandas) (date_str : pyval) : Z :=
  match date_str with
  | VStr s =>
      if contains_char "Z" s || contains_char "+" s || contains_char "T" s then
        let s := if contains_char "Z" s then replace_Z s else s in
        match try_formats pd s date_formats with
        | Some t => t
        | None => default (now pd) (to_datetime_utc pd s)
        end
      else default (now pd) (to_datetime pd s)
  | VCompound b => default (now pd) (to_datetime_container pd b)
  | VNone | VNum _ | VNaN => now pd
  end.

(** [field in record and record[field]] *)
Definition present (record : record) (field : string) : option pyval :=
  match record !! field with
  | Some v => if truthy v then Some v else None
  | None => None
  end.

(** The first field of the list that is present with a true value. *)
Fixpoint first_present (record : record) (fields : list string) : option pyval :=
  match fields with
  | [] => None
  | field :: rest =>
      match present record field with
      | Some v => Some v
      | None => first_present record rest
      end
  end.

Definition date_fields : list string := ["startDate"; "endDate"; "date"; "日期"; "Start"; "End"].

(** [HealthDataParser._extract_date] *)
Definition _extract_date (pd : Pandas) (record : record) : Z :=
  match first_present record date_fields with
  | Some v => _safe_date_conversion pd v
  | None => now pd
  end.

(** [float(v)]; [None] is [ValueError] or [TypeError]. *)
Definition py_float (pd : Pandas) (v : pyval) : option pyfloat :=
  match v with
  | VStr s => float_of_string pd s
  | VNum q => Some (FVal (Q2R q))
  | VNaN => Some FNaN
  | VNone | VCompound _ => None
  end.

(** What [_extract_value] returns: [None], a float, or the raw field. *)
Inductive extracted :=
| XNone
| XFloat (f : pyfloat)
| XRaw (v : pyval).

Definition value_fields : list string := ["value"; "Value"; "值"; "数值"].

(** [HealthDataParser._extract_value] *)
Definition _extract_value (pd : Pandas) (record : record) : extracted :=
  match first_present record value_fields with
  | Some v =>
      match py_float pd v with
      | Some f => XFloat f
      | None => XRaw v
      end
  | None => XNone
  end.

(** [float(value)] in the callers of [_extract_value] *)
Definition float_of_extracted (pd : Pandas) (x : extracted) : option pyfloat :=
  match x with
  | XNone => None
  | XFloat f => Some f
  | XRaw v => py_float pd v
  end.

(** [for type_name in types: if type_name in self.record_types: ...extend] *)
Definition collect (self : World) (types : list string) : list record :=
  flat_map (fun type_name => default [] (record_types self !! KStr type_name)) types.

(** A row of the step and heart-rate frames. *)
Record sample := { startDate : Z; value : pyfloat }.

(** The [for record in ...] loop shared by [get_step_count_data] and
    [get_heart_rate_data]. *)
Fixpoint sample_rows (pd : Pandas) (rs : list record) : list sample :=
  match rs with
  | [] => []
  | record :: rest =>
      let date := _extract_date pd record in
      let value := _extract_value pd record in
      match value with
      | XNone => sample_rows pd rest
      | _ =>
          match float_of_extracted pd value with
          | Some f => {| startDate := date; value := f |} :: sample_rows pd rest
          | None => sample_rows pd rest
          end
      end
  end.

Definition step_types : list string :=
  ["HKQuantityTypeIdentifierStepCount"; "com.apple.health.type.quantity.steps"; "StepCount"].

(** [HealthDataParser.get_step_count_data] *)
Definition get_step_count_data (pd : Pandas) (self : World) : list sample :=
  let step_records := collect self step_types in
  match step_records with
  | [] => []
  | _ => sort_values startDate (sample_rows pd step_records)
  end.

(** [HealthDataParser.get_daily_step_count]: rows (date, steps) *)
Definition get_daily_step_count (pd : Pandas) (self : World) : list (Z * R) :=
  let steps_data := get_step_count_data pd self in
  match steps_data with
  | [] => []
  | _ =>
      map (fun '(d, rows) => (d, sum_skipna (map value rows)))
          (groupby (fun r => to_date (startDate r)) steps_data)
  end.

Definition hr_types : list string :=
  ["HKQuantityTypeIdentifierHeartRate"; "com.apple.health.type.quantity.heartrate"; "HeartRate"].

(** [HealthDataParser.get_heart_rate_data] *)
Definition get_heart_rate_data (pd : Pandas) (self : World) : list sample :=
  let hr_records := collect self hr_types in
  match hr_records with
  | [] => []
  | _ => sort_values startDate (sample_rows pd hr_records)
  end.

Record hr_stats := { avg_hr : pyfloat; max_hr : pyfloat; min_hr : pyfloat }.

(** [HealthDataParser.get_heart_rate_stats] *)
Definition get_heart_rate_stats (pd : Pandas) (self : World) : option hr_stats :=
  let hr_data := get_heart_rate_data pd self in
  match hr_data with
  | [] => None
  | _ =>
      let values := dropna (map value hr_data) in
      Some {| avg_hr := mean values; max_hr := maximum values; min_hr := minimum values |}
  end.

Definition sleep_types : list string :=
  ["HKCategoryTypeIdentifierSleepAnalysis"; "com.apple.health.type.category.sleep";
   "SleepAnalysis"].

(** A row of the sleep frame; a missing [duration] is NaN in the frame. *)
Record sleep_row := {
  sl_startDate : Z;
  sl_endDate : option Z;
  sl_duration : option R;
  sl_value : option pyval
}.

(** The body of [for record in sleep_records]: the row, if one is
    appended. *)
Definition sleep_row_of (pd : Pandas) (record : record) : option sleep_row :=
  let start_date := _extract_date pd record in
  let end_date :=
    match present record "endDate" with
    | Some v => Some (_safe_date_conversion pd v)
    | None =>
        match present record "End" with
        | Some v => Some (_safe_date_conversion pd v)
        | None => None
        end
    end in
  let duration :=
    match end_date with
    | Some end_date => Some (IZR (end_date - start_date) / 3600)%R
    | None => None
    end in
  let value :=
    match present record "value" with
    | Some v => Some v
    | None => present record "Value"
    end in
  if bool_decide (is_Some duration) || bool_decide (is_Some value) then
    Some {| sl_startDate := start_date; sl_endDate := end_date;
            sl_duration := duration; sl_value := value |}
  else None.

(** [HealthDataParser.get_sleep_analysis_data] *)
Definition get_sleep_analysis_data (pd : Pandas) (self : World) : list sleep_row :=
  let sleep_records := collect self sleep_types in
  match sleep_records with
  | [] => []
  | _ => sort_values sl_startDate (omap (sleep_row_of pd) sleep_records)
  end.

Definition sleep_states : list string := ["asleep"; "inBed"; "入睡"; "睡眠"].

(** One entry of [sleep_data['value'].str.lower().isin(...)]: an entry
    that is no string is never in the vocabulary. *)
Definition sleep_mask (row : sleep_row) : bool :=
  match sl_value row with
  | Some (VStr s) => bool_decide (lower s ∈ map lower sleep_states)
  | _ => false
  end.

Definition duration_float (row : sleep_row) : pyfloat :=
  match sl_duration row with
  | Some x => FVal x
  | None => FNaN
  end.

(** [(endDate - startDate).dt.total_seconds() / 3600], NaN without an
    end date. *)
Definition recomputed_duration (row : sleep_row) : pyfloat :=
  match sl_endDate row with
  | Some end_date => FVal (IZR (end_date - sl_startDate row) / 3600)%R
  | None => FNaN
  end.

(** The second half of [get_sleep_duration_daily], from
    [# 提取日期部分] on: the dates of the frame with the summed
    durations; the [duration] column is recomputed from the end dates
    when it holds nothing but NaN. *)
Definition daily_sleep_totals (filtered_sleep_data : list sleep_row) : list (Z * R) :=
  let groups := groupby (fun row => to_date (sl_startDate row)) filtered_sleep_data in
  if negb (forallb (fun row => negb (bool_decide (is_Some (sl_duration row))))
                   filtered_sleep_data)
  then map (fun '(d, rows) => (d, sum_skipna (map duration_float rows))) groups
  else map (fun '(d, rows) => (d, sum_skipna (map recomputed_duration rows))) groups.

(** [HealthDataParser.get_sleep_duration_daily]: rows (date, hours).
    The column ['value'] is in every non-empty sleep frame; when the
    [.str] accessor raises, the [except] branch keeps the whole frame. *)
Definition get_sleep_duration_daily (pd : Pandas) (self : World) : list (Z * R) :=
  let sleep_data := get_sleep_analysis_data pd self in
  match sleep_data with
  | [] => []
  | _ =>
      let filtered_sleep_data :=
        if str_accessor pd (map (fun row => default VNone (sl_value row)) sleep_data) then
          let filtered_sleep_data := filter (fun row => sleep_mask row = true) sleep_data in
          match filtered_sleep_data with
          | [] => sleep_data
          | _ => filtered_sleep_data
          end
        else sleep_data in
      daily_sleep_totals filtered_sleep_data
  end.

(** A row of the stress frame: the date, [心率波动], [心率范围],
    [平均心率] and [压力指数]. *)
Record stress_row := {
  st_date : Z;
  hr_std : R;
  hr_range : R;
  hr_mean : R;
  stress_index : R
}.

(** [HealthDataParser.get_stress_indicators] *)
Definition get_stress_indicators (pd : Pandas) (self : World) : list stress_row :=
  let hr_data := get_heart_rate_data pd self in
  match hr_data with
  | [] => []
  | _ =>
      let hr_data := filter (fun r => isna (value r) = false) hr_data in
      match hr_data with
      | [] => []
      | _ =>
          let stress_data :=
            map (fun '(d, rows) =>
                   let values := dropna (map value rows) in
                   let s := fillna0 (std values) in
                   let r := fillna0 (value_range values) in
                   let m := fillna0 (mean values) in
                   {| st_date := d; hr_std := s; hr_range := r; hr_mean := m;
                      stress_index := clip ((s * 0.6 + r * 0.4) / 10.0)%R 1 10 |})
                (groupby (fun r => to_date (startDate r)) hr_data) in
          sort_values st_date stress_data
      end
  end.

End health_parser.

(** ** The upload component *)

Module upload.

Definition ALLOWED_EXTENSIONS : list string := ["xml"].

(** Cuts [s] at its last [sep]: what is before and what is after. *)
Fixpoint split_last (sep : ascii) (s : string) : option (string * string) :=
  match s with
  | EmptyString => None
  | String a rest =>
      match split_last sep rest with
      | Some (h, t) => Some (String a h, t)
      | None => if bool_decide (a = sep) then Some ("", rest) else None
      end
  end.

(** [s.rsplit(sep, 1)] *)
Definition rsplit1 (sep : ascii) (s : string) : list string :=
  match split_last sep s with
  | Some (h, t) => [h; t]
  | None => [s]
  end.

(** [allowed_file]; a missing second part would be an [IndexError],
    which the first test excludes.  Of [str.lower] only the ASCII
    letters matter here: no other character becomes [x], [m] or [l]. *)
Definition allowed_file (filename : string) : bool :=
  contains_char "." filename
  && match rsplit1 "." filename !! 1%nat with
     | Some extension => bool_decide (lower extension ∈ ALLOWED_EXTENSIONS)
     | None => false
     end.

(** One value of [UPLOAD_STATUS[upload_id]]. *)
Record status_info := { status : string; message : string; progress : Z }.

(** What [progress_callback] writes at an invocation by the parser. *)
Definition progress_callback (ev : event) : option status_info :=
  match ev with
  | Progress progress message =>
      Some {| status := "processing"; message := message; progress := progress |}
  | Printed _ | Traceback => None
  end.

(** [_parse_in_background]: the values written to
    [UPLOAD_STATUS[upload_id]], in order, and the world the thread
    leaves, with the store of its parser.  The parser is a new one;
    [parser.clean_up] has no temporary directory to remove.
    [build_dashboard_payload] is the function of the dashboard
    component, which reads the parser and may raise. *)
Definition _parse_in_background (e : Env)
    (build_dashboard_payload : World → outcome (string * string * list hkey))
    (file_path : string) (w : World) : list status_info * World :=
  let set_upload_status status message progress :=
    {| status := status; message := message; progress := progress |} in
  let begin := set_upload_status "processing" "Parsing export.xml..." 5 in
  let parser := set_store [] ∅ w in
  let '(success, w1) := health_parser.parse_xml e file_path true parser in
  let during := omap progress_callback (drop (length (events parser)) (events w1)) in
  match success with
  | Ret true =>
      let building := set_upload_status "processing" "Building dashboard..." 97 in
      match build_dashboard_payload w1 with
      | Ret (stats, dashboard_chart, data_types) =>
          let '(cache_saved, w2) :=
            dashboard_cache.save_dashboard_cache e file_path stats dashboard_chart
              data_types w1 in
          match cache_saved with
          | Ret true =>
              (begin :: during
                 ++ [building; set_upload_status "done" "Parsing complete." 100], w2)
          | Ret false =>
              (begin :: during
                 ++ [building;
                     set_upload_status "error" "Failed to save dashboard cache." 100], w2)
          | Raise exc =>
              (begin :: during
                 ++ [building;
                     set_upload_status "error" ("Parsing failed: " +:+ exn_msg exc) 100], w2)
          end
      | Raise exc =>
          (begin :: during
             ++ [building;
                 set_upload_status "error" ("Parsing failed: " +:+ exn_msg exc) 100], w1)
      end
  | Ret false =>
      (begin :: during ++ [set_upload_status "error" "Failed to parse export.xml." 100], w1)
  | Raise exc =>
      (begin :: during
         ++ [set_upload_status "error" ("Parsing failed: " +:+ exn_msg exc) 100], w1)
  end.

End upload.

(** ** The dashboard component *)

Module dashboard.

(** What a route answers: the landing page, after a flashed message if
    any, or the dashboard with what it shows; [None] stands for the
    default of a key that the cached payload lacks. *)
Inductive response :=
| IndexPage (flashed : option string)
| DashboardPage (stats dashboard_chart : option string) (data_types : list hkey).

(** The two paths of the session. *)
Record session := { data_file_path : option string; data_dir_path : option string }.

(** [bool(session.get(key))] *)
Definition path_truthy (p : option string) : bool :=
  match p with
  | Some s => negb (bool_decide (s = ""))
  | None => false
  end.

(** [os.path.exists]: whether [os.stat] answers. *)
Definition path_exists (e : Env) (p : string) : bool := bool_decide (is_Some (e_stat e p)).

(** How [initialize_parser] ends: with the parser, with [None], or with
    [raise Exception(message)], which its callers catch. *)
Inductive initialized :=
| Parser
| NoParser
| LoadError (message : string).

(** [initialize_parser]; the parser is a new one. *)
Definition initialize_parser (e : Env) (s : session) : M initialized :=
  modify (set_store [] ∅) ;;
  if path_truthy (data_file_path s) && path_exists e (default "" (data_file_path s)) then
    ok ← health_parser.parse_xml e (default "" (data_file_path s)) false;
    if negb ok then mret (LoadError "Error loading data file.") else mret Parser
  else if path_truthy (data_dir_path s) && path_exists e (default "" (data_dir_path s)) then
    ok ← health_parser.parse_directory e (default "" (data_dir_path s));
    if negb ok then mret (LoadError "Error loading data directory.") else mret Parser
  else mret NoParser.

(** [index]; [build_dashboard_payload] reads the parser and may raise.
    The cache is looked up before the [try], so an exception of the
    lookup leaves the route. *)
Definition index (e : Env)
    (build_dashboard_payload : World → outcome (string * string * list hkey))
    (s : session) : M response :=
  if negb (path_truthy (data_file_path s)) && negb (path_truthy (data_dir_path s))
  then mret (IndexPage None)
  else
    let source_path :=
      if path_truthy (data_file_path s) then default "" (data_file_path s)
      else default "" (data_dir_path s) in
    cached_payload ← dashboard_cache.load_dashboard_cache e source_path;
    let cached_payload :=
      match cached_payload with
      | Some payload => if dict_truthy payload then Some payload else None
      | None => None
      end in
    match cached_payload with
    | Some payload =>
        mret (DashboardPage (dd_stats <$> cd_dashboard payload)
                            (dd_dashboard_chart <$> cd_dashboard payload)
                            (default [] (dd_data_types <$> cd_dashboard payload)))
    | None =>
        try_except
          (parser ← initialize_parser e s;
           match parser with
           | NoParser => mret (IndexPage (Some "No valid health data found."))
           | LoadError message =>
               mret (IndexPage (Some ("Error generating dashboard: " +:+ message)))
           | Parser =>
               '(stats, dashboard_chart, data_types) ←
                 (w ← get; lift (build_dashboard_payload w));
               dashboard_cache.save_dashboard_cache e source_path stats dashboard_chart
                 data_types ;;
               mret (DashboardPage (Some stats) (Some dashboard_chart) data_types)
           end)
          (fun ex => mret (IndexPage (Some ("Error generating dashboard: " +:+ exn_msg ex))))
    end.

End dashboard.

(** * Notions used in the statements *)

(** The payload [_save_cache] builds from the parser's store. *)
Definition health_payload (source_stamp : Stamp) (w : World) : cache_dict :=
  {| cd_cache_version := Some CACHE_VERSION;
     cd_source_stamp := Some source_stamp;
     cd_records := Some (records w);
     cd_record_types := Some (record_types w);
     cd_dashboard := None |}.

(** The payload [save_dashboard_cache] builds. *)
Definition dashboard_payload (source_stamp : Stamp) (stats dashboard_chart : string)
    (data_types : list hkey) : cache_dict :=
  {| cd_cache_version := Some DASHBOARD_CACHE_VERSION;
     cd_source_stamp := Some source_stamp;
     cd_records := None;
     cd_record_types := None;
     cd_dashboard := Some {| dd_stats := stats;
                             dd_dashboard_chart := dashboard_chart;
                             dd_data_types := data_types |} |}.

(** The temporary file of a cache file. *)
Definition tmp_of (cache_path : string) : string := cache_path +:+ ".tmp".

(** Writing the temporary file and renaming it both succeed. *)
Definition io_succeeds (e : Env) (cache_path : string) : Prop :=
  e_write e (tmp_of cache_path) = WriteOk
  ∧ e_replace e (tmp_of cache_path) cache_path = None.

Global Instance write_result_eq_dec : EqDecision write_result.
Proof. solve_decision. Defined.

Global Instance io_succeeds_dec e cache_path : Decision (io_succeeds e cache_path).
Proof. unfold io_succeeds. apply _. Defined.

(** A payload that [_load_cache] accepts for a source with this stamp. *)
Definition payload_matches (source_stamp : Stamp) (d : cache_dict) : Prop :=
  cd_cache_version d = Some CACHE_VERSION ∧ cd_source_stamp d = Some source_stamp.

Global Instance payload_matches_dec st d : Decision (payload_matches st d).
Proof. unfold payload_matches. apply _. Defined.

(** The store a payload holds, read as [_load_cache] reads it. *)
Definition payload_records (d : cache_dict) : list record := default [] (cd_records d).
Definition payload_record_types (d : cache_dict) : index := default ∅ (cd_record_types d).

(** What a failed save leaves on disk: the cache file as it was, and no
    temporary file unless its removal failed. *)
Definition failed_save_disk (e : Env) (cache_path : string) (w w' : World) : Prop :=
  disk w' !! cache_path = disk w !! cache_path
  ∧ (disk w' !! tmp_of cache_path = None ∨ e_remove_fails e (tmp_of cache_path) = true).

(** What a successful save leaves on disk: the payload in place of the
    cache file, written through the temporary file, which is gone. *)
Definition successful_save_disk (cache_path : string) (payload : cache_dict) (w w' : World)
  : Prop :=
  disk w' = <[cache_path := Pickled payload]> (delete (tmp_of cache_path) (disk w)).

(** The line [_save_cache] prints when a write fails. *)
Definition failure_line (cache_path : string) (ex : exn) : event :=
  Printed ("Failed to save cache " +:+ cache_path +:+ ": " +:+ exn_msg ex).

(** The key under which the readers index a record: its ["type"] when
    that is true and hashable. *)
Definition type_key (r : record) : option hkey :=
  let record_type := default VNone (r !! "type") in
  if truthy record_type then hash_key record_type else None.

(** The Record Store invariant: what is indexed is in the sequence; a
    record of the sequence that carries a type is in the bucket of that
    type; a record without a type is in no bucket. *)
Definition store_invariant (rs : list record) (ix : index) : Prop :=
  (∀ k bucket r, ix !! k = Some bucket → r ∈ bucket → r ∈ rs)
  ∧ (∀ r k, r ∈ rs → type_key r = Some k →
       ∃ bucket, ix !! k = Some bucket ∧ r ∈ bucket)
  ∧ (∀ r, type_key r = None → ∀ k bucket, ix !! k = Some bucket → r ∉ bucket).

(** A payload holds a store that satisfies the invariant. *)
Definition payload_wf (d : cache_dict) : Prop :=
  store_invariant (payload_records d) (payload_record_types d).

(** The stores kept in the two cache tiers. *)
Definition caches_wf (w : World) : Prop :=
  (∀ cache_path d, MEMORY_CACHE w !! cache_path = Some d → payload_wf d)
  ∧ (∀ cache_path d, disk w !! cache_path = Some (Pickled d) → payload_wf d).

Definition world_invariant (w : World) : Prop :=
  store_invariant (records w) (record_types w) ∧ caches_wf w.

(** A method keeps a property [P] of the world, however it ends, and
    what it returns satisfies [Q]. *)
Definition hoare {A} (P : World → Prop) (m : M A) (Q : A → Prop) : Prop :=
  ∀ w, P w → P (m w).2 ∧ ∀ a, (m w).1 = Ret a → Q a.

Definition preserves {A} (P : World → Prop) (m : M A) : Prop :=
  hoare P m (fun _ => True).

(** The percentages passed to the progress callback, in order. *)
Definition percents (evs : list event) : list Z :=
  omap (fun ev => match ev with Progress p _ => Some p | _ => None end) evs.

(** A method only appends events, and the percentages among them satisfy
    [R]. *)
Definition emits {A} (m : M A) (R : list Z → Prop) : Prop :=
  ∀ w, ∃ new, events (m w).2 = events w ++ new ∧ R (percents new).

(** A method reports no progress. *)
Definition quiet {A} (m : M A) : Prop := emits m (fun ps => ps = []).

(** Percentages that increase strictly and stay in the range reserved
    for parsing. *)
Definition parsing_progress (ps : list Z) : Prop :=
  StronglySorted Z.lt ps ∧ Forall (fun p => 5 ≤ p ≤ 95)%Z ps.

(** Two machines that differ at most in their JSON and CSV files: they
    answer alike about directories, stamps, XML files and writes. *)
Definition same_xml_side (e e' : Env) : Prop :=
  (∀ p, e_isdir e' p = e_isdir e p)
  ∧ (∀ p, e_stat e' p = e_stat e p)
  ∧ (∀ root pattern, pattern ∈ [EXPORT_XML; SHUCHU_XML; "*.xml"] →
       e_glob e' root pattern = e_glob e root pattern)
  ∧ e_depth e' = e_depth e
  ∧ (∀ p, e_getsize e' p = e_getsize e p)
  ∧ (∀ p, e_xml e' p = e_xml e p)
  ∧ (∀ p, e_write e' p = e_write e p)
  ∧ (∀ src dst, e_replace e' src dst = e_replace e src dst)
  ∧ (∀ p, e_remove_fails e' p = e_remove_fails e p).

(** Two machines with the same JSON files. *)
Definition same_json_side (e e' : Env) : Prop :=
  (∀ root, e_glob e' root "*.json" = e_glob e root "*.json")
  ∧ (∀ p, e_json e' p = e_json e p).

(** The export files [parse_directory] finds, the source it stamps and
    the cache file it uses. *)
Definition export_files_of (e : Env) (directory_path : string) : list string :=
  filter (fun xml_file => basename xml_file ∈ [EXPORT_XML; SHUCHU_XML])
         (e_glob e directory_path "*.xml").

Definition cache_source_of (e : Env) (directory_path : string) : string :=
  default directory_path (head (export_files_of e directory_path)).

Definition cache_path_of (e : Env) (directory_path : string) : string :=
  health_parser._cache_path_for_source e (cache_source_of e directory_path).

(** The heart-rate samples whose value is a number, as
    [get_stress_indicators] keeps them. *)
Definition numeric_heart_rate (pd : Pandas) (self : World) : list health_parser.sample :=
  filter (fun r => isna (health_parser.value r) = false)
         (health_parser.get_heart_rate_data pd self).

(** The heart-rate values of one calendar date. *)
Definition values_on (pd : Pandas) (self : World) (d : Z) : list R :=
  dropna (map health_parser.value
            (filter (fun r => to_date (health_parser.startDate r) = d)
                    (numeric_heart_rate pd self))).

(** The raw index of a day, an undefined statistic counting as zero. *)
Definition raw_stress_index (values : list R) : R :=
  ((fillna0 (std values) * 0.6 + fillna0 (value_range values) * 0.4) / 10)%R.

(** The library at another time of day. *)
Definition with_now (t : Z) (pd : Pandas) : Pandas :=
  {| to_datetime_format := to_datetime_format pd;
     to_datetime_utc := to_datetime_utc pd;
     to_datetime := to_datetime pd;
     to_datetime_container := to_datetime_container pd;
     float_of_string := float_of_string pd;
     str_accessor := str_accessor pd;
     now := t |}.

(** [_safe_date_conversion] parses the value, that is, it does not fall
    back on the current time. *)
Definition parsable (pd : Pandas) (date_str : pyval) : bool :=
  match date_str with
  | VStr s =>
      if contains_char "Z" s || contains_char "+" s || contains_char "T" s then
        let s := if contains_char "Z" s then replace_Z s else s in
        bool_decide (is_Some (health_parser.try_formats pd s health_parser.date_formats))
        || bool_decide (is_Some (to_datetime_utc pd s))
      else bool_decide (is_Some (to_datetime pd s))
  | VCompound b => bool_decide (is_Some (to_datetime_container pd b))
  | VNone | VNum _ | VNaN => false
  end.

(** The date field [_extract_date] picks exists and parses. *)
Definition well_dated (pd : Pandas) (r : record) : bool :=
  match health_parser.first_present r health_parser.date_fields with
  | Some v => parsable pd v
  | None => false
  end.

(** The end date the sleep frame reads, if there is one, parses. *)
Definition well_ended (pd : Pandas) (r : record) : bool :=
  match health_parser.present r "endDate" with
  | Some v => parsable pd v
  | None =>
      match health_parser.present r "End" with
      | Some v => parsable pd v
      | None => true
      end
  end.

(** Every step, heart-rate and sleep record of the store has dates that
    parse. *)
Definition all_dated (pd : Pandas) (self : World) : bool :=
  forallb (fun r => well_dated pd r && well_ended pd r)
          (health_parser.collect self health_parser.step_types
           ++ health_parser.collect self health_parser.hr_types
           ++ health_parser.collect self health_parser.sleep_types).

(** A call that neither raises nor prints. *)
Definition silent {A} (m : M A) (w : World) : Prop :=
  (∀ ex, (m w).1 ≠ Raise ex) ∧ events (m w).2 = events w.

(** ** What the readers store *)

(** A record whose type is true and cannot be hashed: indexing it raises
    [TypeError]. *)
Definition unhashable (r : record) : bool :=
  let record_type := default VNone (r !! "type") in
  truthy record_type && bool_decide (hash_key record_type = None).

(** The index once a record was offered to it. *)
Definition indexed (ix : index) (r : record) : index :=
  match type_key r with
  | Some key => health_parser.bucket_append key r ix
  | None => ix
  end.

(** The bucket of a type, empty when the type is unknown. *)
Definition bucket (ix : index) (k : hkey) : list record := default [] (ix !! k).

(** [w'] is [w] with the records [rs] appended and indexed in this order;
    the disk and the entries of the memory cache are those of [w]. *)
Definition stored (rs : list record) (w w' : World) : Prop :=
  records w' = records w ++ rs
  ∧ record_types w' = foldl indexed (record_types w) rs
  ∧ disk w' = disk w
  ∧ MEMORY_CACHE w' = MEMORY_CACHE w
  ∧ MEMORY_CACHE_ORDER w' = MEMORY_CACHE_ORDER w.

(** The records of an XML document: the attributes of its [Record]
    elements, in document order. *)
Definition xml_records (evs : list xml_event) : list record :=
  (fun ev => health_parser.attrib_record (ev_attrib ev))
    <$> filter (fun ev => ev_tag ev = "Record") evs.

(** The rows of one file that reach the store: those with a ["type"] key,
    up to and including the first whose type cannot be hashed. *)
Fixpoint kept_rows (rows : list record) : list record :=
  match rows with
  | [] => []
  | r :: rest =>
      if bool_decide (is_Some (r !! "type")) then
        if unhashable r then [r] else r :: kept_rows rest
      else kept_rows rest
  end.

(** The dicts among the items of a JSON list. *)
Definition json_rows (items : list json_item) : list record :=
  omap (fun item => match item with JObject r => Some r | JOther => None end) items.

(** What a JSON file contributes: nothing unless it can be read and holds
    a list. *)
Definition json_file_records (e : Env) (json_file : string) : list record :=
  match e_json e json_file with
  | Ret (JList items) => kept_rows (json_rows items)
  | Ret JNotList | Raise _ => []
  end.

(** The encoding a CSV file is read with: latin-1 when reading a line as
    UTF-8 fails to decode. *)
Definition csv_encoding (e : Env) (csv_file : string) : outcome encoding :=
  match e_readline_utf8 e csv_file with
  | Ret _ => Ret Utf8
  | Raise ex => if decide (exn_cls ex = UnicodeDecodeError) then Ret Latin1 else Raise ex
  end.

(** What a CSV file contributes: nothing unless it can be read and has
    one of the four columns. *)
Definition csv_file_records (e : Env) (csv_file : string) : list record :=
  match csv_encoding e csv_file with
  | Ret encoding =>
      match e_read_csv e csv_file encoding with
      | Ret df =>
          if existsb (fun col => bool_decide (col ∈ df_columns df))
                     health_parser.health_data_columns
          then kept_rows (df_rows df) else []
      | Raise _ => []
      end
  | Raise _ => []
  end.

(** How reading an XML file fails: the elements delivered before, and the
    exception. *)
Definition xml_failure (e : Env) (xml_path : string) : option (list xml_event * exn) :=
  match e_xml e xml_path with
  | Ret stream => (fun ex => (xs_events stream, ex)) <$> xs_error stream
  | Raise ex => Some ([], ex)
  end.

(** The parser's store is the one the memory cache holds for this cache
    file under this stamp, and the cache file exists. *)
Definition cached (cache_path : string) (st : Stamp) (w : World) : Prop :=
  is_Some (disk w !! cache_path)
  ∧ ∃ m, MEMORY_CACHE w !! cache_path = Some m
         ∧ payload_matches st m
         ∧ records w = payload_records m
         ∧ record_types w = payload_record_types m.

(** * Concrete environments used in the examples *)

Module fixtures.

Definition no_such_file {A} : outcome A := Raise (Exn OSError "No such file or directory").

(** A machine on which every path is missing and every write succeeds. *)
Definition empty_env : Env :=
  {| e_isdir := fun _ => false;
     e_stat := fun _ => None;
     e_glob := fun _ _ => [];
     e_depth := 1000;
     e_getsize := fun _ => None;
     e_xml := fun _ => no_such_file;
     e_json := fun _ => no_such_file;
     e_readline_utf8 := fun _ => no_such_file;
     e_read_csv := fun _ _ => no_such_file;
     e_write := fun _ => WriteOk;
     e_replace := fun _ _ => None;
     e_remove_fails := fun _ => false |}.

(** [base] with another directory tree. *)
Definition with_tree (isdir : string → bool) (stat : string → option StatInfo)
    (glob : string → string → list string) (base : Env) : Env :=
  {| e_isdir := isdir; e_stat := stat; e_glob := glob;
     e_depth := e_depth base; e_getsize := e_getsize base;
     e_xml := e_xml base; e_json := e_json base;
     e_readline_utf8 := e_readline_utf8 base; e_read_csv := e_read_csv base;
     e_write := e_write base; e_replace := e_replace base;
     e_remove_fails := e_remove_fails base |}.

(** [base] with other file contents. *)
Definition with_files (getsize : string → option N) (xml : string → outcome xml_stream)
    (json : string → outcome json_doc) (base : Env) : Env :=
  {| e_isdir := e_isdir base; e_stat := e_stat base; e_glob := e_glob base;
     e_depth := e_depth base; e_getsize := getsize;
     e_xml := xml; e_json := json;
     e_readline_utf8 := e_readline_utf8 base; e_read_csv := e_read_csv base;
     e_write := e_write base; e_replace := e_replace base;
     e_remove_fails := e_remove_fails base |}.

(** [base] on which writing fails as given. *)
Definition with_write (write : string → write_result) (base : Env) : Env :=
  {| e_isdir := e_isdir base; e_stat := e_stat base; e_glob := e_glob base;
     e_depth := e_depth base; e_getsize := e_getsize base;
     e_xml := e_xml base; e_json := e_json base;
     e_readline_utf8 := e_readline_utf8 base; e_read_csv := e_read_csv base;
     e_write := write; e_replace := e_replace base;
     e_remove_fails := e_remove_fails base |}.

(** A fresh parser in a fresh process, nothing on disk. *)
Definition fresh : World :=
  {| records := []; record_types := ∅;
     MEMORY_CACHE := ∅; MEMORY_CACHE_ORDER := [];
     disk := ∅; events := [] |}.

(** The directory [/data/u1] holds the export under its Chinese name
    and nothing else. *)
Definition shuchu_dir : Env :=
  with_tree
    (fun p => bool_decide (p = "/data/u1"))
    (fun p => if bool_decide (p = "/data/u1") then Some {| st_mtime := 100; st_size := 4096 |}
              else if bool_decide (p = "/data/u1/輸出.xml")
                   then Some {| st_mtime := 50; st_size := 1000 |}
              else None)
    (fun root pattern =>
       if bool_decide (root = "/data/u1") && bool_decide (pattern = SHUCHU_XML)
       then ["/data/u1/輸出.xml"] else [])
    empty_env.

End fixtures.

Module fixtures_cache.
Import fixtures.

(** An uploaded export [/data/u1/export.xml] of 1000 bytes. *)
Definition export_file : Env :=
  with_tree
    (fun _ => false)
    (fun p => if bool_decide (p = "/data/u1/export.xml")
              then Some {| st_mtime := 50; st_size := 1000 |} else None)
    (fun _ _ => [])
    empty_env.

Definition export_stamp : Stamp :=
  {| stamp_type := SFile; stamp_path := "/data/u1/export.xml";
     stamp_mtime := 50; stamp_size := Some 1000 |}.

Definition steps_record : record :=
  {[ "type" := VStr "StepCount"; "startDate" := VStr "2024-01-01"; "value" := VStr "100" ]}.

(** A parser that holds one record. *)
Definition one_record : World :=
  {| records := [steps_record];
     record_types := {[ KStr "StepCount" := [steps_record] ]};
     MEMORY_CACHE := ∅; MEMORY_CACHE_ORDER := [];
     disk := ∅; events := [] |}.

Definition cache_file : string := "/data/u1/health_cache.pkl".

(** The same machine with a full disk: [pickle.dump] raises. *)
Definition full_disk : Env :=
  with_write (fun _ => DumpFails (Exn OSError "No space left on device")) export_file.

(** The world after the parser above saved its cache. *)
Definition after_save : World :=
  (health_parser._save_cache export_file cache_file "/data/u1/export.xml" one_record).2.

(** A new parser in a new process that finds the cache file. *)
Definition new_process : World :=
  {| records := []; record_types := ∅;
     MEMORY_CACHE := ∅; MEMORY_CACHE_ORDER := [];
     disk := disk after_save; events := [] |}.

(** A cache file whose payload matches but holds no record. *)
Definition empty_payload : cache_dict :=
  {| cd_cache_version := Some CACHE_VERSION;
     cd_source_stamp := Some export_stamp;
     cd_records := Some [];
     cd_record_types := Some ∅;
     cd_dashboard := None |}.

Definition empty_cache_on_disk : World :=
  {| records := []; record_types := ∅;
     MEMORY_CACHE := ∅; MEMORY_CACHE_ORDER := [];
     disk := {[ cache_file := Pickled empty_payload ]}; events := [] |}.

End fixtures_cache.

Module fixtures_dir.
Import fixtures.

Definition steps_attrib : gmap string string :=
  {[ "type" := "StepCount"; "startDate" := "2024-01-01"; "value" := "100" ]}.

Definition export_stream : xml_stream :=
  {| xs_events :=
       [ {| ev_tag := "ExportDate"; ev_attrib := {[ "value" := "2024-01-03" ]};
            ev_read := 200%N |};
         {| ev_tag := "Record"; ev_attrib := steps_attrib; ev_read := 300%N |};
         {| ev_tag := "Record"; ev_attrib := {[ "value" := "7" ]}; ev_read := 100%N |};
         {| ev_tag := "HealthData"; ev_attrib := ∅; ev_read := 50%N |} ];
     xs_error := None |}.

Definition heart_record : record :=
  {[ "type" := VStr "HeartRate"; "startDate" := VStr "2024-01-01"; "value" := VNum (Q2Qc (72 # 1)) ]}.

(** A JSON object whose ["type"] is a list. *)
Definition odd_record : record := {[ "type" := VCompound true ]}.

Definition json_list : json_doc :=
  JList [JObject heart_record; JOther; JObject odd_record; JObject heart_record].

Definition sleep_row_csv : record :=
  {[ "type" := VStr "SleepAnalysis"; "startDate" := VStr "2024-01-01";
     "value" := VStr "inBed" ]}.

Definition csv_frame : dataframe :=
  {| df_columns := ["type"; "startDate"; "value"]; df_rows := [sleep_row_csv] |}.

(** The directory [/data/u2] with an export, a JSON file and a CSV
    file. *)
Definition mixed_dir : Env :=
  with_files
    (fun p => if bool_decide (p = "/data/u2/export.xml") then Some 650%N else None)
    (fun p => if bool_decide (p = "/data/u2/export.xml") then Ret export_stream
              else no_such_file)
    (fun p => if bool_decide (p = "/data/u2/data.json") then Ret json_list
              else no_such_file)
    (with_tree
       (fun p => bool_decide (p = "/data/u2"))
       (fun p => if bool_decide (p = "/data/u2")
                 then Some {| st_mtime := 100; st_size := 4096 |}
                 else if bool_decide (p = "/data/u2/export.xml")
                      then Some {| st_mtime := 50; st_size := 650 |}
                 else None)
       (fun root pattern =>
          if bool_decide (root = "/data/u2") then
            if bool_decide (pattern = "*.xml") || bool_decide (pattern = EXPORT_XML)
            then ["/data/u2/export.xml"]
            else if bool_decide (pattern = "*.json") then ["/data/u2/data.json"]
            else if bool_decide (pattern = "*.csv") then ["/data/u2/data.csv"]
            else []
          else [])
       {| e_isdir := e_isdir empty_env; e_stat := e_stat empty_env;
          e_glob := e_glob empty_env; e_depth := e_depth empty_env;
          e_getsize := e_getsize empty_env; e_xml := e_xml empty_env;
          e_json := e_json empty_env;
          e_readline_utf8 := fun _ => Ret tt;
          e_read_csv := fun p _ => if bool_decide (p = "/data/u2/data.csv")
                                   then Ret csv_frame else no_such_file;
          e_write := e_write empty_env; e_replace := e_replace empty_env;
          e_remove_fails := e_remove_fails empty_env |}).

End fixtures_dir.

Module fixtures_metrics.
Import fixtures.

(** Day numbers: 2024-01-01 is day 19723 after 1970-01-01. *)
Definition jan1 : Z := 19723 * 86400.
Definition jan2 : Z := 19724 * 86400.

(** A library that knows a handful of date strings and numbers. *)
Definition toy_pandas (now : Z) : Pandas :=
  {| to_datetime_format := fun _ _ => None;
     to_datetime_utc := fun _ => None;
     to_datetime := fun s =>
       if bool_decide (s = "2024-01-01") then Some jan1
       else if bool_decide (s = "2024-01-01 08:00:00") then Some (jan1 + 8 * 3600)
       else if bool_decide (s = "2024-01-01 23:00:00") then Some (jan1 + 23 * 3600)
       else if bool_decide (s = "2024-01-02") then Some jan2
       else if bool_decide (s = "2024-01-02 07:00:00") then Some (jan2 + 7 * 3600)
       else None;
     to_datetime_container := fun _ => None;
     float_of_string := fun s =>
       if bool_decide (s = "50") then Some (FVal 50)
       else if bool_decide (s = "60") then Some (FVal 60)
       else if bool_decide (s = "80") then Some (FVal 80)
       else if bool_decide (s = "100") then Some (FVal 100)
       else if bool_decide (s = "200") then Some (FVal 200)
       else if bool_decide (s = "nan") then Some FNaN
       else None;
     str_accessor := fun _ => true;
     now := now |}.

Definition store_of (ix : index) : World :=
  {| records := []; record_types := ix;
     MEMORY_CACHE := ∅; MEMORY_CACHE_ORDER := [];
     disk := ∅; events := [] |}.

(** A night recorded with the state names of the device, which are not
    in the vocabulary of the filter. *)
Definition night : record :=
  {[ "type" := VStr "HKCategoryTypeIdentifierSleepAnalysis";
     "startDate" := VStr "2024-01-01 23:00:00";
     "endDate" := VStr "2024-01-02 07:00:00";
     "value" := VStr "HKCategoryValueSleepAnalysisAsleepCore" ]}.

Definition sleep_store : World :=
  store_of {[ KStr "HKCategoryTypeIdentifierSleepAnalysis" := [night] ]}.

(** A step record without any date field. *)
Definition undated_steps : record :=
  {[ "type" := VStr "StepCount"; "value" := VStr "100" ]}.

Definition undated_store : World :=
  store_of {[ KStr "StepCount" := [undated_steps] ]}.

Definition hr (date value : string) : record :=
  {[ "type" := VStr "HeartRate"; "startDate" := VStr date; "value" := VStr value ]}.

(** Three heart-rate samples on one day and a single one on the next. *)
Definition hr_store : World :=
  store_of {[ KStr "HeartRate" :=
                [hr "2024-01-01" "60"; hr "2024-01-01 08:00:00" "80";
                 hr "2024-01-01 23:00:00" "100"; hr "2024-01-02" "80"] ]}.

End fixtures_metrics.

Module fixtures_more.
Import fixtures fixtures_cache.

(** The export of [export_file] after it was touched: a later mtime. *)
Definition touched_file : Env :=
  with_tree
    (fun _ => false)
    (fun p => if bool_decide (p = "/data/u1/export.xml")
              then Some {| st_mtime := 51; st_size := 1000 |} else None)
    (fun _ _ => [])
    empty_env.

Definition touched_stamp : Stamp :=
  {| stamp_type := SFile; stamp_path := "/data/u1/export.xml";
     stamp_mtime := 51; stamp_size := Some 1000 |}.

(** A cache file that cannot be unpickled. *)
Definition corrupt_cache_on_disk : World :=
  {| records := [steps_record]; record_types := ∅;
     MEMORY_CACHE := ∅; MEMORY_CACHE_ORDER := [];
     disk := {[ cache_file := Garbage ]}; events := [] |}.

(** An interpreter that allows no further call. *)
Definition exhausted : Env :=
  {| e_isdir := e_isdir export_file; e_stat := e_stat export_file;
     e_glob := e_glob export_file; e_depth := 0;
     e_getsize := e_getsize export_file; e_xml := e_xml export_file;
     e_json := e_json export_file;
     e_readline_utf8 := e_readline_utf8 export_file;
     e_read_csv := e_read_csv export_file;
     e_write := e_write export_file; e_replace := e_replace export_file;
     e_remove_fails := e_remove_fails export_file |}.

(** A directory with an export under each of the two accepted names. *)
Definition two_names_dir : Env :=
  with_tree
    (fun p => bool_decide (p = "/data/u3"))
    (fun p => if bool_decide (p = "/data/u3")
              then Some {| st_mtime := 100; st_size := 4096 |}
              else if bool_decide (p = "/data/u3/export.xml")
                   then Some {| st_mtime := 60; st_size := 2000 |}
              else if bool_decide (p = "/data/u3/old/輸出.xml")
                   then Some {| st_mtime := 40; st_size := 900 |}
              else None)
    (fun root pattern =>
       if bool_decide (root = "/data/u3") then
         if bool_decide (pattern = EXPORT_XML) then ["/data/u3/export.xml"]
         else if bool_decide (pattern = SHUCHU_XML) then ["/data/u3/old/輸出.xml"]
         else []
       else [])
    empty_env.

(** An export cut off after its first record. *)
Definition truncated_stream : xml_stream :=
  {| xs_events :=
       [ {| ev_tag := "Record"; ev_attrib := fixtures_dir.steps_attrib; ev_read := 300%N |} ];
     xs_error := Some (Exn ParseError "no element found: line 3, column 0") |}.

Definition truncated_export : Env :=
  with_files
    (fun p => if bool_decide (p = "/data/u1/export.xml") then Some 300%N else None)
    (fun p => if bool_decide (p = "/data/u1/export.xml") then Ret truncated_stream
              else no_such_file)
    (fun _ => no_such_file)
    export_file.

(** The directory of [mixed_dir] once the export can no longer be
    read, its stamp unchanged. *)
Definition unreadable_export : Env :=
  with_files (fun _ => None) (fun _ => no_such_file) (fun _ => no_such_file)
    fixtures_dir.mixed_dir.

(** A folder with one JSON file and no export. *)
Definition json_dir : Env :=
  with_files
    (fun _ => None)
    (fun _ => no_such_file)
    (fun p => if bool_decide (p = "/data/u4/data.json") then Ret fixtures_dir.json_list
              else no_such_file)
    (with_tree
       (fun p => bool_decide (p = "/data/u4"))
       (fun p => if bool_decide (p = "/data/u4")
                 then Some {| st_mtime := 100; st_size := 4096 |} else None)
       (fun root pattern =>
          if bool_decide (root = "/data/u4") && bool_decide (pattern = "*.json")
          then ["/data/u4/data.json"] else [])
       empty_env).

(** The same folder after the JSON file was removed, the folder's
    mtime left as it was. *)
Definition json_dir_emptied : Env :=
  with_tree
    (fun p => bool_decide (p = "/data/u4"))
    (fun p => if bool_decide (p = "/data/u4")
              then Some {| st_mtime := 100; st_size := 4096 |} else None)
    (fun _ _ => [])
    empty_env.

(** The dashboard cache of [export_file], as a save leaves it. *)
Definition dashboard_file : string := "/data/u1/dashboard_cache.pkl".

Definition dashboard_on_disk : World :=
  {| records := []; record_types := ∅;
     MEMORY_CACHE := ∅; MEMORY_CACHE_ORDER := [];
     disk := {[ dashboard_file :=
                  Pickled (dashboard_payload export_stamp "stats" "chart" [KStr "Steps"]) ]};
     events := [] |}.

End fixtures_more.

Module fixtures_more_metrics.
Import fixtures fixtures_metrics.

(** A sleep sample without end date, as a CSV row may have it. *)
Definition open_night : record :=
  {[ "type" := VStr "SleepAnalysis"; "startDate" := VStr "2024-01-01 23:00:00";
     "value" := VStr "inBed" ]}.

Definition open_sleep_store : World :=
  store_of {[ KStr "SleepAnalysis" := [open_night] ]}.

(** A step sample of a JSON file whose value is the number 0. *)
Definition zero_steps : record :=
  {[ "type" := VStr "StepCount"; "startDate" := VStr "2024-01-01";
     "value" := VNum (Q2Qc (0 # 1)) ]}.

End fixtures_more_metrics.

(** * Properties *)

Local Open Scope Z_scope.

(** ** Paths and strings: examples *)

Example dirname_ex : dirname "/data/u1/export.xml" = "/data/u1".
Proof. reflexivity. Qed.
Example dirname_root_ex : dirname "/export.xml" = "/".
Proof. reflexivity. Qed.
Example basename_ex : basename "/data/u1/輸出.xml" = SHUCHU_XML.
Proof. reflexivity. Qed.
Example dirname_trailing_ex : dirname "/data/u1/" = "/data/u1".
Proof. reflexivity. Qed.
Example dirname_relative_ex : dirname "export.xml" = "".
Proof. reflexivity. Qed.
Example dirname_slashes_ex : dirname "//export.xml" = "//".
Proof. reflexivity. Qed.
Example basename_dir_ex : basename "/data/u1/" = "".
Proof. reflexivity. Qed.
Example path_join_ex : path_join "/data/u1" CACHE_FILENAME = "/data/u1/health_cache.pkl".
Proof. reflexivity. Qed.
Example path_join_slash_ex : path_join "/data/u1/" CACHE_FILENAME = "/data/u1/health_cache.pkl".
Proof. reflexivity. Qed.
Example path_join_empty_ex : path_join "" CACHE_FILENAME = CACHE_FILENAME.
Proof. reflexivity. Qed.
Example cache_path_ex :
  health_parser._cache_path_for_source fixtures.shuchu_dir "/data/u1"
  = "/data/u1/health_cache.pkl"
  ∧ health_parser._cache_path_for_source fixtures.shuchu_dir "/data/u1/輸出.xml"
    = "/data/u1/health_cache.pkl"
  ∧ dashboard_cache._cache_path_for_source fixtures.shuchu_dir "/data/u1"
    = "/data/u1/dashboard_cache.pkl".
Proof. repeat split. Qed.
Example replace_Z_ex : replace_Z "2024-01-01T08:00:00Z" = "2024-01-01T08:00:00+00:00".
Proof. reflexivity. Qed.
Example lower_ex : lower "inBed" = "inbed".
Proof. reflexivity. Qed.

(** ** Source stamps *)

Section stamps.
Context (e : Env).

(** A source that is no directory is stamped alike by both modules. *)
Lemma stamp_file_agree depth p :
  e_isdir e p = false →
  dashboard_cache._get_source_stamp_at depth e p
  = health_parser._get_source_stamp_at depth e p.
Proof. intros Hf. destruct depth as [|d]; simpl; [done|]. by rewrite Hf. Qed.

(** The two computations agree as long as no directory is reached in
    which the only export carries the Chinese name. *)
Lemma stamp_agree_without_shuchu depth p :
  (∀ d, e_isdir e d = true → e_glob e d EXPORT_XML = [] → e_glob e d SHUCHU_XML = []) →
  dashboard_cache._get_source_stamp_at depth e p
  = health_parser._get_source_stamp_at depth e p.
Proof.
  intros Hno. revert p. induction depth as [|d IH]; intros p; simpl; [done|].
  destruct (e_isdir e p) eqn:Hd; [|done].
  destruct (e_glob e p EXPORT_XML) as [|first rest] eqn:Hg.
  - by rewrite (Hno p Hd Hg).
  - simpl. apply IH.
Qed.

End stamps.

(** C3.  The dashboard cache looks for [export.xml] only, the parser for
    both accepted names: a directory whose export is [輸出.xml] is stamped
    by that file in the parser and by the directory itself in the
    dashboard cache, so the two stamps differ. *)
Theorem stamps_differ_on_shuchu_directory :
  health_parser._get_source_stamp fixtures.shuchu_dir "/data/u1"
  = Ret (Some {| stamp_type := SFile; stamp_path := "/data/u1/輸出.xml";
                 stamp_mtime := 50; stamp_size := Some 1000 |})
  ∧ dashboard_cache._get_source_stamp fixtures.shuchu_dir "/data/u1"
    = Ret (Some {| stamp_type := SDir; stamp_path := "/data/u1";
                   stamp_mtime := 100; stamp_size := None |})
  ∧ health_parser._get_source_stamp fixtures.shuchu_dir "/data/u1"
    ≠ dashboard_cache._get_source_stamp fixtures.shuchu_dir "/data/u1".
Proof.
  split; [reflexivity|]. split; [reflexivity|].
  intros H. vm_compute in H. discriminate H.
Qed.

(** ** The memory cache *)

Lemma evict_lookup cache_path order (cache : gmap string cache_dict) :
  (evict cache_path order cache).2 !! cache_path = cache !! cache_path.
Proof.
  revert cache. induction order as [|old rest IH]; intros cache; simpl; [done|].
  destruct (decide _); [|done].
  rewrite IH. destruct (decide (old ≠ cache_path)); [|done].
  by rewrite lookup_delete_ne.
Qed.

(** [_store_memory_cache] leaves the payload under its path and touches
    nothing but the two module globals. *)
Lemma store_memory_cache_spec cache_path payload w :
  ∃ w', _store_memory_cache cache_path payload w = (Ret tt, w')
        ∧ MEMORY_CACHE w' !! cache_path = Some payload
        ∧ records w' = records w ∧ record_types w' = record_types w
        ∧ disk w' = disk w ∧ events w' = events w.
Proof.
  unfold _store_memory_cache, modify.
  match goal with
  | |- context [evict ?c ?o ?m] =>
      pose proof (evict_lookup c o m) as Hl; destruct (evict c o m) as [o' m'] eqn:He
  end.
  eexists. split; [reflexivity|]. simpl in *.
  rewrite Hl, lookup_insert_eq. done.
Qed.

(** ** The on-disk cache *)

Arguments _store_memory_cache : simpl never.

Ltac mstep :=
  unfold mbind, M_bind, mret, M_ret, try_except_cls, try_except, lift, get, modify, raise,
    print, print_exc in *;
  cbn in *.

Lemma string_app_length (s t : string) :
  String.length (s +:+ t) = (String.length s + String.length t)%nat.
Proof. induction s as [|a s IH]; simpl; [done|]. by rewrite IH. Qed.

Lemma tmp_of_ne cache_path : tmp_of cache_path ≠ cache_path.
Proof.
  unfold tmp_of. intros H. apply (f_equal String.length) in H.
  rewrite string_app_length in H. simpl in H. lia.
Qed.

(** A save whose stamp is available and whose writes succeed puts the
    payload in place, in the memory cache too, and leaves no temporary
    file. *)
Lemma save_cache_success e cache_path source_path w st :
  health_parser._get_source_stamp e source_path = Ret (Some st) →
  io_succeeds e cache_path →
  ∃ w', health_parser._save_cache e cache_path source_path w = (Ret tt, w')
        ∧ disk w' = <[cache_path := Pickled (health_payload st w)]>
                      (delete (tmp_of cache_path) (disk w))
        ∧ MEMORY_CACHE w' !! cache_path = Some (health_payload st w)
        ∧ records w' = records w ∧ record_types w' = record_types w
        ∧ events w' = events w ++ [Printed ("Saved cache to " +:+ cache_path)].
Proof.
  intros Hst [Hw Hr]. unfold health_parser._save_cache. mstep. rewrite Hst. cbn.
  unfold write_pickle, os_replace. fold (tmp_of cache_path). rewrite Hw, Hr. mstep.
  rewrite lookup_insert_eq.
  match goal with
  | |- context [_store_memory_cache ?c ?p ?w0] =>
      destruct (store_memory_cache_spec c p w0) as (w1 & -> & Hm & Hrec & Hty & Hd & Hev)
  end.
  simpl in *. eexists. split; [reflexivity|]. simpl.
  rewrite Hd, Hm, Hrec, Hty, Hev. rewrite delete_insert_eq. done.
Qed.

Lemma payload_matches_truthy st d : payload_matches st d → dict_truthy d = true.
Proof. intros [Hv _]. unfold dict_truthy. rewrite Hv. done. Qed.

(** The memory tier: a matching payload in [MEMORY_CACHE] is served
    without reading the disk. *)
Lemma load_cache_memory_hit e cache_path source_path w st m :
  is_Some (disk w !! cache_path) →
  health_parser._get_source_stamp e source_path = Ret (Some st) →
  MEMORY_CACHE w !! cache_path = Some m →
  payload_matches st m →
  ∃ w', health_parser._load_cache e cache_path source_path w
        = (Ret (bool_decide (0 < length (payload_records m))%nat), w')
        ∧ records w' = payload_records m
        ∧ record_types w' = payload_record_types m.
Proof.
  intros Hex Hst Hm Hmatch. pose proof (payload_matches_truthy _ _ Hmatch) as Ht.
  destruct Hmatch as [Hv Hs].
  unfold health_parser._load_cache. mstep.
  rewrite (bool_decide_eq_true_2 _ Hex). cbn. rewrite Hst. cbn. rewrite Hm, Ht.
  rewrite (bool_decide_eq_true_2 _ Hv), (bool_decide_eq_true_2 _ Hs). cbn.
  eexists. split; [reflexivity|]. done.
Qed.

(** The disk tier: without a matching memory entry the file is read, and
    a matching payload is served and promoted to the memory cache. *)
Lemma load_cache_disk_hit e cache_path source_path w st d :
  health_parser._get_source_stamp e source_path = Ret (Some st) →
  (∀ m, MEMORY_CACHE w !! cache_path = Some m → ¬ payload_matches st m) →
  disk w !! cache_path = Some (Pickled d) →
  payload_matches st d →
  ∃ w', health_parser._load_cache e cache_path source_path w
        = (Ret (bool_decide (0 < length (payload_records d))%nat), w')
        ∧ records w' = payload_records d
        ∧ record_types w' = payload_record_types d
        ∧ MEMORY_CACHE w' !! cache_path = Some d.
Proof.
  intros Hst Hmem Hd [Hv Hs].
  assert (Hdisk : ∀ w0, disk w0 = disk w → ∃ w',
    (payload ← try_except (d ← read_pickle cache_path; mret (Some d)) (fun _ => mret None);
     match payload with
     | None => mret false
     | Some None => mret false
     | Some (Some payload) =>
         if negb (bool_decide (cd_cache_version payload = Some CACHE_VERSION)) then mret false
         else if negb (bool_decide (cd_source_stamp payload = Some st)) then mret false
         else
           modify (set_store (default [] (cd_records payload))
                             (default ∅ (cd_record_types payload))) ;;
           _store_memory_cache cache_path payload ;;
           print ("Loaded cached health data from " +:+ cache_path) ;;
           w ← get;
           mret (bool_decide (0 < length (records w))%nat)
     end) w0
    = (Ret (bool_decide (0 < length (payload_records d))%nat), w')
    ∧ records w' = payload_records d ∧ record_types w' = payload_record_types d
    ∧ MEMORY_CACHE w' !! cache_path = Some d).
  { intros w0 Hw0. unfold read_pickle. mstep. rewrite Hw0, Hd. cbn.
    rewrite (bool_decide_eq_true_2 _ Hv), (bool_decide_eq_true_2 _ Hs). cbn.
    match goal with
    | |- context [_store_memory_cache ?c ?p ?w1] =>
        destruct (store_memory_cache_spec c p w1) as (w2 & -> & Hm & Hrec & Hty & _ & _)
    end.
    cbn in *. eexists. split; [by rewrite Hrec|]. cbn. done. }
  unfold health_parser._load_cache.
  change (?m ≫= ?k) with (M_bind _ _ k m) at 1. unfold M_bind at 1, get at 1.
  rewrite Hd. rewrite bool_decide_eq_true_2 by eauto. cbn [negb].
  change (?m ≫= ?k) with (M_bind _ _ k m) at 1. unfold M_bind at 1, lift at 1.
  rewrite Hst.
  destruct (MEMORY_CACHE w !! cache_path) as [m|] eqn:Hm.
  - destruct (dict_truthy m && bool_decide (cd_cache_version m = Some CACHE_VERSION)
              && bool_decide (cd_source_stamp m = Some st)) eqn:Hc.
    + exfalso. apply (Hmem m eq_refl).
      apply andb_prop in Hc as [Hc H2]. apply andb_prop in Hc as [_ H1].
      apply bool_decide_eq_true_1 in H1, H2. by split.
    + by apply Hdisk.
  - by apply Hdisk.
Qed.

(** C1.  Cache round trip: after a save for a source whose stamp is
    available and whose writes succeed, a load for the same source, as
    long as the source still has that stamp and the cache file is the one
    written (in the same process, or in another one whose memory cache has
    no entry), leaves in the parser exactly the saved [records] and
    [record_types]; the load reports a hit when there is a record. *)
Theorem cache_round_trip e1 e2 cache_path source_path st w w1 w2 :
  health_parser._get_source_stamp e1 source_path = Ret (Some st) →
  io_succeeds e1 cache_path →
  health_parser._save_cache e1 cache_path source_path w = (Ret tt, w1) →
  health_parser._get_source_stamp e2 source_path = Ret (Some st) →
  disk w2 !! cache_path = disk w1 !! cache_path →
  (MEMORY_CACHE w2 !! cache_path = MEMORY_CACHE w1 !! cache_path
   ∨ MEMORY_CACHE w2 !! cache_path = None) →
  ∃ w3, health_parser._load_cache e2 cache_path source_path w2
        = (Ret (bool_decide (0 < length (records w))%nat), w3)
        ∧ records w3 = records w
        ∧ record_types w3 = record_types w.
Proof.
  intros Hst1 Hio Hsave Hst2 Hdisk Hmem.
  destruct (save_cache_success e1 cache_path source_path w st Hst1 Hio)
    as (w1' & Hsave' & Hd1 & Hm1 & _).
  rewrite Hsave in Hsave'. injection Hsave' as <-.
  assert (Hfile : disk w2 !! cache_path = Some (Pickled (health_payload st w))).
  { by rewrite Hdisk, Hd1, lookup_insert_eq. }
  assert (Hmatch : payload_matches st (health_payload st w)) by done.
  destruct Hmem as [Hmem|Hmem].
  - rewrite Hm1 in Hmem.
    destruct (load_cache_memory_hit e2 cache_path source_path w2 st _
                (mk_is_Some _ _ Hfile) Hst2 Hmem Hmatch) as (w3 & Hl & Hr & Ht).
    exists w3. done.
  - destruct (load_cache_disk_hit e2 cache_path source_path w2 st (health_payload st w) Hst2)
      as (w3 & Hl & Hr & Ht & _); [by rewrite Hmem|done|done|].
    exists w3. done.
Qed.

Lemma cache_round_trip_witness :
  ∃ w3, health_parser._load_cache fixtures_cache.export_file fixtures_cache.cache_file
          "/data/u1/export.xml" fixtures_cache.new_process = (Ret true, w3)
        ∧ records w3 = [fixtures_cache.steps_record]
        ∧ record_types w3 = {[ KStr "StepCount" := [fixtures_cache.steps_record] ]}.
Proof.
  apply (cache_round_trip fixtures_cache.export_file fixtures_cache.export_file
           fixtures_cache.cache_file "/data/u1/export.xml" fixtures_cache.export_stamp
           fixtures_cache.one_record fixtures_cache.after_save fixtures_cache.new_process).
  - reflexivity.
  - split; reflexivity.
  - reflexivity.
  - reflexivity.
  - reflexivity.
  - right. reflexivity.
Defined.

(** Whatever the tiers hold, [_load_cache] answers [True] only with a
    non-empty [self.records]. *)
Lemma load_cache_true_nonempty e cache_path source_path w w' :
  health_parser._load_cache e cache_path source_path w = (Ret true, w') →
  records w' ≠ [].
Proof.
  unfold health_parser._load_cache, read_pickle. mstep. intros H.
  repeat (case_match; cbn in *; simplify_eq);
    repeat match goal with
    | Hs : _store_memory_cache ?c ?p ?w1 = _ |- _ =>
        destruct (store_memory_cache_spec c p w1) as (w2 & E & _ & Hrec & _);
        rewrite E in Hs; simplify_eq; cbn in *
    end;
    cbn; intros Hnil;
    match goal with
    | Hb : bool_decide (0 < length ?l)%nat = true |- _ =>
        first [rewrite Hnil in Hb | rewrite Hrec, Hnil in Hb]; done
    end.
Qed.

(** C10.  A cache file whose payload has the current version and the
    source's current stamp but no record is a miss: [_load_cache] returns
    [False] (the memory tier, if it holds a matching payload for the path,
    holding no record either), and the parser is left without records. *)
Theorem load_cache_empty_payload_is_miss e cache_path source_path w st d :
  health_parser._get_source_stamp e source_path = Ret (Some st) →
  disk w !! cache_path = Some (Pickled d) →
  payload_matches st d →
  payload_records d = [] →
  (∀ m, MEMORY_CACHE w !! cache_path = Some m → payload_matches st m → payload_records m = []) →
  ∃ w', health_parser._load_cache e cache_path source_path w = (Ret false, w')
        ∧ records w' = [].
Proof.
  intros Hst Hd Hmatch Hempty Hmem.
  destruct (MEMORY_CACHE w !! cache_path) as [m|] eqn:Hm.
  - destruct (decide (payload_matches st m)) as [Hmm|Hmm].
    + destruct (load_cache_memory_hit e cache_path source_path w st m
                  (mk_is_Some _ _ Hd) Hst Hm Hmm) as (w' & Hl & Hr & _).
      rewrite (Hmem m eq_refl Hmm) in Hl, Hr. by exists w'.
    + destruct (load_cache_disk_hit e cache_path source_path w st d Hst)
        as (w' & Hl & Hr & _); [intros m0 Hm0; rewrite Hm in Hm0; by simplify_eq|done|done|].
      rewrite Hempty in Hl, Hr. by exists w'.
  - destruct (load_cache_disk_hit e cache_path source_path w st d Hst)
      as (w' & Hl & Hr & _); [by rewrite Hm|done|done|].
    rewrite Hempty in Hl, Hr. by exists w'.
Qed.

Lemma load_cache_empty_payload_is_miss_witness :
  ∃ w', health_parser._load_cache fixtures_cache.export_file fixtures_cache.cache_file
          "/data/u1/export.xml" fixtures_cache.empty_cache_on_disk = (Ret false, w')
        ∧ records w' = [].
Proof.
  apply (load_cache_empty_payload_is_miss fixtures_cache.export_file
           fixtures_cache.cache_file "/data/u1/export.xml" fixtures_cache.empty_cache_on_disk
           fixtures_cache.export_stamp fixtures_cache.empty_payload).
  - reflexivity.
  - reflexivity.
  - split; reflexivity.
  - reflexivity.
  - intros m Hm. vm_compute in Hm. discriminate Hm.
Defined.

(** ** Saving *)

Lemma remove_if_exists_spec e tmp_path w :
  ∃ w', remove_if_exists e tmp_path w = (Ret tt, w')
        ∧ records w' = records w ∧ record_types w' = record_types w
        ∧ MEMORY_CACHE w' = MEMORY_CACHE w ∧ events w' = events w
        ∧ (∀ p, p ≠ tmp_path → disk w' !! p = disk w !! p)
        ∧ (disk w' !! tmp_path = None ∨ e_remove_fails e tmp_path = true).
Proof.
  unfold remove_if_exists. mstep.
  destruct (bool_decide (is_Some (disk w !! tmp_path))) eqn:Hex.
  - destruct (e_remove_fails e tmp_path) eqn:Hrm; eexists; (split; [reflexivity|]); cbn.
    + repeat split; auto.
    + repeat split; auto.
      * intros p Hp. by rewrite lookup_delete_ne.
      * left. apply lookup_delete_eq.
  - eexists; (split; [reflexivity|]). repeat split; auto.
    left. apply bool_decide_eq_false_1 in Hex. by apply eq_None_not_Some.
Qed.

(** The three ways the writes of a save can go wrong. *)
Lemma io_fails_cases e cache_path :
  ¬ io_succeeds e cache_path →
  (∃ ex, e_write e (tmp_of cache_path) = OpenFails ex)
  ∨ (∃ ex, e_write e (tmp_of cache_path) = DumpFails ex)
  ∨ (e_write e (tmp_of cache_path) = WriteOk
     ∧ ∃ ex, e_replace e (tmp_of cache_path) cache_path = Some ex).
Proof.
  unfold io_succeeds. intros Hno.
  destruct (e_write e (tmp_of cache_path)) as [|ex|ex] eqn:Hw; [|eauto..].
  destruct (e_replace e (tmp_of cache_path) cache_path) as [ex|] eqn:Hr; [eauto|].
  destruct Hno. done.
Qed.

(** The writes of a save ([open], [pickle.dump], [os.replace]) when one of
    them raises: the exception, with the cache file untouched. *)
Lemma failing_writes e cache_path payload w :
  ¬ io_succeeds e cache_path →
  ∃ ex w1, (write_pickle e (tmp_of cache_path) payload ;;
            os_replace e (tmp_of cache_path) cache_path) w = (Raise ex, w1)
           ∧ disk w1 !! cache_path = disk w !! cache_path
           ∧ records w1 = records w ∧ record_types w1 = record_types w
           ∧ MEMORY_CACHE w1 = MEMORY_CACHE w ∧ events w1 = events w.
Proof.
  intros Hno. pose proof (tmp_of_ne cache_path) as Hne.
  unfold write_pickle, os_replace.
  destruct (io_fails_cases e cache_path Hno) as [[ex Hw]|[[ex Hw]|[Hw [ex Hr]]]];
    rewrite Hw; try rewrite Hr; mstep; eexists _, _; (split; [reflexivity|]); cbn;
    rewrite ?lookup_insert_ne by done; done.
Qed.

Lemma successful_writes e cache_path payload w :
  io_succeeds e cache_path →
  (write_pickle e (tmp_of cache_path) payload ;;
   os_replace e (tmp_of cache_path) cache_path) w
  = (Ret tt, set_disk (<[cache_path := Pickled payload]>
                         (delete (tmp_of cache_path) (disk w))) w).
Proof.
  intros [Hw Hr]. unfold write_pickle, os_replace. rewrite Hw, Hr. mstep.
  rewrite lookup_insert_eq. cbn. by rewrite delete_insert_eq.
Qed.

Lemma seq_assoc {A B C} (m : M A) (n : M B) (k : M C) w :
  (m ;; n ;; k) w = ((m ;; n) ;; k) w.
Proof. unfold mbind, M_bind. destruct (m w) as [[?|?] ?]; done. Qed.

Lemma seq_ret {A B} (m : M A) (k : M B) w a w1 :
  m w = (Ret a, w1) → (m ;; k) w = k w1.
Proof. unfold mbind, M_bind. by intros ->. Qed.

Lemma seq_raise {A B} (m : M A) (k : M B) w ex w1 :
  m w = (Raise ex, w1) → (m ;; k) w = (Raise ex, w1).
Proof. unfold mbind, M_bind. by intros ->. Qed.

(** C6, as the code has it.  Both savers first compute the stamp; without
    one nothing is written ([save_dashboard_cache] answers [False],
    [_save_cache] returns as it always does and prints nothing).  With a
    stamp, the payload goes through the temporary file into place when the
    writes succeed; when one of them raises, the cache file is left as it
    was, the temporary file is removed unless the removal fails too, and
    the failure is reported ([False], respectively a printed line)
    while no exception reaches the caller. *)
Theorem cache_save_contract e source_path cache_path stats dashboard_chart data_types w :
  match dashboard_cache._get_source_stamp e source_path with
  | Ret None =>
      dashboard_cache.save_dashboard_cache e source_path stats dashboard_chart data_types w
      = (Ret false, w)
  | Ret (Some st) =>
      let cache_path := dashboard_cache._cache_path_for_source e source_path in
      ∃ w', dashboard_cache.save_dashboard_cache e source_path stats dashboard_chart
              data_types w
            = (Ret (bool_decide (io_succeeds e cache_path)), w')
            ∧ if decide (io_succeeds e cache_path)
              then successful_save_disk cache_path
                     (dashboard_payload st stats dashboard_chart data_types) w w'
              else failed_save_disk e cache_path w w'
  | Raise ex =>
      dashboard_cache.save_dashboard_cache e source_path stats dashboard_chart data_types w
      = (Raise ex, w)
  end
  ∧
  match health_parser._get_source_stamp e source_path with
  | Ret None => health_parser._save_cache e cache_path source_path w = (Ret tt, w)
  | Ret (Some st) =>
      ∃ w', health_parser._save_cache e cache_path source_path w = (Ret tt, w')
            ∧ if decide (io_succeeds e cache_path)
              then successful_save_disk cache_path (health_payload st w) w w'
                   ∧ events w' = events w ++ [Printed ("Saved cache to " +:+ cache_path)]
              else failed_save_disk e cache_path w w'
                   ∧ ∃ ex, events w' = events w ++ [failure_line cache_path ex]
  | Raise ex => health_parser._save_cache e cache_path source_path w = (Raise ex, w)
  end.
Proof.
  split.
  - unfold dashboard_cache.save_dashboard_cache.
    destruct (dashboard_cache._get_source_stamp e source_path) as [[st|]|ex] eqn:Hst;
      unfold mbind at 1, M_bind at 1, lift at 1; [|done..].
    set (cp := dashboard_cache._cache_path_for_source e source_path).
    fold (tmp_of cp). fold (dashboard_payload st stats dashboard_chart data_types).
    cbn zeta. unfold try_except. rewrite seq_assoc.
    destruct (decide (io_succeeds e cp)) as [Hio|Hio].
    + rewrite (seq_ret _ _ _ _ _ (successful_writes e cp _ w Hio)).
      rewrite (bool_decide_eq_true_2 _ Hio). eexists. split; [reflexivity|]. done.
    + destruct (failing_writes e cp (dashboard_payload st stats dashboard_chart data_types)
                  w Hio) as (ex & w1 & Hrun & Hd & _).
      rewrite (seq_raise _ _ _ _ _ Hrun).
      destruct (remove_if_exists_spec e (tmp_of cp) w1) as (w2 & Hrm & _ & _ & _ & _ & Ho & Ht).
      rewrite (seq_ret _ _ _ _ _ Hrm). rewrite (bool_decide_eq_false_2 _ Hio).
      eexists. split; [reflexivity|]. split; [|done].
      rewrite Ho by apply not_eq_sym, tmp_of_ne. done.
  - unfold health_parser._save_cache.
    destruct (health_parser._get_source_stamp e source_path) as [[st|]|ex] eqn:Hst;
      unfold mbind at 1, M_bind at 1, lift at 1; [|done..].
    unfold mbind at 1, M_bind at 1, get at 1.
    fold (tmp_of cache_path). fold (health_payload st w).
    unfold try_except. rewrite seq_assoc.
    destruct (decide (io_succeeds e cache_path)) as [Hio|Hio].
    + rewrite (seq_ret _ _ _ _ _ (successful_writes e cache_path _ w Hio)).
      destruct (store_memory_cache_spec cache_path (health_payload st w)
                  (set_disk (<[cache_path := Pickled (health_payload st w)]>
                               (delete (tmp_of cache_path) (disk w))) w))
        as (w1 & Hsm & _ & _ & _ & Hd & Hev).
      rewrite (seq_ret _ _ _ _ _ Hsm). unfold print, modify.
      eexists. split; [reflexivity|]. unfold successful_save_disk. cbn.
      rewrite Hd, Hev. done.
    + destruct (failing_writes e cache_path (health_payload st w) w Hio)
        as (ex & w1 & Hrun & Hd & _ & _ & _ & Hev).
      rewrite (seq_raise _ _ _ _ _ Hrun). unfold print, modify, mbind, M_bind.
      fold (failure_line cache_path ex).
      destruct (remove_if_exists_spec e (tmp_of cache_path)
                  (add_event (failure_line cache_path ex) w1))
        as (w2 & Hrm & _ & _ & _ & Hev2 & Ho & Ht).
      rewrite Hrm. eexists. split; [reflexivity|]. split; [split; [|done]|].
      * rewrite Ho by apply not_eq_sym, tmp_of_ne. done.
      * exists ex. rewrite Hev2. cbn. by rewrite Hev.
Qed.

(** C6 as stated fails for the parser's saver: with an unavailable stamp
    [_save_cache] returns the value it returns after a successful save,
    leaves the world as it was and is silent: the failure is not
    reported. *)
Lemma save_cache_unavailable_stamp_unreported :
  health_parser._get_source_stamp fixtures.empty_env "/data/u9/export.xml" = Ret None
  ∧ health_parser._save_cache fixtures.empty_env "/data/u9/health_cache.pkl"
      "/data/u9/export.xml" fixtures.fresh = (Ret tt, fixtures.fresh)
  ∧ (health_parser._save_cache fixtures_cache.export_file fixtures_cache.cache_file
       "/data/u1/export.xml" fixtures_cache.one_record).1 = Ret tt
  ∧ silent (health_parser._save_cache fixtures.empty_env "/data/u9/health_cache.pkl"
              "/data/u9/export.xml") fixtures.fresh.
Proof. repeat split. intros ex. discriminate. Qed.

(** A disk that is full while the pickle is written: both savers give up,
    [save_dashboard_cache] with [False] and [_save_cache] with a printed
    line, and neither leaves a temporary or a cache file behind. *)
Example save_on_full_disk :
  let '(r, w) := dashboard_cache.save_dashboard_cache fixtures_cache.full_disk
                   "/data/u1/export.xml" "{}" "{}" [] fixtures.fresh in
  let '(r', w') := health_parser._save_cache fixtures_cache.full_disk
                     fixtures_cache.cache_file "/data/u1/export.xml"
                     fixtures_cache.one_record in
  r = Ret false ∧ disk w = ∅
  ∧ r' = Ret tt ∧ disk w' = ∅
  ∧ events w'
    = [Printed "Failed to save cache /data/u1/health_cache.pkl: No space left on device"].
Proof. vm_compute. repeat (split; [reflexivity|]). reflexivity. Qed.

(** ** The store invariant *)

Section hoare_rules.
Context (P : World → Prop).

Lemma hoare_weaken {A} (m : M A) (Q Q' : A → Prop) :
  hoare P m Q → (∀ a, Q a → Q' a) → hoare P m Q'.
Proof. intros Hm HQ w Hw. destruct (Hm w Hw) as [H1 H2]. split; [done|]. eauto. Qed.

Lemma hoare_ret {A} (a : A) (Q : A → Prop) : Q a → hoare P (mret a) Q.
Proof. intros HQ w Hw. split; [done|]. by intros a' [= <-]. Qed.

Lemma hoare_raise {A} ex (Q : A → Prop) : hoare P (raise ex) Q.
Proof. intros w Hw. split; [done|]. by intros a'. Qed.

Lemma hoare_lift {A} (o : outcome A) (Q : A → Prop) :
  (∀ a, o = Ret a → Q a) → hoare P (lift o) Q.
Proof. intros HQ w Hw. split; [done|]. exact HQ. Qed.

Lemma hoare_get : hoare P get P.
Proof. intros w Hw. split; [done|]. by intros a [= <-]. Qed.

Lemma hoare_modify f : (∀ w, P w → P (f w)) → preserves P (modify f).
Proof. intros Hf w Hw. split; [by apply Hf|done]. Qed.

Lemma hoare_bind {A B} (m : M A) (k : A → M B) (Q : A → Prop) (R : B → Prop) :
  hoare P m Q → (∀ a, Q a → hoare P (k a) R) → hoare P (m ≫= k) R.
Proof.
  intros Hm Hk w Hw. destruct (Hm w Hw) as [H1 H2]. unfold mbind, M_bind.
  destruct (m w) as [[a|ex] w1]; cbn in *; [|done].
  by apply Hk; [apply H2|].
Qed.

Lemma hoare_try_except {A} (body : M A) (handler : exn → M A) (Q : A → Prop) :
  hoare P body Q → (∀ ex, hoare P (handler ex) Q) → hoare P (try_except body handler) Q.
Proof.
  intros Hb Hh w Hw. destruct (Hb w Hw) as [H1 H2]. unfold try_except.
  destruct (body w) as [[a|ex] w1]; cbn in *; [|by apply Hh].
  split; [done|]. intros a' [= <-]. by apply H2.
Qed.

Lemma hoare_try_except_cls {A} cls (body : M A) (handler : exn → M A) (Q : A → Prop) :
  hoare P body Q → (∀ ex, hoare P (handler ex) Q) →
  hoare P (try_except_cls cls body handler) Q.
Proof.
  intros Hb Hh. apply hoare_try_except; [done|].
  intros ex. destruct (decide _); [apply Hh|apply hoare_raise].
Qed.

Lemma hoare_for_each {A} (l : list A) (body : A → M unit) :
  (∀ x, preserves P (body x)) → preserves P (for_each l body).
Proof.
  intros Hb. induction l as [|x l IH]; cbn; [by apply hoare_ret|].
  eapply hoare_bind; [apply Hb|]. intros _ _. apply IH.
Qed.

Lemma hoare_if {A} (b : bool) (m1 m2 : M A) (Q : A → Prop) :
  hoare P m1 Q → hoare P m2 Q → hoare P (if b then m1 else m2) Q.
Proof. by destruct b. Qed.

Lemma preserves_run {A} (m : M A) w : preserves P m → P w → P (m w).2.
Proof. intros Hm Hw. by apply Hm. Qed.

End hoare_rules.

Lemma bucket_append_lookup key r (ix : index) k :
  health_parser.bucket_append key r ix !! k
  = if decide (k = key) then Some (default [] (ix !! key) ++ [r]) else ix !! k.
Proof.
  unfold health_parser.bucket_append.
  destruct (bool_decide (is_Some (ix !! key))) eqn:Hk.
  - apply bool_decide_eq_true_1 in Hk as [bucket Hb].
    destruct (decide (k = key)) as [->|Hne].
    + by rewrite lookup_alter_eq, Hb.
    + by rewrite lookup_alter_ne.
  - apply bool_decide_eq_false_1 in Hk. apply eq_None_not_Some in Hk.
    destruct (decide (k = key)) as [->|Hne].
    + by rewrite lookup_alter_eq, lookup_insert_eq, Hk.
    + by rewrite lookup_alter_ne, lookup_insert_ne.
Qed.

Lemma store_invariant_empty : store_invariant [] ∅.
Proof.
  split; [|split].
  - intros k bucket r Hk. by rewrite lookup_empty in Hk.
  - intros r k Hr. by apply elem_of_nil in Hr.
  - intros r _ k bucket Hk. by rewrite lookup_empty in Hk.
Qed.

(** A record without a usable type only joins the sequence. *)
Lemma store_invariant_append_untyped rs ix r :
  type_key r = None → store_invariant rs ix → store_invariant (rs ++ [r]) ix.
Proof.
  intros Hr (H1 & H2 & H3). split; [|split].
  - intros k bucket r' Hk Hin. apply elem_of_app. left. eauto.
  - intros r' k Hin Hk. apply elem_of_app in Hin as [Hin|Hin]; [eauto|].
    apply list_elem_of_singleton in Hin as ->. congruence.
  - done.
Qed.

(** A record with a type joins the sequence and the bucket of its type. *)
Lemma store_invariant_append_typed rs ix r key :
  type_key r = Some key → store_invariant rs ix →
  store_invariant (rs ++ [r]) (health_parser.bucket_append key r ix).
Proof.
  intros Hr (H1 & H2 & H3). split; [|split].
  - intros k bucket r' Hk Hin. rewrite bucket_append_lookup in Hk.
    apply elem_of_app. destruct (decide (k = key)) as [->|Hne]; [|left; eauto].
    injection Hk as <-. apply elem_of_app in Hin as [Hin|Hin].
    + left. destruct (ix !! key) as [b|] eqn:Hb; cbn in Hin; [eauto|].
      by apply elem_of_nil in Hin.
    + right. done.
  - intros r' k Hin Hk. rewrite bucket_append_lookup.
    apply elem_of_app in Hin as [Hin|Hin].
    + destruct (H2 r' k Hin Hk) as (bucket & Hb & Hin').
      destruct (decide (k = key)) as [->|Hne]; [|eauto].
      eexists. split; [done|]. rewrite Hb. cbn. apply elem_of_app. by left.
    + apply list_elem_of_singleton in Hin as ->.
      assert (k = key) as -> by congruence. rewrite decide_True by done.
      eexists. split; [done|]. apply elem_of_app. right. by apply list_elem_of_singleton.
  - intros r' Hr' k bucket Hk Hin. rewrite bucket_append_lookup in Hk.
    destruct (decide (k = key)) as [->|Hne]; [|by eapply H3].
    injection Hk as <-. apply elem_of_app in Hin as [Hin|Hin].
    + destruct (ix !! key) as [b|] eqn:Hb; cbn in Hin; [by eapply H3|].
      by apply elem_of_nil in Hin.
    + apply list_elem_of_singleton in Hin as ->. congruence.
Qed.

Lemma evict_lookup_Some cache_path order (cache : gmap string cache_dict) k d :
  (evict cache_path order cache).2 !! k = Some d → cache !! k = Some d.
Proof.
  revert cache. induction order as [|old rest IH]; intros cache; cbn; [done|].
  destruct (decide _); [|done].
  intros H. apply IH in H. destruct (decide (old ≠ cache_path)); [|done].
  apply lookup_delete_Some in H as [_ H]. done.
Qed.

Section world_invariant.

Lemma add_event_invariant ev : preserves world_invariant (modify (add_event ev)).
Proof. apply hoare_modify. by intros w [Hs Hc]. Qed.

Lemma print_invariant line : preserves world_invariant (print line).
Proof. apply add_event_invariant. Qed.

Lemma print_exc_invariant : preserves world_invariant print_exc.
Proof. apply add_event_invariant. Qed.

Lemma set_store_invariant rs ix :
  store_invariant rs ix → preserves world_invariant (modify (set_store rs ix)).
Proof. intros Hs. apply hoare_modify. by intros w [_ Hc]. Qed.

Lemma store_memory_cache_invariant cache_path d :
  payload_wf d → preserves world_invariant (_store_memory_cache cache_path d).
Proof.
  intros Hd. apply hoare_modify. intros w [Hs [Hm Hk]]. cbv beta zeta.
  match goal with
  | |- context [evict ?c ?o ?m] =>
      pose proof (evict_lookup_Some c o m) as Hl; destruct (evict c o m) as [o' m'] eqn:He
  end.
  split; [done|]. split; [|done]. cbn in *.
  intros k d' Hk'. apply Hl in Hk'.
  apply lookup_insert_Some in Hk' as [[_ <-]|[_ Hk']]; eauto.
Qed.

(** Appending a record and indexing it, as the three readers do. *)
Lemma add_record_invariant r :
  preserves world_invariant (health_parser.append_record r ;; health_parser.index_record r).
Proof.
  intros w [Hs Hc]. split; [|done].
  unfold health_parser.append_record, health_parser.index_record. mstep.
  pose proof (eq_refl (type_key r)) as Hk. unfold type_key at 2 in Hk. cbn zeta in Hk.
  destruct (truthy (default VNone (r !! "type"))).
  - destruct (hash_key (default VNone (r !! "type"))) as [key|]; cbn.
    + split; [|done]. by apply store_invariant_append_typed.
    + split; [|done]. by apply store_invariant_append_untyped.
  - cbn. split; [|done]. by apply store_invariant_append_untyped.
Qed.

Lemma read_pickle_invariant cache_path :
  hoare world_invariant (read_pickle cache_path)
    (fun payload => ∀ d, payload = Some d → payload_wf d).
Proof.
  intros w Hw. split.
  - unfold read_pickle. mstep. by destruct (disk w !! cache_path) as [[]|].
  - unfold read_pickle. mstep. destruct Hw as [_ [_ Hd]].
    destruct (disk w !! cache_path) as [[d| |]|] eqn:Hk; cbn; intros a [= <-]; try done.
    intros d' [= <-]. eauto.
Qed.

Lemma load_cache_invariant e cache_path source_path :
  preserves world_invariant (health_parser._load_cache e cache_path source_path).
Proof.
  unfold health_parser._load_cache.
  eapply hoare_bind; [apply hoare_get|]. intros w Hw.
  apply hoare_if; [by apply hoare_ret|].
  eapply hoare_bind; [by apply hoare_lift with (Q := fun _ => True)|].
  intros [st|] _; [|by apply hoare_ret].
  cbn zeta.
  assert (Hdisk : preserves world_invariant
    (payload ← try_except (d ← read_pickle cache_path; mret (Some d)) (fun _ => mret None);
     match payload with
     | None => mret false
     | Some None => mret false
     | Some (Some payload) =>
         if negb (bool_decide (cd_cache_version payload = Some CACHE_VERSION)) then mret false
         else if negb (bool_decide (cd_source_stamp payload = Some st)) then mret false
         else
           modify (set_store (default [] (cd_records payload))
                             (default ∅ (cd_record_types payload))) ;;
           _store_memory_cache cache_path payload ;;
           print ("Loaded cached health data from " +:+ cache_path) ;;
           w ← get;
           mret (bool_decide (0 < length (records w))%nat)
     end)).
  { eapply hoare_bind with (Q := fun o => ∀ d, o = Some (Some d) → payload_wf d).
    - apply hoare_try_except.
      + eapply hoare_bind; [apply read_pickle_invariant|].
        intros o Ho. apply hoare_ret. intros d [= ->]. by apply Ho.
      + intros ex. by apply hoare_ret.
    - intros [[d|]|] Ho; try by apply hoare_ret.
      specialize (Ho d eq_refl).
      repeat (apply hoare_if; [by apply hoare_ret|]).
      eapply hoare_bind; [by apply set_store_invariant|]. intros _ _.
      eapply hoare_bind; [by apply store_memory_cache_invariant|]. intros _ _.
      eapply hoare_bind; [by apply print_invariant|]. intros _ _.
      eapply hoare_bind; [apply hoare_get|]. intros w1 _. by apply hoare_ret. }
  destruct (MEMORY_CACHE w !! cache_path) as [m|] eqn:Hm; [|exact Hdisk].
  apply hoare_if; [|exact Hdisk].
  destruct Hw as [_ [Hmem _]]. specialize (Hmem _ _ Hm).
  eapply hoare_bind; [by apply set_store_invariant|]. intros _ _.
  eapply hoare_bind; [by apply print_invariant|]. intros _ _.
  eapply hoare_bind; [apply hoare_get|]. intros w1 _. by apply hoare_ret.
Qed.

End world_invariant.

Section saving_invariant.

Lemma set_disk_invariant (f : gmap string fcontent → gmap string fcontent) :
  (∀ dsk, (∀ p d, dsk !! p = Some (Pickled d) → payload_wf d) →
          ∀ p d, f dsk !! p = Some (Pickled d) → payload_wf d) →
  preserves world_invariant (modify (fun w => set_disk (f (disk w)) w)).
Proof.
  intros Hf. apply hoare_modify. intros w [Hs [Hm Hd]].
  split; [done|]. split; [done|]. cbn. by apply Hf.
Qed.

Lemma write_pickle_invariant e tmp_path d :
  payload_wf d → preserves world_invariant (write_pickle e tmp_path d).
Proof.
  intros Hd. unfold write_pickle. destruct (e_write e tmp_path).
  - apply (set_disk_invariant (fun dsk => <[tmp_path := Pickled d]> dsk)).
    intros dsk Hdsk p d' Hp. apply lookup_insert_Some in Hp as [[_ [= <-]]|[_ Hp]]; eauto.
  - apply hoare_raise.
  - eapply hoare_bind; [|intros _ _; apply hoare_raise].
    apply (set_disk_invariant (fun dsk => <[tmp_path := Garbage]> dsk)).
    intros dsk Hdsk p d' Hp. apply lookup_insert_Some in Hp as [[_ [=]]|[_ Hp]]; eauto.
Qed.

Lemma os_replace_invariant e src dst :
  preserves world_invariant (os_replace e src dst).
Proof.
  unfold os_replace. destruct (e_replace e src dst); [apply hoare_raise|].
  eapply hoare_bind; [apply hoare_get|]. intros w [_ [_ Hd]].
  destruct (disk w !! src) as [c|] eqn:Hc; [|apply hoare_raise].
  apply (set_disk_invariant (fun dsk => <[dst := c]> (delete src dsk))).
  intros dsk Hdsk p d' Hp. apply lookup_insert_Some in Hp as [[_ ->]|[_ Hp]]; [eauto|].
  apply lookup_delete_Some in Hp as [_ Hp]. eauto.
Qed.

Lemma remove_if_exists_invariant e tmp_path :
  preserves world_invariant (remove_if_exists e tmp_path).
Proof.
  unfold remove_if_exists.
  eapply hoare_bind; [apply hoare_get|]. intros w _.
  apply hoare_if; [|by apply hoare_ret].
  apply hoare_if; [by apply hoare_ret|].
  apply (set_disk_invariant (fun dsk => delete tmp_path dsk)).
  intros dsk Hdsk p d' Hp. apply lookup_delete_Some in Hp as [_ Hp]. eauto.
Qed.

Lemma save_cache_invariant e cache_path source_path :
  preserves world_invariant (health_parser._save_cache e cache_path source_path).
Proof.
  unfold health_parser._save_cache.
  eapply hoare_bind; [by apply hoare_lift with (Q := fun _ => True)|].
  intros [st|] _; [|by apply hoare_ret].
  eapply hoare_bind; [apply hoare_get|]. intros w [Hs _]. cbn zeta.
  assert (Hwf : payload_wf (health_payload st w)) by done.
  fold (health_payload st w).
  apply hoare_try_except.
  - eapply hoare_bind; [by apply write_pickle_invariant|]. intros _ _.
    eapply hoare_bind; [apply os_replace_invariant|]. intros _ _.
    eapply hoare_bind; [by apply store_memory_cache_invariant|]. intros _ _.
    apply print_invariant.
  - intros ex. eapply hoare_bind; [apply print_invariant|]. intros _ _.
    apply remove_if_exists_invariant.
Qed.

End saving_invariant.

Section reading_invariant.
Context (e : Env).

Lemma xml_step_invariant cb total ev loc :
  preserves world_invariant (health_parser.xml_step cb total ev loc).
Proof.
  unfold health_parser.xml_step. cbn zeta.
  apply hoare_if; [|by apply hoare_ret].
  intros w Hw.
  pose proof (add_record_invariant (health_parser.attrib_record (ev_attrib ev)) w Hw) as [Hr _].
  revert Hr. unfold mbind, M_bind.
  destruct (health_parser.append_record _ w) as [[[]|ex] w1]; cbn; [|done].
  destruct (health_parser.index_record _ w1) as [[[]|ex] w2]; cbn; [|done].
  intros Hw2.
  repeat (destruct (_ && _) || destruct (bool_decide _)); cbn; done.
Qed.

Lemma xml_loop_invariant cb total evs loc :
  preserves world_invariant (health_parser.xml_loop cb total evs loc).
Proof.
  revert loc. induction evs as [|ev evs IH]; intros loc; cbn; [by apply hoare_ret|].
  eapply hoare_bind; [apply xml_step_invariant|]. intros loc' _. apply IH.
Qed.

Lemma parse_xml_invariant xml_path cb :
  preserves world_invariant (health_parser.parse_xml e xml_path cb).
Proof.
  unfold health_parser.parse_xml. apply hoare_try_except.
  - cbn zeta. eapply hoare_bind; [apply load_cache_invariant|]. intros hit _.
    apply hoare_if.
    + eapply hoare_bind; [|intros _ _; by apply hoare_ret].
      apply hoare_if; [apply add_event_invariant|by apply hoare_ret].
    + eapply hoare_bind; [apply print_invariant|]. intros _ _.
      eapply hoare_bind; [by apply hoare_lift with (Q := fun _ => True)|]. intros stream _.
      eapply hoare_bind; [apply xml_loop_invariant|]. intros _ _.
      eapply hoare_bind with (Q := fun _ => True).
      { destruct (xs_error stream); [apply hoare_raise|by apply hoare_ret]. }
      intros _ _.
      eapply hoare_bind; [apply hoare_get|]. intros w1 _.
      eapply hoare_bind; [apply print_invariant|]. intros _ _.
      eapply hoare_bind; [apply save_cache_invariant|]. intros _ _.
      eapply hoare_bind; [apply hoare_get|]. intros w2 _. by apply hoare_ret.
  - intros ex. eapply hoare_bind; [apply print_invariant|]. intros _ _.
    eapply hoare_bind; [apply print_exc_invariant|]. intros _ _. by apply hoare_ret.
Qed.

Lemma json_record_step_invariant item :
  preserves world_invariant (health_parser.json_record_step item).
Proof.
  destruct item as [r|]; cbn; [|by apply hoare_ret].
  apply hoare_if; [apply add_record_invariant|by apply hoare_ret].
Qed.

Lemma parse_json_files_invariant directory_path :
  preserves world_invariant (health_parser.parse_json_files e directory_path).
Proof.
  unfold health_parser.parse_json_files. apply hoare_try_except.
  - cbn zeta. eapply hoare_bind with (Q := fun _ => True).
    + apply hoare_for_each. intros json_file. apply hoare_try_except.
      * eapply hoare_bind; [by apply hoare_lift with (Q := fun _ => True)|].
        intros [items|] _; [|by apply hoare_ret].
        apply hoare_for_each. apply json_record_step_invariant.
      * intros ex. apply print_invariant.
    + intros _ _. eapply hoare_bind; [apply hoare_get|]. intros w _. by apply hoare_ret.
  - intros ex. eapply hoare_bind; [apply print_invariant|]. intros _ _.
    eapply hoare_bind; [apply print_exc_invariant|]. intros _ _. by apply hoare_ret.
Qed.

Lemma csv_record_step_invariant r :
  preserves world_invariant (health_parser.csv_record_step r).
Proof.
  unfold health_parser.csv_record_step.
  apply hoare_if; [apply add_record_invariant|by apply hoare_ret].
Qed.

Lemma parse_csv_files_invariant directory_path :
  preserves world_invariant (health_parser.parse_csv_files e directory_path).
Proof.
  unfold health_parser.parse_csv_files. apply hoare_try_except.
  - cbn zeta. eapply hoare_bind with (Q := fun _ => True).
    + apply hoare_for_each. intros csv_file. apply hoare_try_except.
      * eapply hoare_bind with (Q := fun _ => True).
        { apply hoare_try_except_cls.
          - eapply hoare_bind; [by apply hoare_lift with (Q := fun _ => True)|].
            intros _ _. by apply hoare_ret.
          - intros ex. by apply hoare_ret. }
        intros encoding _.
        eapply hoare_bind; [by apply hoare_lift with (Q := fun _ => True)|].
        intros df _. apply hoare_if; [|by apply hoare_ret].
        apply hoare_for_each. apply csv_record_step_invariant.
      * intros ex. apply print_invariant.
    + intros _ _. eapply hoare_bind; [apply hoare_get|]. intros w _. by apply hoare_ret.
  - intros ex. eapply hoare_bind; [apply print_invariant|]. intros _ _.
    eapply hoare_bind; [apply print_exc_invariant|]. intros _ _. by apply hoare_ret.
Qed.

Lemma parse_first_xml_invariant export_files :
  preserves world_invariant (health_parser.parse_first_xml e export_files).
Proof.
  induction export_files as [|xml_file rest IH]; cbn; [by apply hoare_ret|].
  eapply hoare_bind; [apply parse_xml_invariant|]. intros ok _.
  apply hoare_if; [by apply hoare_ret|apply IH].
Qed.

Lemma parse_directory_invariant directory_path :
  preserves world_invariant (health_parser.parse_directory e directory_path).
Proof.
  unfold health_parser.parse_directory. apply hoare_try_except.
  - cbn zeta. eapply hoare_bind; [apply load_cache_invariant|]. intros hit _.
    apply hoare_if; [by apply hoare_ret|].
    eapply hoare_bind; [apply parse_first_xml_invariant|]. intros parsed_xml _.
    eapply hoare_bind with (Q := fun _ => True).
    { apply hoare_if; [apply parse_json_files_invariant|by apply hoare_ret]. }
    intros success _.
    eapply hoare_bind with (Q := fun _ => True).
    { apply hoare_if; [apply parse_csv_files_invariant|by apply hoare_ret]. }
    intros success' _.
    eapply hoare_bind with (Q := fun _ => True); [|intros _ _; by apply hoare_ret].
    apply hoare_if; [apply save_cache_invariant|by apply hoare_ret].
  - intros ex. eapply hoare_bind; [apply print_invariant|]. intros _ _.
    eapply hoare_bind; [apply print_exc_invariant|]. intros _ _. by apply hoare_ret.
Qed.

End reading_invariant.

(** ** Progress reporting *)

Lemma percents_app evs1 evs2 : percents (evs1 ++ evs2) = percents evs1 ++ percents evs2.
Proof. apply omap_app. Qed.

Section emits_rules.

Lemma quiet_ret {A} (a : A) : quiet (mret a).
Proof. intros w. exists []. by rewrite app_nil_r. Qed.

Lemma quiet_raise {A} ex : quiet (raise (A := A) ex).
Proof. intros w. exists []. by rewrite app_nil_r. Qed.

Lemma quiet_lift {A} (o : outcome A) : quiet (lift o).
Proof. intros w. exists []. by rewrite app_nil_r. Qed.

Lemma quiet_get : quiet get.
Proof. intros w. exists []. by rewrite app_nil_r. Qed.

Lemma quiet_modify f : (∀ w, events (f w) = events w) → quiet (modify f).
Proof. intros Hf w. exists []. cbn. by rewrite Hf, app_nil_r. Qed.

Lemma quiet_print line : quiet (print line).
Proof. intros w. by exists [Printed line]. Qed.

Lemma quiet_print_exc : quiet print_exc.
Proof. intros w. by exists [Traceback]. Qed.

Lemma quiet_emits {A} (m : M A) (R : list Z → Prop) : R [] → quiet m → emits m R.
Proof.
  intros HR Hm w. destruct (Hm w) as (new & Hev & Hp). exists new. by rewrite Hp.
Qed.

Lemma emits_weaken {A} (m : M A) (R R' : list Z → Prop) :
  (∀ ps, R ps → R' ps) → emits m R → emits m R'.
Proof. intros HR Hm w. destruct (Hm w) as (new & Hev & Hp). eauto. Qed.

(** A quiet prefix. *)
Lemma emits_after_quiet {A B} (m : M A) (k : A → M B) (R : list Z → Prop) :
  R [] → quiet m → (∀ a, emits (k a) R) → emits (m ≫= k) R.
Proof.
  intros HR Hm Hk w. destruct (Hm w) as (new1 & Hev1 & Hp1). unfold mbind, M_bind.
  destruct (m w) as [[a|ex] w1]; cbn in *.
  - destruct (Hk a w1) as (new2 & Hev2 & Hp2).
    exists (new1 ++ new2). rewrite Hev2, Hev1, app_assoc, percents_app, Hp1. done.
  - exists new1. by rewrite Hp1.
Qed.

(** A quiet continuation. *)
Lemma emits_then_quiet {A B} (m : M A) (k : A → M B) (R : list Z → Prop) :
  emits m R → (∀ a, quiet (k a)) → emits (m ≫= k) R.
Proof.
  intros Hm Hk w. destruct (Hm w) as (new1 & Hev1 & Hp1). unfold mbind, M_bind.
  destruct (m w) as [[a|ex] w1]; cbn in *.
  - destruct (Hk a w1) as (new2 & Hev2 & Hp2).
    exists (new1 ++ new2). rewrite Hev2, Hev1, app_assoc, percents_app, Hp2, app_nil_r. done.
  - exists new1. done.
Qed.

Lemma quiet_bind {A B} (m : M A) (k : A → M B) :
  quiet m → (∀ a, quiet (k a)) → quiet (m ≫= k).
Proof. intros Hm Hk. by apply emits_then_quiet. Qed.

Lemma emits_try_except {A} (body : M A) (handler : exn → M A) (R : list Z → Prop) :
  emits body R → (∀ ex, quiet (handler ex)) → emits (try_except body handler) R.
Proof.
  intros Hb Hh w. destruct (Hb w) as (new1 & Hev1 & Hp1). unfold try_except.
  destruct (body w) as [[a|ex] w1]; cbn in *.
  - exists new1. done.
  - destruct (Hh ex w1) as (new2 & Hev2 & Hp2).
    exists (new1 ++ new2). rewrite Hev2, Hev1, app_assoc, percents_app, Hp2, app_nil_r. done.
Qed.

Lemma quiet_try_except {A} (body : M A) (handler : exn → M A) :
  quiet body → (∀ ex, quiet (handler ex)) → quiet (try_except body handler).
Proof. apply emits_try_except. Qed.

Lemma quiet_if {A} (b : bool) (m1 m2 : M A) : quiet m1 → quiet m2 → quiet (if b then m1 else m2).
Proof. by destruct b. Qed.

Lemma quiet_for_each {A} (l : list A) (body : A → M unit) :
  (∀ x, quiet (body x)) → quiet (for_each l body).
Proof.
  intros Hb. induction l as [|x l IH]; cbn; [apply quiet_ret|].
  apply quiet_bind; [apply Hb|]. intros _. apply IH.
Qed.

End emits_rules.

Ltac quiet_step :=
  lazymatch goal with
  | |- quiet (mret _) => apply quiet_ret
  | |- quiet (raise _) => apply quiet_raise
  | |- quiet (lift _) => apply quiet_lift
  | |- quiet get => apply quiet_get
  | |- quiet (print _) => apply quiet_print
  | |- quiet print_exc => apply quiet_print_exc
  | |- quiet (modify _) => apply quiet_modify; intros; reflexivity
  | |- quiet (_ ≫= _) => apply quiet_bind; [|intros ?]
  | |- quiet (try_except _ _) => apply quiet_try_except; [|intros ?]
  | |- quiet (if _ then _ else _) => apply quiet_if
  | |- quiet (let _ := _ in _) => cbn zeta
  end.

Lemma quiet_store_memory_cache cache_path d : quiet (_store_memory_cache cache_path d).
Proof.
  apply quiet_modify. intros w. cbv beta zeta.
  by destruct (evict _ _ _).
Qed.

Lemma quiet_write_pickle e tmp_path d : quiet (write_pickle e tmp_path d).
Proof. unfold write_pickle. destruct (e_write e tmp_path); repeat quiet_step. Qed.

Lemma quiet_os_replace e src dst : quiet (os_replace e src dst).
Proof.
  unfold os_replace. destruct (e_replace e src dst); [apply quiet_raise|].
  apply quiet_bind; [apply quiet_get|]. intros w.
  destruct (disk w !! src); repeat quiet_step.
Qed.

Lemma quiet_remove_if_exists e tmp_path : quiet (remove_if_exists e tmp_path).
Proof. unfold remove_if_exists. repeat quiet_step. Qed.

Lemma quiet_read_pickle cache_path : quiet (read_pickle cache_path).
Proof.
  unfold read_pickle. apply quiet_bind; [apply quiet_get|]. intros w.
  destruct (disk w !! cache_path) as [[]|]; repeat quiet_step.
Qed.

Lemma quiet_save_cache e cache_path source_path :
  quiet (health_parser._save_cache e cache_path source_path).
Proof.
  unfold health_parser._save_cache.
  apply quiet_bind; [apply quiet_lift|]. intros [st|]; [|apply quiet_ret].
  repeat quiet_step;
    auto using quiet_write_pickle, quiet_os_replace, quiet_store_memory_cache,
      quiet_remove_if_exists.
Qed.

Lemma quiet_load_cache e cache_path source_path :
  quiet (health_parser._load_cache e cache_path source_path).
Proof.
  unfold health_parser._load_cache.
  apply quiet_bind; [apply quiet_get|]. intros w.
  apply quiet_if; [apply quiet_ret|].
  apply quiet_bind; [apply quiet_lift|]. intros [st|]; [|apply quiet_ret]. cbn zeta.
  assert (Hdisk : quiet
    (payload ← try_except (d ← read_pickle cache_path; mret (Some d)) (fun _ => mret None);
     match payload with
     | None => mret false
     | Some None => mret false
     | Some (Some payload) =>
         if negb (bool_decide (cd_cache_version payload = Some CACHE_VERSION)) then mret false
         else if negb (bool_decide (cd_source_stamp payload = Some st)) then mret false
         else
           modify (set_store (default [] (cd_records payload))
                             (default ∅ (cd_record_types payload))) ;;
           _store_memory_cache cache_path payload ;;
           print ("Loaded cached health data from " +:+ cache_path) ;;
           w ← get;
           mret (bool_decide (0 < length (records w))%nat)
     end)).
  { apply quiet_bind.
    - apply quiet_try_except; [|intros; apply quiet_ret].
      apply quiet_bind; [apply quiet_read_pickle|intros; apply quiet_ret].
    - intros [[d|]|]; repeat quiet_step; auto using quiet_store_memory_cache. }
  destruct (MEMORY_CACHE w !! cache_path); [|exact Hdisk].
  apply quiet_if; [repeat quiet_step|exact Hdisk].
Qed.

Lemma progress_percent_range pos total :
  5 ≤ health_parser.progress_percent pos total ≤ 95.
Proof. unfold health_parser.progress_percent. lia. Qed.

Lemma progress_percent_mono pos pos' total :
  0 ≤ total → pos ≤ pos' →
  health_parser.progress_percent pos total ≤ health_parser.progress_percent pos' total.
Proof.
  intros Ht Hp. unfold health_parser.progress_percent.
  assert (pos * 90 ÷ total ≤ pos' * 90 ÷ total).
  { destruct (decide (total = 0)) as [->|Hne].
    - by rewrite !Z.quot_0_r_ext.
    - apply Z.quot_le_mono; lia. }
  lia.
Qed.

Section xml_progress.
Context (progress_callback : bool) (total_size : option N).

Let total : Z := Z.of_N (default 0%N total_size).

(** The loop invariant: the last reported percentage is not ahead of
    the file position. *)
Let inv (loc : health_parser.xml_locals) : Prop :=
  health_parser.last_progress loc
  ≤ health_parser.progress_percent (health_parser.file_pos loc) total.

Lemma xml_step_progress ev loc w :
  inv loc →
  ∃ new,
    events (health_parser.xml_step progress_callback total_size ev loc w).2 = events w ++ new
    ∧ match (health_parser.xml_step progress_callback total_size ev loc w).1 with
      | Ret loc' =>
          inv loc'
          ∧ ((percents new = []
              ∧ health_parser.last_progress loc' = health_parser.last_progress loc)
             ∨ (percents new = [health_parser.last_progress loc']
                ∧ health_parser.last_progress loc < health_parser.last_progress loc'
                ∧ 5 ≤ health_parser.last_progress loc' ≤ 95))
      | Raise _ => percents new = []
      end.
Proof.
  unfold inv. intros Hinv.
  assert (Hmono : health_parser.last_progress loc
                  ≤ health_parser.progress_percent
                      (health_parser.file_pos loc + Z.of_N (ev_read ev)) total).
  { etrans; [exact Hinv|]. apply progress_percent_mono; unfold total; lia. }
  unfold health_parser.xml_step, health_parser.append_record, health_parser.index_record.
  mstep. fold total.
  repeat (case_match; cbn in *; simplify_eq);
    try (exists []; rewrite app_nil_r; split; [done|]; cbn; repeat split; auto; fail).
  all: eexists [_]; (split; [done|]); cbn; (split; [done|]); right.
  all: match goal with
       | H : bool_decide (_ ≠ _) = true |- _ => apply bool_decide_eq_true_1 in H
       end.
  all: pose proof (progress_percent_range
                     (health_parser.file_pos loc + Z.of_N (ev_read ev)) total).
  all: repeat split; lia.
Qed.

Lemma xml_loop_progress evs loc w :
  inv loc →
  ∃ new,
    events (health_parser.xml_loop progress_callback total_size evs loc w).2 = events w ++ new
    ∧ StronglySorted Z.lt (percents new)
    ∧ Forall (fun p => health_parser.last_progress loc < p ∧ 5 ≤ p ≤ 95) (percents new).
Proof.
  revert loc w. induction evs as [|ev evs IH]; intros loc w Hinv; cbn.
  { exists []. rewrite app_nil_r. repeat split; constructor. }
  destruct (xml_step_progress ev loc w Hinv) as (new1 & Hev1 & Hstep).
  unfold mbind, M_bind.
  destruct (health_parser.xml_step progress_callback total_size ev loc w)
    as [[loc'|ex] w1]; cbn in *.
  - destruct Hstep as [Hinv' Hcase].
    destruct (IH loc' w1 Hinv') as (new2 & Hev2 & Hsorted & Hall).
    exists (new1 ++ new2). rewrite Hev2, Hev1, app_assoc, percents_app.
    split; [done|].
    destruct Hcase as [[-> Hlast]|(-> & Hlt & Hrange)]; cbn.
    + split; [done|]. rewrite <- Hlast. done.
    + split.
      * constructor; [done|]. eapply Forall_impl; [exact Hall|]. by intros p [? _].
      * constructor; [done|]. eapply Forall_impl; [exact Hall|]. intros p [? ?]. lia.
  - exists new1. rewrite Hstep. repeat split; [done|constructor..].
Qed.

End xml_progress.


(** ** The readers and the store invariant *)

Lemma fresh_world_invariant : world_invariant fixtures.fresh.
Proof.
  split; [apply store_invariant_empty|].
  split; intros p d Hp; cbn in Hp; by rewrite lookup_empty in Hp.
Qed.

(** C7.  From a world whose store and caches satisfy the invariant (a
    fresh parser in particular), each of the three readers leaves a store
    that satisfies it, however the reader ends: what is indexed is in the
    sequence, a record of the sequence with a type is in the bucket of
    that type, and a record without one is in no bucket. *)
Theorem ingestion_keeps_store_invariant e xml_path directory_path progress_callback w :
  world_invariant w →
  (let w' := (health_parser.parse_xml e xml_path progress_callback w).2 in
   store_invariant (records w') (record_types w'))
  ∧ (let w' := (health_parser.parse_json_files e directory_path w).2 in
     store_invariant (records w') (record_types w'))
  ∧ (let w' := (health_parser.parse_csv_files e directory_path w).2 in
     store_invariant (records w') (record_types w')).
Proof.
  intros Hw.
  destruct (parse_xml_invariant e xml_path progress_callback w Hw) as [[Hxml _] _].
  destruct (parse_json_files_invariant e directory_path w Hw) as [[Hjson _] _].
  destruct (parse_csv_files_invariant e directory_path w Hw) as [[Hcsv _] _].
  done.
Qed.

Lemma ingestion_keeps_store_invariant_witness :
  (let w' := (health_parser.parse_xml fixtures_dir.mixed_dir "/data/u2/export.xml" true
                fixtures.fresh).2 in
   store_invariant (records w') (record_types w'))
  ∧ (let w' := (health_parser.parse_json_files fixtures_dir.mixed_dir "/data/u2"
                  fixtures.fresh).2 in
     store_invariant (records w') (record_types w'))
  ∧ (let w' := (health_parser.parse_csv_files fixtures_dir.mixed_dir "/data/u2"
                  fixtures.fresh).2 in
     store_invariant (records w') (record_types w')).
Proof.
  apply (ingestion_keeps_store_invariant fixtures_dir.mixed_dir).
  apply fresh_world_invariant.
Defined.

(** What the readers leave on the sample directory: the XML reader keeps
    both [Record] elements and indexes the one that has a type. *)
Example parse_xml_mixed_dir :
  let '(r, w) := health_parser.parse_xml fixtures_dir.mixed_dir "/data/u2/export.xml" false
                   fixtures.fresh in
  r = Ret true
  ∧ map (fun rec => (rec !! "type", rec !! "value")) (records w)
    = [(Some (VStr "StepCount"), Some (VStr "100")); (None, Some (VStr "7"))]
  ∧ map (fun '(k, bucket) => (k, length bucket)) (map_to_list (record_types w))
    = [(KStr "StepCount", 1%nat)].
Proof. vm_compute. repeat (split; [reflexivity|]). reflexivity. Qed.

(** The JSON object whose type is a list stays in the sequence, is in no
    bucket, and ends the reading of its file: the fourth item is not
    read. *)
Example parse_json_mixed_dir :
  let '(r, w) := health_parser.parse_json_files fixtures_dir.mixed_dir "/data/u2"
                   fixtures.fresh in
  r = Ret true
  ∧ map (fun rec => rec !! "type") (records w)
    = [Some (VStr "HeartRate"); Some (VCompound true)]
  ∧ map (fun '(k, bucket) => (k, length bucket)) (map_to_list (record_types w))
    = [(KStr "HeartRate", 1%nat)]
  ∧ type_key fixtures_dir.odd_record = None.
Proof. vm_compute. repeat (split; [reflexivity|]). reflexivity. Qed.

(** ** The order of the fallbacks *)

Section same_xml_side.
Context (e e' : Env) (Hsame : same_xml_side e e').

Lemma same_cache_path p :
  health_parser._cache_path_for_source e' p = health_parser._cache_path_for_source e p.
Proof.
  destruct Hsame as (Hd & _). unfold health_parser._cache_path_for_source. by rewrite Hd.
Qed.

Lemma same_stamp_at depth p :
  health_parser._get_source_stamp_at depth e' p = health_parser._get_source_stamp_at depth e p.
Proof.
  destruct Hsame as (Hd & Hs & Hg & _).
  revert p. induction depth as [|depth IH]; intros p; cbn; [done|].
  rewrite Hd, (Hg p EXPORT_XML), (Hg p SHUCHU_XML) by (rewrite !elem_of_cons; tauto).
  unfold stat_or_none. rewrite Hs.
  destruct (e_isdir e p); [|done].
  destruct (e_glob e p EXPORT_XML ++ e_glob e p SHUCHU_XML); [done|apply IH].
Qed.

Lemma same_stamp p :
  health_parser._get_source_stamp e' p = health_parser._get_source_stamp e p.
Proof.
  unfold health_parser._get_source_stamp.
  destruct Hsame as (_ & _ & _ & -> & _). apply same_stamp_at.
Qed.

Lemma same_load_cache cache_path p :
  health_parser._load_cache e' cache_path p = health_parser._load_cache e cache_path p.
Proof. unfold health_parser._load_cache. by rewrite same_stamp. Qed.

Lemma same_save_cache cache_path p :
  health_parser._save_cache e' cache_path p = health_parser._save_cache e cache_path p.
Proof.
  unfold health_parser._save_cache, write_pickle, os_replace, remove_if_exists.
  destruct Hsame as (_ & _ & _ & _ & _ & _ & Hw & Hr & Hrm).
  by rewrite same_stamp, Hw, Hr, Hrm.
Qed.

Lemma same_parse_xml xml_path cb :
  health_parser.parse_xml e' xml_path cb = health_parser.parse_xml e xml_path cb.
Proof.
  unfold health_parser.parse_xml.
  rewrite same_cache_path, same_load_cache, same_save_cache.
  destruct Hsame as (_ & _ & _ & _ & Hsz & Hx & _). by rewrite Hsz, Hx.
Qed.

Lemma same_parse_first_xml export_files :
  health_parser.parse_first_xml e' export_files
  = health_parser.parse_first_xml e export_files.
Proof.
  induction export_files as [|f rest IH]; cbn; [done|]. by rewrite same_parse_xml, IH.
Qed.

Lemma same_export_files directory_path :
  export_files_of e' directory_path = export_files_of e directory_path.
Proof.
  unfold export_files_of. destruct Hsame as (_ & _ & Hg & _).
  by rewrite (Hg directory_path "*.xml") by (rewrite !elem_of_cons; tauto).
Qed.

End same_xml_side.

Lemma same_xml_side_refl e : same_xml_side e e.
Proof. by repeat split. Qed.

Lemma same_parse_json_files e e' directory_path :
  same_json_side e e' →
  health_parser.parse_json_files e' directory_path
  = health_parser.parse_json_files e directory_path.
Proof.
  intros [Hg Hj]. unfold health_parser.parse_json_files. rewrite Hg.
  assert (Hloop : ∀ l,
    for_each l
      (λ json_file : string,
         try_except
           (data ← lift (e_json e' json_file);
            match data with
            | JList items => for_each items health_parser.json_record_step
            | JNotList => mret ()
            end)
           (λ ex : exn,
              print ("Error parsing JSON file " +:+ json_file +:+ ": " +:+ exn_msg ex)))
    = for_each l
        (λ json_file : string,
           try_except
             (data ← lift (e_json e json_file);
              match data with
              | JList items => for_each items health_parser.json_record_step
              | JNotList => mret ()
              end)
             (λ ex : exn,
                print ("Error parsing JSON file " +:+ json_file +:+ ": " +:+ exn_msg ex)))).
  { induction l as [|g l IHl]; [done|]. cbn [for_each]. by rewrite Hj, IHl. }
  by rewrite Hloop.
Qed.

(** [_save_cache] leaves the parser's store alone. *)
Lemma save_cache_keeps_store e cache_path source_path w :
  records (health_parser._save_cache e cache_path source_path w).2 = records w
  ∧ record_types (health_parser._save_cache e cache_path source_path w).2 = record_types w.
Proof.
  set (P := fun w' : World => records w' = records w ∧ record_types w' = record_types w).
  enough (preserves P (health_parser._save_cache e cache_path source_path)) as H.
  { by apply H. }
  assert (Hmod : ∀ f, (∀ w0, records (f w0) = records w0 ∧ record_types (f w0) = record_types w0)
                      → preserves P (modify f)).
  { intros f Hf. apply hoare_modify. intros w0 [H1 H2]. destruct (Hf w0) as [Ha Hb].
    unfold P. by rewrite Ha, Hb. }
  unfold health_parser._save_cache.
  eapply hoare_bind; [by apply hoare_lift with (Q := fun _ => True)|].
  intros [st|] _; [|by apply hoare_ret].
  eapply hoare_bind; [apply hoare_get|]. intros w0 _. cbn zeta.
  apply hoare_try_except.
  - eapply hoare_bind with (Q := fun _ => True).
    { unfold write_pickle. destruct (e_write e _); [by apply Hmod|apply hoare_raise|].
      eapply hoare_bind; [by apply Hmod|]. intros _ _. apply hoare_raise. }
    intros _ _. eapply hoare_bind with (Q := fun _ => True).
    { unfold os_replace. destruct (e_replace e _ _); [apply hoare_raise|].
      eapply hoare_bind; [apply hoare_get|]. intros w1 _.
      destruct (disk w1 !! _); [by apply Hmod|apply hoare_raise]. }
    intros _ _. eapply hoare_bind with (Q := fun _ => True).
    { apply Hmod. intros w1. cbv beta zeta. by destruct (evict _ _ _). }
    intros _ _. by apply Hmod.
  - intros ex. eapply hoare_bind; [by apply Hmod|]. intros _ _.
    unfold remove_if_exists. eapply hoare_bind; [apply hoare_get|]. intros w1 _.
    repeat (apply hoare_if; [|by apply hoare_ret]).
    apply hoare_if; [by apply hoare_ret|by apply Hmod].
Qed.

(** [parse_directory] after a cache miss: the three readers in turn. *)
Lemma parse_directory_after_miss e directory_path w w0 :
  health_parser._load_cache e (cache_path_of e directory_path)
    (cache_source_of e directory_path) w = (Ret false, w0) →
  health_parser.parse_directory e directory_path w
  = try_except
      (parsed_xml ← health_parser.parse_first_xml e (export_files_of e directory_path);
       success ← (if negb parsed_xml then health_parser.parse_json_files e directory_path
                  else mret parsed_xml);
       success ← (if negb success then health_parser.parse_csv_files e directory_path
                  else mret success);
       (if success && negb parsed_xml
        then health_parser._save_cache e (cache_path_of e directory_path) directory_path
        else mret tt) ;;
       mret success)
      (fun ex =>
         print ("Error parsing directory: " +:+ exn_msg ex) ;;
         print_exc ;;
         mret false) w0.
Proof.
  intros Hload. unfold health_parser.parse_directory.
  change (filter _ (e_glob e directory_path "*.xml")) with (export_files_of e directory_path).
  change (default directory_path (head (export_files_of e directory_path)))
    with (cache_source_of e directory_path).
  cbn zeta.
  change (health_parser._cache_path_for_source e (cache_source_of e directory_path))
    with (cache_path_of e directory_path).
  unfold try_except at 1 2. unfold mbind at 1 6, M_bind at 1 6. rewrite Hload. done.
Qed.



(** On the sample directory, which holds an export, a JSON file and a CSV
    file, the store holds the records of the export and nothing else. *)
Example parse_directory_mixed_dir :
  let '(r, w) := health_parser.parse_directory fixtures_dir.mixed_dir "/data/u2"
                   fixtures.fresh in
  r = Ret true
  ∧ map (fun rec => (rec !! "type", rec !! "value")) (records w)
    = [(Some (VStr "StepCount"), Some (VStr "100")); (None, Some (VStr "7"))]
  ∧ map (fun '(k, bucket) => (k, length bucket)) (map_to_list (record_types w))
    = [(KStr "StepCount", 1%nat)].
Proof. vm_compute. repeat (split; [reflexivity|]). reflexivity. Qed.

(** ** Derived metrics *)

Section frames.
Context {A : Type} (key : A → Z).

Lemma elem_of_insert_by x y (l : list A) : x ∈ insert_by key y l ↔ x = y ∨ x ∈ l.
Proof.
  induction l as [|z l IH]; cbn.
  - rewrite list_elem_of_singleton, elem_of_nil. tauto.
  - destruct (decide _); [apply elem_of_cons|]. rewrite !elem_of_cons, IH. tauto.
Qed.

Lemma elem_of_sort_values x (l : list A) : x ∈ sort_values key l ↔ x ∈ l.
Proof.
  unfold sort_values. induction l as [|y l IH]; cbn; [done|].
  rewrite elem_of_insert_by, IH, elem_of_cons. done.
Qed.

Lemma sort_values_nil_inv (l : list A) : sort_values key l = [] → l = [].
Proof.
  destruct l as [|y l]; [done|]. intros H.
  assert (y ∈ sort_values key (y :: l)) as Hin by (apply elem_of_sort_values; left).
  rewrite H in Hin. by apply elem_of_nil in Hin.
Qed.

End frames.

Lemma elem_of_insert_key d x l : d ∈ insert_key x l ↔ d = x ∨ d ∈ l.
Proof.
  induction l as [|y l IH]; cbn.
  - rewrite list_elem_of_singleton, elem_of_nil. tauto.
  - destruct (decide (x < y)); [apply elem_of_cons|].
    destruct (decide (x = y)) as [->|]; [rewrite elem_of_cons; tauto|].
    rewrite !elem_of_cons, IH. tauto.
Qed.

Lemma elem_of_group_keys d l : d ∈ group_keys l ↔ d ∈ l.
Proof.
  unfold group_keys. induction l as [|x l IH]; cbn; [done|].
  rewrite elem_of_insert_key, IH, elem_of_cons. done.
Qed.

Lemma group_keys_nil_inv l : group_keys l = [] → l = [].
Proof.
  destruct l as [|x l]; [done|]. intros H.
  assert (x ∈ group_keys (x :: l)) as Hin by (apply elem_of_group_keys; left).
  rewrite H in Hin. by apply elem_of_nil in Hin.
Qed.

Lemma groupby_keys {A} (key : A → Z) (rows : list A) :
  map fst (groupby key rows) = group_keys (map key rows).
Proof. unfold groupby. rewrite map_map. cbn. apply map_id. Qed.

Lemma elem_of_groupby {A} (key : A → Z) (rows : list A) d g :
  (d, g) ∈ groupby key rows ↔
  d ∈ map key rows ∧ g = filter (fun r => key r = d) rows.
Proof.
  unfold groupby. rewrite list_elem_of_fmap. setoid_rewrite elem_of_group_keys. split.
  - intros (d' & [= -> ->] & Hin). done.
  - intros [Hin ->]. eauto.
Qed.



(** The night of the sample store, eight hours long, is counted on the
    day it starts although its state is not in the vocabulary. *)
Example sleep_daily_example :
  health_parser.get_sleep_duration_daily (fixtures_metrics.toy_pandas 0)
    fixtures_metrics.sleep_store
  = [(19723, 8%R)].
Proof.
  vm_compute. do 2 f_equal. lra.
Qed.

Lemma clip_bounds x lo hi : (lo <= hi)%R → (lo <= clip x lo hi <= hi)%R.
Proof.
  intros Hle. unfold clip. split.
  - apply Rmin_glb; [apply Rmax_r|done].
  - apply Rmin_r.
Qed.

(** [get_stress_indicators] without its early returns, which agree with
    the general case. *)
Lemma get_stress_indicators_unfold pd self :
  health_parser.get_stress_indicators pd self
  = sort_values health_parser.st_date
      (map (fun '(d, rows) =>
              let values := dropna (map health_parser.value rows) in
              {| health_parser.st_date := d;
                 health_parser.hr_std := fillna0 (std values);
                 health_parser.hr_range := fillna0 (value_range values);
                 health_parser.hr_mean := fillna0 (mean values);
                 health_parser.stress_index := clip (raw_stress_index values) 1 10 |})
           (groupby (fun r => to_date (health_parser.startDate r))
                    (numeric_heart_rate pd self))).
Proof.
  assert (Hten : (10.0 = 10)%R) by lra.
  unfold health_parser.get_stress_indicators, numeric_heart_rate, raw_stress_index.
  rewrite Hten.
  destruct (health_parser.get_heart_rate_data pd self) as [|r rs]; [done|].
  destruct (filter _ (r :: rs)); done.
Qed.


(** Three samples 60, 80, 100: standard deviation 20, range 40, index
    2.8. *)
Example stress_three_samples : clip (raw_stress_index [60; 80; 100]%R) 1 10 = 2.8%R.
Proof.
  unfold raw_stress_index, std, value_range, maximum, minimum, clip, fillna0, Rsum.
  cbv [foldr map length INR].
  match goal with |- context [sqrt ?x] => replace x with (20 * 20)%R by lra end.
  rewrite sqrt_square by lra.
  rewrite (Rmax_left 100 60), (Rmax_right 80 100) by lra.
  rewrite (Rmin_right 100 60), (Rmin_right 80 60) by lra.
  rewrite Rmax_left by lra. rewrite Rmin_left by lra. lra.
Qed.

(** A single sample: the standard deviation is undefined and counts as
    zero, the range is zero, and the index is clipped up to 1. *)
Example stress_single_sample x : clip (raw_stress_index [x]) 1 10 = 1%R.
Proof.
  unfold raw_stress_index, std, value_range, maximum, minimum, clip, fillna0.
  cbv [foldr].
  replace ((0 * 0.6 + (x - x) * 0.4) / 10)%R with 0%R by lra.
  rewrite Rmax_right by lra. rewrite Rmin_left by lra. done.
Qed.

(** A day whose heart rate ranges over 300 with a large deviation is
    clipped down to 10. *)
Example stress_clipped_above : clip (raw_stress_index [0; 300]%R) 1 10 = 10%R.
Proof.
  unfold raw_stress_index, std, value_range, maximum, minimum, clip, fillna0, Rsum.
  cbv [foldr map length INR].
  rewrite (Rmax_left 300 0), (Rmin_right 300 0) by lra.
  match goal with |- context [sqrt ?x] => pose proof (sqrt_pos x) end.
  rewrite Rmax_left by lra. rewrite Rmin_right by lra. done.
Qed.

Example stress_table_dates :
  map health_parser.st_date
    (health_parser.get_stress_indicators (fixtures_metrics.toy_pandas 0)
       fixtures_metrics.hr_store)
  = [19723; 19724].
Proof. vm_compute. reflexivity. Qed.

Example stress_values_first_day :
  values_on (fixtures_metrics.toy_pandas 0) fixtures_metrics.hr_store 19723
  = [60; 80; 100]%R.
Proof. vm_compute. reflexivity. Qed.

Example stress_values_second_day :
  values_on (fixtures_metrics.toy_pandas 0) fixtures_metrics.hr_store 19724 = [80%R].
Proof. vm_compute. reflexivity. Qed.

(** ** The tables and the clock *)


Section clock.
Context (pd : Pandas) (t : Z).

Lemma try_formats_with_now s fmts :
  health_parser.try_formats (with_now t pd) s fmts = health_parser.try_formats pd s fmts.
Proof. induction fmts as [|fmt fmts IH]; cbn; [done|]. by rewrite IH. Qed.

Lemma safe_date_with_now v :
  parsable pd v = true →
  health_parser._safe_date_conversion (with_now t pd) v
  = health_parser._safe_date_conversion pd v.
Proof.
  unfold parsable, health_parser._safe_date_conversion. destruct v as [|q| |s|b]; try done.
  - destruct (_ || _ || _).
    + cbn zeta. set (s' := if contains_char "Z" s then replace_Z s else s).
      rewrite try_formats_with_now. cbn [to_datetime_utc with_now now].
      destruct (health_parser.try_formats pd s' health_parser.date_formats); [done|].
      destruct (to_datetime_utc pd s'); [done|].
      intros H. rewrite !bool_decide_eq_false_2 in H by (by intros [? ?]). done.
    + cbn [to_datetime with_now now]. destruct (to_datetime pd s); [done|].
      intros H. rewrite bool_decide_eq_false_2 in H by (by intros [? ?]). done.
  - cbn [to_datetime_container with_now now]. destruct (to_datetime_container pd b); [done|].
    intros H. rewrite bool_decide_eq_false_2 in H by (by intros [? ?]). done.
Qed.

Lemma extract_date_with_now r :
  well_dated pd r = true →
  health_parser._extract_date (with_now t pd) r = health_parser._extract_date pd r.
Proof.
  unfold well_dated, health_parser._extract_date.
  destruct (health_parser.first_present r health_parser.date_fields); [|done].
  apply safe_date_with_now.
Qed.

Lemma sample_rows_with_now rs :
  forallb (well_dated pd) rs = true →
  health_parser.sample_rows (with_now t pd) rs = health_parser.sample_rows pd rs.
Proof.
  induction rs as [|r rs IH]; [done|]. cbn [forallb health_parser.sample_rows].
  intros [Hr Hrs]%andb_prop. rewrite (extract_date_with_now r Hr), (IH Hrs). done.
Qed.

Lemma sleep_row_with_now r :
  well_dated pd r = true → well_ended pd r = true →
  health_parser.sleep_row_of (with_now t pd) r = health_parser.sleep_row_of pd r.
Proof.
  intros Hd He. unfold health_parser.sleep_row_of.
  rewrite (extract_date_with_now r Hd). unfold well_ended in He.
  destruct (health_parser.present r "endDate") as [v|].
  - by rewrite (safe_date_with_now v He).
  - destruct (health_parser.present r "End") as [v|]; [|done].
    by rewrite (safe_date_with_now v He).
Qed.

Lemma sleep_rows_with_now rs :
  forallb (fun r => well_dated pd r && well_ended pd r) rs = true →
  omap (health_parser.sleep_row_of (with_now t pd)) rs
  = omap (health_parser.sleep_row_of pd) rs.
Proof.
  induction rs as [|r rs IH]; [done|]. cbn [forallb].
  intros [[Hd He]%andb_prop Hrs]%andb_prop. cbn. rewrite (sleep_row_with_now r Hd He), (IH Hrs).
  done.
Qed.

Context (self : World) (Hdated : all_dated pd self = true).

Lemma dated_parts :
  forallb (well_dated pd) (health_parser.collect self health_parser.step_types) = true
  ∧ forallb (well_dated pd) (health_parser.collect self health_parser.hr_types) = true
  ∧ forallb (fun r => well_dated pd r && well_ended pd r)
            (health_parser.collect self health_parser.sleep_types) = true.
Proof.
  unfold all_dated in Hdated. rewrite !forallb_app in Hdated.
  apply andb_prop in Hdated as [Hs [Hh Hsl]%andb_prop].
  assert (Hweak : ∀ l, forallb (fun r => well_dated pd r && well_ended pd r) l = true →
                       forallb (well_dated pd) l = true).
  { intros l. rewrite !forallb_forall. intros H r Hr.
    by apply H, andb_prop in Hr as [? _]. }
  auto.
Qed.

Lemma step_count_data_with_now :
  health_parser.get_step_count_data (with_now t pd) self
  = health_parser.get_step_count_data pd self.
Proof.
  destruct dated_parts as (Hs & _ & _). unfold health_parser.get_step_count_data.
  by rewrite (sample_rows_with_now _ Hs).
Qed.

Lemma heart_rate_data_with_now :
  health_parser.get_heart_rate_data (with_now t pd) self
  = health_parser.get_heart_rate_data pd self.
Proof.
  destruct dated_parts as (_ & Hh & _). unfold health_parser.get_heart_rate_data.
  by rewrite (sample_rows_with_now _ Hh).
Qed.

Lemma sleep_analysis_data_with_now :
  health_parser.get_sleep_analysis_data (with_now t pd) self
  = health_parser.get_sleep_analysis_data pd self.
Proof.
  destruct dated_parts as (_ & _ & Hsl). unfold health_parser.get_sleep_analysis_data.
  by rewrite (sleep_rows_with_now _ Hsl).
Qed.

Lemma tables_with_now :
  health_parser.get_daily_step_count (with_now t pd) self
  = health_parser.get_daily_step_count pd self
  ∧ health_parser.get_heart_rate_data (with_now t pd) self
    = health_parser.get_heart_rate_data pd self
  ∧ health_parser.get_heart_rate_stats (with_now t pd) self
    = health_parser.get_heart_rate_stats pd self
  ∧ health_parser.get_sleep_duration_daily (with_now t pd) self
    = health_parser.get_sleep_duration_daily pd self
  ∧ health_parser.get_stress_indicators (with_now t pd) self
    = health_parser.get_stress_indicators pd self.
Proof.
  unfold health_parser.get_daily_step_count, health_parser.get_heart_rate_stats,
    health_parser.get_sleep_duration_daily, health_parser.get_stress_indicators.
  rewrite step_count_data_with_now, heart_rate_data_with_now, sleep_analysis_data_with_now.
  done.
Qed.

End clock.



(** * Further properties of the engine *)

(** ** The memory cache is a single slot *)

Lemma evict_app_last cache_path l (cache : gmap string cache_dict) :
  evict cache_path (l ++ [cache_path]) cache
  = ([cache_path],
     foldl (fun c old_path => if decide (old_path ≠ cache_path) then delete old_path c else c)
           cache l).
Proof.
  revert cache. induction l as [|old l IH]; intros cache; [done|].
  cbn [app evict]. rewrite decide_True.
  - by rewrite IH.
  - cbn. rewrite length_app. cbn. unfold MEMORY_CACHE_LIMIT. lia.
Qed.

Lemma foldl_delete_lookup cache_path l (cache : gmap string cache_dict) q :
  foldl (fun c old_path => if decide (old_path ≠ cache_path) then delete old_path c else c)
        cache l !! q
  = if decide (q ∈ l ∧ q ≠ cache_path) then None else cache !! q.
Proof.
  revert cache. induction l as [|old l IH]; intros cache; cbn [foldl].
  - rewrite decide_False; [done|]. intros [H _]. by apply elem_of_nil in H.
  - rewrite IH. destruct (decide (q ∈ l ∧ q ≠ cache_path)) as [[Hin Hne]|Hno].
    + rewrite decide_True; [done|]. split; [by right|done].
    + destruct (decide (old ≠ cache_path)) as [Hold|Hold].
      * destruct (decide (q = old)) as [->|Hq].
        -- rewrite lookup_delete_eq, decide_True; [done|]. split; [by left|done].
        -- rewrite lookup_delete_ne by done. rewrite decide_False; [done|].
           intros [Hin Hne]. apply elem_of_cons in Hin as [?|?]; [done|]. by apply Hno.
      * rewrite decide_False; [done|].
        intros [Hin Hne]. apply elem_of_cons in Hin as [->|?]; [|by apply Hno].
        apply Hold. done.
Qed.

Lemma elem_of_remove_first x q l : q ≠ x → q ∈ l → q ∈ remove_first x l.
Proof.
  intros Hne. induction l as [|y l IH]; [done|]. cbn.
  intros [->|Hin]%elem_of_cons.
  - rewrite decide_False by done. by left.
  - destruct (decide (y = x)); [done|]. right. by apply IH.
Qed.

(** X1.  [_store_memory_cache] keeps one slot: afterwards the order list
    is the stored path alone, the payload is under that path, every other
    path that was in the order list has been evicted, and no entry has
    been added besides the stored one. *)
Theorem store_memory_cache_single_slot cache_path payload w :
  let w' := (_store_memory_cache cache_path payload w).2 in
  MEMORY_CACHE_ORDER w' = [cache_path]
  ∧ MEMORY_CACHE w' !! cache_path = Some payload
  ∧ (∀ q, q ≠ cache_path → q ∈ MEMORY_CACHE_ORDER w → MEMORY_CACHE w' !! q = None)
  ∧ (∀ q d, q ≠ cache_path → MEMORY_CACHE w' !! q = Some d → MEMORY_CACHE w !! q = Some d).
Proof.
  unfold _store_memory_cache, modify. cbn [snd]. cbv zeta.
  rewrite evict_app_last. cbn [MEMORY_CACHE_ORDER MEMORY_CACHE set_memory].
  set (order := if decide (cache_path ∈ MEMORY_CACHE_ORDER w)
                then remove_first cache_path (MEMORY_CACHE_ORDER w)
                else MEMORY_CACHE_ORDER w).
  assert (Hin : ∀ q, q ≠ cache_path → q ∈ MEMORY_CACHE_ORDER w → q ∈ order).
  { intros q Hne Hq. unfold order. destruct (decide _); [by apply elem_of_remove_first|done]. }
  repeat split.
  - rewrite foldl_delete_lookup, decide_False by (by intros [_ ?]).
    apply lookup_insert_eq.
  - intros q Hne Hq. rewrite foldl_delete_lookup, decide_True; [done|]. split; auto.
  - intros q d Hne. rewrite foldl_delete_lookup.
    destruct (decide (q ∈ order ∧ q ≠ cache_path)); [discriminate|].
    by rewrite lookup_insert_ne.
Qed.

(** ** Misses *)

(** [_load_cache] without a usable stamp, or with no tier that holds a
    payload for the current version and stamp, answers [False] and leaves
    the world as it was: a missing, unreadable or foreign cache file, a
    version drift and a changed source are all plain misses. *)
Lemma load_cache_rejects e cache_path source_path w :
  match health_parser._get_source_stamp e source_path with
  | Ret (Some st) =>
      (∀ m, MEMORY_CACHE w !! cache_path = Some m → ¬ payload_matches st m)
      ∧ (∀ d, disk w !! cache_path = Some (Pickled d) → ¬ payload_matches st d)
  | Ret None => True
  | Raise _ => disk w !! cache_path = None
  end →
  health_parser._load_cache e cache_path source_path w = (Ret false, w).
Proof.
  intros Hcase. unfold health_parser._load_cache, read_pickle. mstep.
  repeat (case_match; cbn in *; simplify_eq); try done.
  all: exfalso.
  all: repeat match goal with
       | H : _ && _ = true |- _ => apply andb_prop in H as [? ?]
       | H : negb _ = false |- _ => apply negb_false_iff in H
       | H : bool_decide _ = true |- _ => apply bool_decide_eq_true_1 in H
       end.
  all: first
         [ match goal with
           | H : is_Some (disk _ !! _) |- _ => rewrite Hcase in H; by destruct H
           end
         | destruct Hcase as [Hmem Hdisk];
           first [ by eapply Hmem; [done|split] | by eapply Hdisk; [done|split] ] ].
Qed.

(** X2.  Cache invalidation: once a save has gone through, a source whose
    stamp has changed since (another mtime or size) is a miss in both
    tiers: [_load_cache] answers [False] and leaves the parser, the caches
    and the output as they were. *)
Theorem cache_invalidated_by_changed_stamp e1 e2 cache_path source_path st st' w w1 w2 :
  health_parser._get_source_stamp e1 source_path = Ret (Some st) →
  io_succeeds e1 cache_path →
  health_parser._save_cache e1 cache_path source_path w = (Ret tt, w1) →
  health_parser._get_source_stamp e2 source_path = Ret (Some st') →
  st' ≠ st →
  disk w2 !! cache_path = disk w1 !! cache_path →
  (MEMORY_CACHE w2 !! cache_path = MEMORY_CACHE w1 !! cache_path
   ∨ MEMORY_CACHE w2 !! cache_path = None) →
  health_parser._load_cache e2 cache_path source_path w2 = (Ret false, w2).
Proof.
  intros Hst1 Hio Hsave Hst2 Hne Hdisk Hmem.
  destruct (save_cache_success e1 cache_path source_path w st Hst1 Hio)
    as (w1' & Hsave' & Hd1 & Hm1 & _).
  rewrite Hsave in Hsave'. injection Hsave' as <-.
  apply load_cache_rejects. rewrite Hst2. split.
  - intros m Hm [_ Hs]. destruct Hmem as [Hmem|Hmem]; rewrite Hmem in Hm; [|done].
    rewrite Hm1 in Hm. injection Hm as <-. cbn in Hs. congruence.
  - intros d Hd [_ Hs]. rewrite Hdisk, Hd1, lookup_insert_eq in Hd.
    injection Hd as <-. cbn in Hs. congruence.
Qed.

Lemma cache_invalidated_by_changed_stamp_witness :
  health_parser._load_cache fixtures_more.touched_file fixtures_cache.cache_file
    "/data/u1/export.xml" fixtures_cache.new_process
  = (Ret false, fixtures_cache.new_process).
Proof.
  apply (cache_invalidated_by_changed_stamp fixtures_cache.export_file
           fixtures_more.touched_file fixtures_cache.cache_file "/data/u1/export.xml"
           fixtures_cache.export_stamp fixtures_more.touched_stamp
           fixtures_cache.one_record fixtures_cache.after_save fixtures_cache.new_process).
  - reflexivity.
  - split; reflexivity.
  - reflexivity.
  - reflexivity.
  - discriminate.
  - reflexivity.
  - right. reflexivity.
Defined.

(** X3.  A cache file that is missing, cannot be unpickled, holds no
    dict, or holds a payload of another version or another stamp is a
    miss and no error, as long as the memory tier has no matching payload
    either: [_load_cache] answers [False] and touches nothing. *)
Theorem unusable_cache_file_is_miss e cache_path source_path st w :
  health_parser._get_source_stamp e source_path = Ret (Some st) →
  (∀ m, MEMORY_CACHE w !! cache_path = Some m → ¬ payload_matches st m) →
  (∀ d, disk w !! cache_path = Some (Pickled d) →
        cd_cache_version d ≠ Some CACHE_VERSION ∨ cd_source_stamp d ≠ Some st) →
  health_parser._load_cache e cache_path source_path w = (Ret false, w).
Proof.
  intros Hst Hmem Hdisk. apply load_cache_rejects. rewrite Hst. split; [done|].
  intros d Hd [Hv Hs]. by destruct (Hdisk d Hd).
Qed.

Lemma unusable_cache_file_is_miss_witness :
  health_parser._load_cache fixtures_cache.export_file fixtures_cache.cache_file
    "/data/u1/export.xml" fixtures_more.corrupt_cache_on_disk
  = (Ret false, fixtures_more.corrupt_cache_on_disk).
Proof.
  apply (unusable_cache_file_is_miss fixtures_cache.export_file fixtures_cache.cache_file
           "/data/u1/export.xml" fixtures_cache.export_stamp).
  - reflexivity.
  - intros m Hm. vm_compute in Hm. discriminate Hm.
  - intros d Hd. vm_compute in Hd. discriminate Hd.
Defined.

(** X4.  [_load_cache] has no exception of its own: when it raises, the
    exception is the one the stamp computation raised, and the world is
    as it was. *)
Theorem load_cache_raises_only_from_stamp e cache_path source_path w ex :
  (health_parser._load_cache e cache_path source_path w).1 = Raise ex →
  health_parser._get_source_stamp e source_path = Raise ex
  ∧ (health_parser._load_cache e cache_path source_path w).2 = w.
Proof.
  unfold health_parser._load_cache, read_pickle. mstep.
  repeat (case_match; cbn in *; simplify_eq); try done;
    repeat match goal with
    | Hs : _store_memory_cache ?c ?p ?w1 = _ |- _ =>
        destruct (store_memory_cache_spec c p w1) as (w2 & E & _);
        rewrite E in Hs; simplify_eq; cbn in *
    end; try done.
  all: by intros [= ->].
Qed.

Lemma load_cache_raises_only_from_stamp_witness :
  health_parser._get_source_stamp fixtures_more.exhausted "/data/u1/export.xml"
  = Raise recursion_error
  ∧ (health_parser._load_cache fixtures_more.exhausted fixtures_cache.cache_file
       "/data/u1/export.xml" fixtures_cache.new_process).2 = fixtures_cache.new_process.
Proof.
  apply (load_cache_raises_only_from_stamp fixtures_more.exhausted fixtures_cache.cache_file
           "/data/u1/export.xml" fixtures_cache.new_process recursion_error).
  reflexivity.
Defined.

(** ** Stamps *)

(** X5.  The stamp of a source that is no directory is a fingerprint of
    what [os.stat] answers: on two machines the stamps of the path are
    equal exactly when the file is missing on both or has the same mtime
    and the same size on both. *)
Theorem file_stamp_tracks_mtime_and_size e1 e2 source_path :
  e_isdir e1 source_path = false → e_isdir e2 source_path = false →
  (0 < e_depth e1)%nat → (0 < e_depth e2)%nat →
  health_parser._get_source_stamp e1 source_path
  = health_parser._get_source_stamp e2 source_path
  ↔ match e_stat e1 source_path, e_stat e2 source_path with
    | Some s1, Some s2 => st_mtime s1 = st_mtime s2 ∧ st_size s1 = st_size s2
    | None, None => True
    | _, _ => False
    end.
Proof.
  intros Hf1 Hf2 Hd1 Hd2. unfold health_parser._get_source_stamp.
  destruct (e_depth e1) as [|d1]; [lia|]. destruct (e_depth e2) as [|d2]; [lia|].
  cbn. rewrite Hf1, Hf2. unfold stat_or_none.
  destruct (e_stat e1 source_path) as [[m1 s1]|], (e_stat e2 source_path) as [[m2 s2]|];
    cbn; split; try done.
  - by intros [= -> ->].
  - by intros [-> ->].
Qed.

Lemma file_stamp_tracks_mtime_and_size_witness :
  health_parser._get_source_stamp fixtures_cache.export_file "/data/u1/export.xml"
  = health_parser._get_source_stamp fixtures_more.touched_file "/data/u1/export.xml"
  ↔ 50 = 51 ∧ 1000 = 1000.
Proof.
  apply (file_stamp_tracks_mtime_and_size fixtures_cache.export_file
           fixtures_more.touched_file "/data/u1/export.xml").
  - reflexivity.
  - reflexivity.
  - cbn. lia.
  - cbn. lia.
Defined.

(** X6.  The stamp of a directory is the stamp of the first export file
    found in it, the matches of [export.xml] coming before those of
    [輸出.xml]; the directory's own mtime is not looked at.  A directory
    without export file is stamped by its own mtime, without size. *)
Theorem directory_stamp_delegates e source_path :
  e_isdir e source_path = true →
  (2 ≤ e_depth e)%nat →
  match e_glob e source_path EXPORT_XML ++ e_glob e source_path SHUCHU_XML with
  | first :: _ =>
      e_isdir e first = false →
      health_parser._get_source_stamp e source_path
      = Ret (file_stamp first <$> e_stat e first)
  | [] =>
      health_parser._get_source_stamp e source_path
      = Ret (dir_stamp source_path <$> e_stat e source_path)
  end.
Proof.
  intros Hdir Hdepth. unfold health_parser._get_source_stamp.
  destruct (e_depth e) as [|[|d]]; [lia..|].
  cbn [health_parser._get_source_stamp_at]. rewrite Hdir.
  destruct (e_glob e source_path EXPORT_XML ++ e_glob e source_path SHUCHU_XML)
    as [|first rest].
  - unfold stat_or_none. by destruct (e_stat e source_path).
  - intros Hfile. rewrite Hfile. unfold stat_or_none. by destruct (e_stat e first).
Qed.

Lemma directory_stamp_delegates_witness :
  health_parser._get_source_stamp fixtures_more.two_names_dir "/data/u3"
  = Ret (Some {| stamp_type := SFile; stamp_path := "/data/u3/export.xml";
                 stamp_mtime := 60; stamp_size := Some 2000 |}).
Proof.
  apply (directory_stamp_delegates fixtures_more.two_names_dir "/data/u3").
  - reflexivity.
  - cbn. lia.
  - reflexivity.
Defined.

(** ** The dashboard cache *)

(** X7.  Round trip of the dashboard cache: when the stamp is available
    and the writes go through, [save_dashboard_cache] answers [True], and
    a later [load_dashboard_cache] of the same source under the same
    stamp, the cache file untouched in between, returns the payload with
    the statistics, chart and data types that were saved. *)
Theorem dashboard_round_trip e1 e2 source_path st stats dashboard_chart data_types w w2 :
  dashboard_cache._get_source_stamp e1 source_path = Ret (Some st) →
  io_succeeds e1 (dashboard_cache._cache_path_for_source e1 source_path) →
  dashboard_cache._get_source_stamp e2 source_path = Ret (Some st) →
  e_isdir e2 source_path = e_isdir e1 source_path →
  ∃ w1,
    dashboard_cache.save_dashboard_cache e1 source_path stats dashboard_chart data_types w
    = (Ret true, w1)
    ∧ (disk w2 !! dashboard_cache._cache_path_for_source e1 source_path
       = disk w1 !! dashboard_cache._cache_path_for_source e1 source_path →
       dashboard_cache.load_dashboard_cache e2 source_path w2
       = (Ret (Some (dashboard_payload st stats dashboard_chart data_types)), w2)).
Proof.
  intros Hst1 Hio Hst2 Hdir.
  set (cache_path := dashboard_cache._cache_path_for_source e1 source_path) in *.
  assert (Hcp : dashboard_cache._cache_path_for_source e2 source_path = cache_path).
  { unfold cache_path, dashboard_cache._cache_path_for_source. by rewrite Hdir. }
  eexists. split.
  - unfold dashboard_cache.save_dashboard_cache. rewrite Hst1.
    unfold mbind at 1, M_bind at 1, lift at 1. fold cache_path.
    fold (tmp_of cache_path). fold (dashboard_payload st stats dashboard_chart data_types).
    cbn zeta. unfold try_except. rewrite seq_assoc.
    rewrite (seq_ret _ _ _ _ _ (successful_writes e1 cache_path _ w Hio)). reflexivity.
  - cbn. rewrite lookup_insert_eq. intros Hdisk.
    unfold dashboard_cache.load_dashboard_cache. rewrite Hcp.
    unfold read_pickle, lift, try_except. mstep. rewrite Hst2. mstep.
    rewrite Hdisk. cbn. rewrite Hdisk. cbn.
    rewrite !bool_decide_eq_true_2 by done. done.
Qed.

Lemma dashboard_round_trip_witness :
  ∃ w1,
    dashboard_cache.save_dashboard_cache fixtures_cache.export_file "/data/u1/export.xml"
      "stats" "chart" [KStr "Steps"] fixtures_cache.one_record
    = (Ret true, w1)
    ∧ (disk fixtures_more.dashboard_on_disk !! fixtures_more.dashboard_file
       = disk w1 !! fixtures_more.dashboard_file →
       dashboard_cache.load_dashboard_cache fixtures_cache.export_file "/data/u1/export.xml"
         fixtures_more.dashboard_on_disk
       = (Ret (Some (dashboard_payload fixtures_cache.export_stamp "stats" "chart"
                       [KStr "Steps"])),
          fixtures_more.dashboard_on_disk)).
Proof.
  apply (dashboard_round_trip fixtures_cache.export_file fixtures_cache.export_file
           "/data/u1/export.xml" fixtures_cache.export_stamp).
  - reflexivity.
  - split; reflexivity.
  - reflexivity.
  - reflexivity.
Defined.

(** X8.  [load_dashboard_cache] only reads: it never raises unless the
    stamp computation does, it leaves the world as it was, and a payload
    it returns is the dict of the cache file, of the current version and
    carrying the stamp the source has now. *)
Theorem load_dashboard_cache_sound e source_path w :
  (dashboard_cache.load_dashboard_cache e source_path w).2 = w
  ∧ (∀ ex, (dashboard_cache.load_dashboard_cache e source_path w).1 = Raise ex →
           dashboard_cache._get_source_stamp e source_path = Raise ex)
  ∧ (∀ payload,
       (dashboard_cache.load_dashboard_cache e source_path w).1 = Ret (Some payload) →
       disk w !! dashboard_cache._cache_path_for_source e source_path = Some (Pickled payload)
       ∧ cd_cache_version payload = Some DASHBOARD_CACHE_VERSION
       ∧ dashboard_cache._get_source_stamp e source_path = Ret (cd_source_stamp payload)).
Proof.
  unfold dashboard_cache.load_dashboard_cache, read_pickle, lift, try_except. mstep.
  repeat (case_match; cbn in *; simplify_eq); repeat split; try done; intros;
    simplify_eq; try done.
  all: repeat match goal with
  | H : negb _ = false |- _ => apply negb_false_iff, bool_decide_eq_true_1 in H
  end.
  all: congruence.
Qed.

Lemma load_dashboard_cache_sound_witness :
  disk fixtures_more.dashboard_on_disk !! fixtures_more.dashboard_file
  = Some (Pickled (dashboard_payload fixtures_cache.export_stamp "stats" "chart"
                     [KStr "Steps"]))
  ∧ Some DASHBOARD_CACHE_VERSION = Some DASHBOARD_CACHE_VERSION
  ∧ dashboard_cache._get_source_stamp fixtures_cache.export_file "/data/u1/export.xml"
    = Ret (Some fixtures_cache.export_stamp).
Proof.
  apply (load_dashboard_cache_sound fixtures_cache.export_file "/data/u1/export.xml"
           fixtures_more.dashboard_on_disk).
  reflexivity.
Defined.

(** ** What the readers store *)

Lemma stored_nil w w' :
  records w' = records w → record_types w' = record_types w → disk w' = disk w →
  MEMORY_CACHE w' = MEMORY_CACHE w → MEMORY_CACHE_ORDER w' = MEMORY_CACHE_ORDER w →
  stored [] w w'.
Proof. intros. unfold stored. rewrite app_nil_r. done. Qed.

Lemma stored_refl w : stored [] w w.
Proof. by apply stored_nil. Qed.

Lemma stored_app a b w w1 w2 : stored a w w1 → stored b w1 w2 → stored (a ++ b) w w2.
Proof.
  intros (Ha1 & Ha2 & Ha3 & Ha4 & Ha5) (Hb1 & Hb2 & Hb3 & Hb4 & Hb5). unfold stored.
  rewrite Hb1, Ha1, Hb2, Ha2, foldl_app, app_assoc. repeat split; congruence.
Qed.

Lemma stored_event rs w w' ev : stored rs w w' → stored rs w (add_event ev w').
Proof. intros H. exact H. Qed.

Lemma bucket_indexed ix r k :
  bucket (indexed ix r) k = bucket ix k ++ (if decide (type_key r = Some k) then [r] else []).
Proof.
  unfold bucket, indexed. destruct (type_key r) as [key|] eqn:Hk.
  - rewrite bucket_append_lookup. destruct (decide (k = key)) as [->|Hne].
    + by rewrite decide_True.
    + rewrite decide_False by congruence. by rewrite app_nil_r.
  - rewrite decide_False by done. by rewrite app_nil_r.
Qed.

(** The bucket of a type after records were indexed: the old bucket, then
    the new records of this type in their order. *)
Lemma bucket_foldl_indexed rs ix k :
  bucket (foldl indexed ix rs) k = bucket ix k ++ filter (fun r => type_key r = Some k) rs.
Proof.
  revert ix. induction rs as [|r rs IH]; intros ix; cbn [foldl].
  - by rewrite filter_nil, app_nil_r.
  - rewrite IH, bucket_indexed, filter_cons. destruct (decide (type_key r = Some k)).
    + by rewrite <- app_assoc.
    + by rewrite app_nil_r.
Qed.

Lemma stored_buckets rs w w' k :
  stored rs w w' →
  bucket (record_types w') k
  = bucket (record_types w) k ++ filter (fun r => type_key r = Some k) rs.
Proof. intros (_ & -> & _). apply bucket_foldl_indexed. Qed.

Lemma store_step r w :
  (health_parser.append_record r ;; health_parser.index_record r) w
  = if unhashable r
    then (Raise (Exn TypeError "unhashable type"),
          set_store (records w ++ [r]) (record_types w) w)
    else (Ret tt, set_store (records w ++ [r]) (indexed (record_types w) r) w).
Proof.
  unfold health_parser.append_record, health_parser.index_record, unhashable, indexed, type_key.
  mstep. destruct (truthy (default VNone (r !! "type"))); cbn; [|done].
  destruct (hash_key (default VNone (r !! "type"))); cbn; done.
Qed.

Lemma store_step_stored r w :
  stored [r] w ((health_parser.append_record r ;; health_parser.index_record r) w).2.
Proof.
  rewrite store_step. unfold stored.
  destruct (unhashable r) eqn:Hu; cbn; repeat split; try done.
  unfold indexed, type_key. unfold unhashable in Hu.
  destruct (truthy (default VNone (r !! "type"))); [|done].
  cbn in Hu. apply bool_decide_eq_true_1 in Hu. by rewrite Hu.
Qed.

Lemma attrib_record_hashable a : unhashable (health_parser.attrib_record a) = false.
Proof.
  unfold unhashable, health_parser.attrib_record. rewrite lookup_fmap.
  destruct (a !! "type"); cbn; [|done]. by rewrite andb_false_r.
Qed.

Lemma xml_records_cons ev evs :
  xml_records (ev :: evs)
  = (if decide (ev_tag ev = "Record") then [health_parser.attrib_record (ev_attrib ev)] else [])
    ++ xml_records evs.
Proof. unfold xml_records. rewrite filter_cons. by destruct (decide _). Qed.

Lemma xml_step_stored progress_callback total_size ev loc w :
  ∃ loc' w',
    health_parser.xml_step progress_callback total_size ev loc w = (Ret loc', w')
    ∧ stored (if decide (ev_tag ev = "Record")
              then [health_parser.attrib_record (ev_attrib ev)] else []) w w'.
Proof.
  unfold health_parser.xml_step.
  destruct (decide (ev_tag ev = "Record")) as [Htag|Htag].
  - rewrite (bool_decide_eq_true_2 _ Htag).
    pose proof (store_step (health_parser.attrib_record (ev_attrib ev)) w) as Hstep.
    pose proof (store_step_stored (health_parser.attrib_record (ev_attrib ev)) w) as Hst.
    rewrite attrib_record_hashable in Hstep.
    unfold mbind, M_bind in *.
    destruct (health_parser.append_record _ w) as [[[]|?] w1]; [|done].
    destruct (health_parser.index_record _ w1) as [[[]|?] w2]; [|done].
    cbn in Hst.
    destruct (progress_callback && _ && _); [destruct (bool_decide (_ ≠ _))|];
      mstep; eexists _, _; (split; [reflexivity|]); done.
  - rewrite (bool_decide_eq_false_2 _ Htag). eexists _, _. split; [reflexivity|].
    apply stored_refl.
Qed.

Lemma xml_loop_stored progress_callback total_size evs loc w :
  ∃ loc' w',
    health_parser.xml_loop progress_callback total_size evs loc w = (Ret loc', w')
    ∧ stored (xml_records evs) w w'.
Proof.
  revert loc w. induction evs as [|ev evs IH]; intros loc w.
  - eexists _, _. split; [reflexivity|]. apply stored_refl.
  - cbn [health_parser.xml_loop]. rewrite xml_records_cons.
    destruct (xml_step_stored progress_callback total_size ev loc w) as (loc1 & w1 & E1 & S1).
    destruct (IH loc1 w1) as (loc2 & w2 & E2 & S2).
    unfold mbind, M_bind. rewrite E1, E2. eexists _, _. split; [done|].
    by eapply stored_app.
Qed.

Lemma csv_record_step_eq row w :
  health_parser.csv_record_step row w
  = if bool_decide (is_Some (row !! "type")) then
      if unhashable row
      then (Raise (Exn TypeError "unhashable type"),
            set_store (records w ++ [row]) (record_types w) w)
      else (Ret tt, set_store (records w ++ [row]) (indexed (record_types w) row) w)
    else (Ret tt, w).
Proof.
  unfold health_parser.csv_record_step.
  destruct (bool_decide (is_Some (row !! "type"))); [apply store_step|done].
Qed.

Lemma json_record_step_eq item w :
  health_parser.json_record_step item w
  = match item with
    | JObject row => health_parser.csv_record_step row w
    | JOther => (Ret tt, w)
    end.
Proof. by destruct item. Qed.

(** The rows of one file, as the loops of the JSON and CSV readers store
    them: the loop ends normally or with the [TypeError] of a row. *)
Lemma csv_rows_stored rows w :
  ∃ r w', for_each rows health_parser.csv_record_step w = (r, w')
          ∧ stored (kept_rows rows) w w' ∧ events w' = events w.
Proof.
  revert w. induction rows as [|row rows IH]; intros w.
  - eexists _, _. split; [reflexivity|]. split; [apply stored_refl|done].
  - cbn [for_each kept_rows]. unfold mbind, M_bind. rewrite csv_record_step_eq.
    pose proof (store_step_stored row w) as Hst. rewrite store_step in Hst.
    destruct (bool_decide (is_Some (row !! "type"))); [|apply IH].
    destruct (unhashable row).
    + eexists _, _. split; [reflexivity|]. done.
    + destruct (IH (set_store (records w ++ [row]) (indexed (record_types w) row) w))
        as (r & w' & E & S & Hev).
      rewrite E. eexists _, _. split; [reflexivity|]. split; [|done].
      change (row :: kept_rows rows) with ([row] ++ kept_rows rows).
      by eapply stored_app.
Qed.

Lemma json_rows_stored items w :
  ∃ r w', for_each items health_parser.json_record_step w = (r, w')
          ∧ stored (kept_rows (json_rows items)) w w' ∧ events w' = events w.
Proof.
  revert w. induction items as [|item items IH]; intros w.
  - eexists _, _. split; [reflexivity|]. split; [apply stored_refl|done].
  - cbn [for_each]. unfold mbind, M_bind. rewrite json_record_step_eq.
    destruct item as [row|]; [|apply IH].
    change (json_rows (JObject row :: items)) with (row :: json_rows items).
    cbn [kept_rows]. rewrite csv_record_step_eq.
    pose proof (store_step_stored row w) as Hst. rewrite store_step in Hst.
    destruct (bool_decide (is_Some (row !! "type"))); [|apply IH].
    destruct (unhashable row).
    + eexists _, _. split; [reflexivity|]. done.
    + destruct (IH (set_store (records w ++ [row]) (indexed (record_types w) row) w))
        as (r & w' & E & S & Hev).
      rewrite E. eexists _, _. split; [reflexivity|]. split; [|done].
      change (row :: kept_rows (json_rows items))
        with ([row] ++ kept_rows (json_rows items)).
      by eapply stored_app.
Qed.

Lemma json_file_stored e json_file w :
  ∃ w', try_except
          (data ← lift (e_json e json_file);
           match data with
           | JList items => for_each items health_parser.json_record_step
           | JNotList => mret tt
           end)
          (fun ex => print ("Error parsing JSON file " +:+ json_file +:+ ": " +:+ exn_msg ex)) w
        = (Ret tt, w')
        ∧ stored (json_file_records e json_file) w w'.
Proof.
  unfold json_file_records, try_except, lift, print, modify. unfold mbind at 1, M_bind at 1.
  destruct (e_json e json_file) as [[items|]|ex].
  - destruct (json_rows_stored items w) as ([[]|ex] & w' & -> & S & _);
      eexists; (split; [reflexivity|]); done.
  - eexists; split; [reflexivity|]. by apply stored_nil.
  - eexists; split; [reflexivity|]. by apply stored_nil.
Qed.

Lemma json_files_stored e json_files w :
  ∃ w', for_each json_files (fun json_file =>
          try_except
            (data ← lift (e_json e json_file);
             match data with
             | JList items => for_each items health_parser.json_record_step
             | JNotList => mret tt
             end)
            (fun ex =>
               print ("Error parsing JSON file " +:+ json_file +:+ ": " +:+ exn_msg ex))) w
        = (Ret tt, w')
        ∧ stored (concat (json_file_records e <$> json_files)) w w'.
Proof.
  revert w. induction json_files as [|json_file rest IH]; intros w.
  - eexists. split; [reflexivity|]. apply stored_refl.
  - cbn [for_each fmap list_fmap concat]. unfold mbind at 1, M_bind at 1.
    destruct (json_file_stored e json_file w) as (w1 & -> & S1).
    destruct (IH w1) as (w2 & -> & S2). eexists. split; [reflexivity|].
    by eapply stored_app.
Qed.

Lemma parse_json_files_stored e directory_path w :
  ∃ w', health_parser.parse_json_files e directory_path w
        = (Ret (bool_decide (0 < length (records w'))%nat), w')
        ∧ stored (concat (json_file_records e <$> e_glob e directory_path "*.json")) w w'.
Proof.
  unfold health_parser.parse_json_files, try_except at 1.
  unfold mbind at 1, M_bind at 1.
  destruct (json_files_stored e (e_glob e directory_path "*.json") w) as (w' & -> & S).
  cbn. by exists w'.
Qed.

(** X9.  What [parse_json_files] stores: the dicts with a ["type"] key of
    every JSON file that can be read and holds a list, file after file in
    the order of the listing and in the order of the list, each appended
    to [self.records] and to the bucket of its type.  A file that cannot
    be read or holds no list contributes nothing; a dict whose type cannot
    be hashed is appended to the sequence and ends its file, the files
    after it are still read.  No file is written, no exception leaves the
    method, and the answer is whether the store holds a record at the
    end, whoever put it there. *)
Theorem parse_json_files_stores e directory_path w :
  let rs := concat (json_file_records e <$> e_glob e directory_path "*.json") in
  ∃ w', health_parser.parse_json_files e directory_path w
        = (Ret (bool_decide (0 < length (records w'))%nat), w')
        ∧ records w' = records w ++ rs
        ∧ (∀ k, bucket (record_types w') k
                = bucket (record_types w) k ++ filter (fun r => type_key r = Some k) rs)
        ∧ disk w' = disk w.
Proof.
  intros rs. destruct (parse_json_files_stored e directory_path w) as (w' & E & S).
  exists w'. split; [done|]. split; [apply S|]. split; [|apply S].
  intros k. by apply stored_buckets.
Qed.

Lemma csv_file_stored e csv_file w :
  ∃ w', try_except
          (encoding ← try_except_cls UnicodeDecodeError
                        (lift (e_readline_utf8 e csv_file) ;; mret Utf8)
                        (fun _ => mret Latin1);
           df ← lift (e_read_csv e csv_file encoding);
           let has_health_columns :=
             existsb (fun col => bool_decide (col ∈ df_columns df))
                     health_parser.health_data_columns in
           if has_health_columns then for_each (df_rows df) health_parser.csv_record_step
           else mret tt)
          (fun ex => print ("Error parsing CSV file " +:+ csv_file +:+ ": " +:+ exn_msg ex)) w
        = (Ret tt, w')
        ∧ stored (csv_file_records e csv_file) w w'.
Proof.
  unfold csv_file_records, csv_encoding, try_except_cls, try_except, lift, print, modify, raise.
  unfold mbind at 1 2 3, M_bind at 1 2 3, mret, M_ret.
  assert (Hrest : ∀ encoding, ∃ w',
    (let (o, w1) :=
       let (o, w1) := (e_read_csv e csv_file encoding, w) in
       match o with
       | Ret df =>
           (if existsb (fun col => bool_decide (col ∈ df_columns df))
                       health_parser.health_data_columns
            then for_each (df_rows df) health_parser.csv_record_step
            else fun w => (Ret tt, w)) w1
       | Raise ex => (Raise ex, w1)
       end in
     match o with
     | Ret a => (Ret a, w1)
     | Raise ex =>
         (Ret tt, add_event (Printed ("Error parsing CSV file " +:+ csv_file +:+ ": "
                                      +:+ exn_msg ex)) w1)
     end) = (Ret tt, w')
    ∧ stored match e_read_csv e csv_file encoding with
             | Ret df =>
                 if existsb (fun col => bool_decide (col ∈ df_columns df))
                            health_parser.health_data_columns
                 then kept_rows (df_rows df) else []
             | Raise _ => []
             end w w').
  { intros encoding. destruct (e_read_csv e csv_file encoding) as [df|ex].
    - destruct (existsb _ _).
      + destruct (csv_rows_stored (df_rows df) w) as ([[]|ex] & w' & -> & S & _);
          eexists; (split; [reflexivity|]); done.
      + eexists; split; [reflexivity|]. by apply stored_nil.
    - eexists; split; [reflexivity|]. by apply stored_nil. }
  destruct (e_readline_utf8 e csv_file) as [[]|ex].
  - apply Hrest.
  - destruct (decide (exn_cls ex = UnicodeDecodeError)).
    + apply Hrest.
    + eexists; split; [reflexivity|]. by apply stored_nil.
Qed.

Lemma csv_files_stored e csv_files w :
  ∃ w', for_each csv_files (fun csv_file =>
          try_except
            (encoding ← try_except_cls UnicodeDecodeError
                          (lift (e_readline_utf8 e csv_file) ;; mret Utf8)
                          (fun _ => mret Latin1);
             df ← lift (e_read_csv e csv_file encoding);
             let has_health_columns :=
               existsb (fun col => bool_decide (col ∈ df_columns df))
                       health_parser.health_data_columns in
             if has_health_columns then for_each (df_rows df) health_parser.csv_record_step
             else mret tt)
            (fun ex =>
               print ("Error parsing CSV file " +:+ csv_file +:+ ": " +:+ exn_msg ex))) w
        = (Ret tt, w')
        ∧ stored (concat (csv_file_records e <$> csv_files)) w w'.
Proof.
  revert w. induction csv_files as [|csv_file rest IH]; intros w.
  - eexists. split; [reflexivity|]. apply stored_refl.
  - cbn [for_each fmap list_fmap concat]. unfold mbind at 1, M_bind at 1.
    destruct (csv_file_stored e csv_file w) as (w1 & E1 & S1).
    cbn zeta in E1. rewrite E1.
    destruct (IH w1) as (w2 & E2 & S2). cbn zeta in E2. rewrite E2.
    eexists. split; [reflexivity|].
    by eapply stored_app.
Qed.

Lemma parse_csv_files_stored e directory_path w :
  ∃ w', health_parser.parse_csv_files e directory_path w
        = (Ret (bool_decide (0 < length (records w'))%nat), w')
        ∧ stored (concat (csv_file_records e <$> e_glob e directory_path "*.csv")) w w'.
Proof.
  unfold health_parser.parse_csv_files, try_except at 1.
  unfold mbind at 1, M_bind at 1.
  destruct (csv_files_stored e (e_glob e directory_path "*.csv") w) as (w' & E & S).
  cbn zeta in E. rewrite E. cbn. by exists w'.
Qed.

(** X10.  What [parse_csv_files] stores: the rows with a ["type"] key of
    every CSV file that can be read and has one of the columns [type],
    [startDate], [endDate], [value], in the order of the listing and of
    the rows.  The file is read as UTF-8, and as latin-1 exactly when
    reading its first line raises [UnicodeDecodeError]; any other error
    skips the file.  No file is written, no exception leaves the method,
    and the answer is whether the store holds a record at the end. *)
Theorem parse_csv_files_stores e directory_path w :
  let rs := concat (csv_file_records e <$> e_glob e directory_path "*.csv") in
  ∃ w', health_parser.parse_csv_files e directory_path w
        = (Ret (bool_decide (0 < length (records w'))%nat), w')
        ∧ records w' = records w ++ rs
        ∧ (∀ k, bucket (record_types w') k
                = bucket (record_types w) k ++ filter (fun r => type_key r = Some k) rs)
        ∧ disk w' = disk w.
Proof.
  intros rs. destruct (parse_csv_files_stored e directory_path w) as (w' & E & S).
  exists w'. split; [done|]. split; [apply S|]. split; [|apply S].
  intros k. by apply stored_buckets.
Qed.

(** [_save_cache] returns once the stamp is computed, and keeps the
    store. *)
Lemma save_cache_returns e cache_path source_path w st :
  health_parser._get_source_stamp e source_path = Ret st →
  ∃ w', health_parser._save_cache e cache_path source_path w = (Ret tt, w')
        ∧ records w' = records w ∧ record_types w' = record_types w.
Proof.
  intros Hst.
  destruct (save_cache_keeps_store e cache_path source_path w) as [Hr Ht].
  enough ((health_parser._save_cache e cache_path source_path w).1 = Ret tt) as Hret.
  { destruct (health_parser._save_cache e cache_path source_path w) as [r w'].
    cbn in *. subst r. by exists w'. }
  destruct st as [st|].
  - destruct (decide (io_succeeds e cache_path)) as [Hio|Hio].
    + by destruct (save_cache_success e cache_path source_path w st Hst Hio) as (w' & -> & _).
    + unfold health_parser._save_cache. rewrite Hst.
      unfold mbind at 1, M_bind at 1, lift at 1. unfold mbind at 1, M_bind at 1, get at 1.
      fold (tmp_of cache_path). fold (health_payload st w).
      unfold try_except. rewrite seq_assoc.
      destruct (failing_writes e cache_path (health_payload st w) w Hio)
        as (ex & w1 & Hrun & _).
      rewrite (seq_raise _ _ _ _ _ Hrun). unfold print, modify, mbind, M_bind.
      destruct (remove_if_exists_spec e (tmp_of cache_path)
                  (add_event (failure_line cache_path ex) w1)) as (w2 & Hrm & _).
      fold (failure_line cache_path ex). by rewrite Hrm.
  - unfold health_parser._save_cache. rewrite Hst. done.
Qed.

(** X11.  What [parse_xml] stores after a cache miss, for a document that
    is read to its end: the attributes of every [Record] element, in
    document order, appended to [self.records] and each to the bucket of
    its [type] attribute; elements with other tags contribute nothing.
    The answer is whether the store holds a record at the end, whether or
    not the cache could be written. *)
Theorem parse_xml_stores e xml_path progress_callback w w0 stream st :
  health_parser._load_cache e (health_parser._cache_path_for_source e xml_path) xml_path w
  = (Ret false, w0) →
  e_xml e xml_path = Ret stream →
  xs_error stream = None →
  health_parser._get_source_stamp e xml_path = Ret st →
  ∃ w', health_parser.parse_xml e xml_path progress_callback w
        = (Ret (bool_decide (0 < length (records w'))%nat), w')
        ∧ records w' = records w0 ++ xml_records (xs_events stream)
        ∧ (∀ k, bucket (record_types w') k
                = bucket (record_types w0) k
                  ++ filter (fun r => type_key r = Some k) (xml_records (xs_events stream))).
Proof.
  intros Hload Hxml Herr Hst. unfold health_parser.parse_xml, try_except.
  unfold mbind at 1, M_bind at 1. rewrite Hload.
  unfold mbind at 1, M_bind at 1, print at 1, modify at 1.
  unfold mbind at 1, M_bind at 1, lift at 1. rewrite Hxml.
  unfold mbind at 1, M_bind at 1.
  destruct (xml_loop_stored progress_callback (e_getsize e xml_path) (xs_events stream)
              {| health_parser.last_progress := -1; health_parser.record_count := 0;
                 health_parser.file_pos := 0 |}
              (add_event (Printed ("Parsing XML file: " +:+ xml_path)) w0))
    as (loc' & w1 & -> & S).
  rewrite Herr. unfold mbind at 1, M_bind at 1, mret at 1, M_ret at 1.
  unfold mbind at 1, M_bind at 1, get at 1.
  unfold mbind at 1, M_bind at 1, print at 1, modify at 1.
  unfold mbind at 1, M_bind at 1.
  match goal with
  | |- context [health_parser._save_cache e ?c xml_path ?w2] =>
      destruct (save_cache_returns e c xml_path w2 st Hst) as (w3 & -> & Hr & Ht)
  end.
  unfold mbind, M_bind, get, mret, M_ret. exists w3. split; [done|].
  rewrite Hr. split; [apply S|]. intros k. unfold bucket at 1. rewrite Ht.
  by apply (stored_buckets _ _ _ k) in S.
Qed.

Lemma parse_xml_stores_witness :
  ∃ w', health_parser.parse_xml fixtures_dir.mixed_dir "/data/u2/export.xml" true fixtures.fresh
        = (Ret (bool_decide (0 < length (records w'))%nat), w')
        ∧ records w' = records fixtures.fresh
                       ++ xml_records (xs_events fixtures_dir.export_stream)
        ∧ (∀ k, bucket (record_types w') k
                = bucket (record_types fixtures.fresh) k
                  ++ filter (fun r => type_key r = Some k)
                            (xml_records (xs_events fixtures_dir.export_stream))).
Proof.
  apply (parse_xml_stores fixtures_dir.mixed_dir "/data/u2/export.xml" true fixtures.fresh
           fixtures.fresh fixtures_dir.export_stream
           (Some {| stamp_type := SFile; stamp_path := "/data/u2/export.xml";
                    stamp_mtime := 50; stamp_size := Some 650 |})).
  - reflexivity.
  - reflexivity.
  - reflexivity.
  - reflexivity.
Defined.

(** X12.  A file that cannot be opened, or a document that is malformed
    from some element on, makes [parse_xml] answer [False] after printing
    the error and a traceback.  The records delivered before the error
    stay in the store, in the sequence and in their buckets; no cache
    file is written. *)
Theorem parse_xml_failure_keeps_prefix e xml_path progress_callback w w0 evs ex :
  health_parser._load_cache e (health_parser._cache_path_for_source e xml_path) xml_path w
  = (Ret false, w0) →
  xml_failure e xml_path = Some (evs, ex) →
  ∃ w' before,
    health_parser.parse_xml e xml_path progress_callback w = (Ret false, w')
    ∧ records w' = records w0 ++ xml_records evs
    ∧ (∀ k, bucket (record_types w') k
            = bucket (record_types w0) k ++ filter (fun r => type_key r = Some k) (xml_records evs))
    ∧ disk w' = disk w0
    ∧ events w' = before ++ [Printed ("Error parsing XML file: " +:+ exn_msg ex); Traceback].
Proof.
  intros Hload Hfail. unfold health_parser.parse_xml, try_except.
  unfold mbind at 1, M_bind at 1. rewrite Hload.
  unfold mbind at 1, M_bind at 1, print at 1, modify at 1.
  unfold mbind at 1, M_bind at 1, lift at 1. unfold xml_failure in Hfail.
  destruct (e_xml e xml_path) as [stream|ex'].
  - destruct (xs_error stream) as [ex'|] eqn:Herr; [|done]. cbn in Hfail.
    injection Hfail as <- <-.
    unfold mbind at 1, M_bind at 1.
    destruct (xml_loop_stored progress_callback (e_getsize e xml_path) (xs_events stream)
                {| health_parser.last_progress := -1; health_parser.record_count := 0;
                   health_parser.file_pos := 0 |}
                (add_event (Printed ("Parsing XML file: " +:+ xml_path)) w0))
      as (loc' & w1 & -> & S).
    unfold mbind at 1, M_bind at 1, raise at 1.
    unfold mbind, M_bind, print, print_exc, modify. eexists _, (events w1). cbn.
    split; [done|]. split; [apply S|]. split; [intros k; by apply stored_buckets|].
    split; [apply S|]. cbn. by rewrite <- app_assoc.
  - injection Hfail as <- <-.
    unfold mbind, M_bind, print, print_exc, modify. eexists _, _.
    split; [done|]. change (xml_records []) with (@nil record).
    split; [cbn; by rewrite app_nil_r|].
    split; [intros k; by rewrite filter_nil, app_nil_r|].
    split; [done|]. cbn. by rewrite <- app_assoc.
Qed.

Lemma parse_xml_failure_keeps_prefix_witness :
  ∃ w' before,
    health_parser.parse_xml fixtures_more.truncated_export "/data/u1/export.xml" false
      fixtures.fresh = (Ret false, w')
    ∧ records w' = records fixtures.fresh
                   ++ xml_records (xs_events fixtures_more.truncated_stream)
    ∧ (∀ k, bucket (record_types w') k
            = bucket (record_types fixtures.fresh) k
              ++ filter (fun r => type_key r = Some k)
                        (xml_records (xs_events fixtures_more.truncated_stream)))
    ∧ disk w' = disk fixtures.fresh
    ∧ events w'
      = before ++ [Printed ("Error parsing XML file: "
                            +:+ "no element found: line 3, column 0"); Traceback].
Proof.
  apply (parse_xml_failure_keeps_prefix fixtures_more.truncated_export "/data/u1/export.xml"
           false fixtures.fresh fixtures.fresh (xs_events fixtures_more.truncated_stream)
           (Exn ParseError "no element found: line 3, column 0")).
  - reflexivity.
  - reflexivity.
Defined.

Lemma try_except_returns {A} (body : M A) handler w :
  (∀ ex w1, ∃ a w2, handler ex w1 = (Ret a, w2)) →
  ∃ a w', try_except body handler w = (Ret a, w').
Proof.
  intros Hh. unfold try_except. destruct (body w) as [[a|ex] w1]; [by eexists _, _|].
  apply Hh.
Qed.

(** X13.  No exception leaves the four readers: whatever the machine and
    the state of the parser, [parse_xml], [parse_json_files],
    [parse_csv_files] and [parse_directory] return a boolean, also when
    the stamp computation exhausts the recursion limit, a file cannot be
    read or a record type cannot be hashed. *)
Theorem readers_never_raise e path progress_callback w :
  (∃ b w', health_parser.parse_xml e path progress_callback w = (Ret b, w'))
  ∧ (∃ b w', health_parser.parse_json_files e path w = (Ret b, w'))
  ∧ (∃ b w', health_parser.parse_csv_files e path w = (Ret b, w'))
  ∧ (∃ b w', health_parser.parse_directory e path w = (Ret b, w')).
Proof.
  repeat split; apply try_except_returns; intros ex w1; by eexists _, _.
Qed.

(** ** Parsing twice *)

Lemma load_cache_true_cached e cache_path source_path w w1 st :
  health_parser._load_cache e cache_path source_path w = (Ret true, w1) →
  health_parser._get_source_stamp e source_path = Ret (Some st) →
  cached cache_path st w1 ∧ (0 < length (records w1))%nat.
Proof.
  intros Hload Hst. revert Hload.
  unfold health_parser._load_cache, read_pickle. mstep. rewrite Hst. cbn.
  destruct (bool_decide (is_Some (disk w !! cache_path))) eqn:Hex; cbn; [|done].
  apply bool_decide_eq_true_1 in Hex.
  assert (Hdisk :
    (let (o, w') :=
       let (o, w') :=
         let (o, w') :=
           match disk w !! cache_path with
           | Some (Pickled d) => λ w0 : World, (Ret (Some d), w0)
           | Some PickledOther => λ w0 : World, (Ret None, w0)
           | Some Garbage => λ w0 : World, (Raise (Exn PickleError "could not unpickle"), w0)
           | None => λ w0 : World, (Raise (Exn OSError "No such file or directory"), w0)
           end w in
         match o with
         | Ret a => (Ret (Some a), w')
         | Raise ex => (Raise ex, w')
         end in
       match o with
       | Ret a => (Ret a, w')
       | Raise _ => (Ret None, w')
       end in
     match o with
     | Ret a =>
         match a with
         | Some (Some payload) =>
             if negb (bool_decide (cd_cache_version payload = Some CACHE_VERSION))
             then λ w0 : World, (Ret false, w0)
             else
              if negb (bool_decide (cd_source_stamp payload = Some st))
              then λ w0 : World, (Ret false, w0)
              else
               λ w0 : World,
                 let (o0, w'0) :=
                   _store_memory_cache cache_path payload
                     (set_store (default [] (cd_records payload))
                        (default ∅ (cd_record_types payload)) w0) in
                 match o0 with
                 | Ret _ =>
                     (Ret (bool_decide
                             (0 < length (records
                                (add_event
                                   (Printed ("Loaded cached health data from " +:+ cache_path))
                                   w'0)))%nat),
                      add_event (Printed ("Loaded cached health data from " +:+ cache_path)) w'0)
                 | Raise ex => (Raise ex, w'0)
                 end
         | _ => λ w0 : World, (Ret false, w0)
         end w'
     | Raise ex => (Raise ex, w')
     end) = (Ret true, w1) →
    cached cache_path st w1 ∧ (0 < length (records w1))%nat).
  { destruct (disk w !! cache_path) as [[d| |]|] eqn:Hd; cbn; try done.
    destruct (bool_decide (cd_cache_version d = Some CACHE_VERSION)) eqn:Hv; cbn; [|done].
    destruct (bool_decide (cd_source_stamp d = Some st)) eqn:Hs; cbn; [|done].
    apply bool_decide_eq_true_1 in Hv, Hs.
    match goal with
    | |- context [_store_memory_cache ?c ?p ?w0] =>
        destruct (store_memory_cache_spec c p w0) as (w2 & -> & Hm & Hr & Ht & Hdk & _)
    end.
    cbn. intros [= Hlen <-]. apply bool_decide_eq_true_1 in Hlen.
    split; [|done]. split; [cbn; rewrite Hdk; cbn; by rewrite Hd|].
    exists d. cbn. by rewrite Hm, Hr, Ht. }
  destruct (MEMORY_CACHE w !! cache_path) as [m|] eqn:Hm; [|exact Hdisk].
  destruct (dict_truthy m && bool_decide (cd_cache_version m = Some CACHE_VERSION)
            && bool_decide (cd_source_stamp m = Some st)) eqn:Hok; [|exact Hdisk].
  cbn. intros [= Hlen <-]. apply bool_decide_eq_true_1 in Hlen.
  apply andb_prop in Hok as [Hok Hs]. apply andb_prop in Hok as [_ Hv].
  apply bool_decide_eq_true_1 in Hv, Hs.
  split; [|done]. split; [done|]. exists m. done.
Qed.

Lemma cached_add_event cache_path st w ev :
  cached cache_path st w → cached cache_path st (add_event ev w).
Proof. intros H. exact H. Qed.

(** X14.  Parsing twice: once [parse_xml] has answered [True] for a file
    whose stamp is available and whose cache can be written, the store is
    in the memory cache, and the next [parse_xml] of this file, as long as
    its stamp is the same, answers [True] with the same store whatever the
    file now contains: the file is not read again. *)
Theorem parse_xml_again_served_from_cache e e' xml_path st cb cb' w w1 :
  health_parser._get_source_stamp e xml_path = Ret (Some st) →
  io_succeeds e (health_parser._cache_path_for_source e xml_path) →
  health_parser.parse_xml e xml_path cb w = (Ret true, w1) →
  e_isdir e' xml_path = e_isdir e xml_path →
  health_parser._get_source_stamp e' xml_path = Ret (Some st) →
  ∃ w2, health_parser.parse_xml e' xml_path cb' w1 = (Ret true, w2)
        ∧ records w2 = records w1 ∧ record_types w2 = record_types w1.
Proof.
  intros Hst Hio Hparse Hdir Hst'.
  set (cache_path := health_parser._cache_path_for_source e xml_path) in *.
  assert (Hcp : health_parser._cache_path_for_source e' xml_path = cache_path).
  { unfold cache_path, health_parser._cache_path_for_source. by rewrite Hdir. }
  assert (Hc : cached cache_path st w1 ∧ (0 < length (records w1))%nat).
  { revert Hparse. unfold health_parser.parse_xml, try_except. fold cache_path.
    unfold mbind at 1, M_bind at 1.
    destruct (health_parser._load_cache e cache_path xml_path w) as [[[|]|ex] wl] eqn:Hload.
    - destruct (load_cache_true_cached _ _ _ _ _ _ Hload Hst) as [Hc Hlen].
      destruct cb; mstep; intros [= <-]; done.
    - unfold mbind at 1, M_bind at 1, print at 1, modify at 1.
      unfold mbind at 1, M_bind at 1, lift at 1.
      destruct (e_xml e xml_path) as [stream|ex]; [|by mstep].
      unfold mbind at 1, M_bind at 1.
      destruct (xml_loop_stored cb (e_getsize e xml_path) (xs_events stream)
                  {| health_parser.last_progress := -1; health_parser.record_count := 0;
                     health_parser.file_pos := 0 |}
                  (add_event (Printed ("Parsing XML file: " +:+ xml_path)) wl))
        as (loc' & w0 & -> & _).
      destruct (xs_error stream) as [ex|]; [by mstep|].
      unfold mbind at 1, M_bind at 1, mret at 1, M_ret at 1.
      unfold mbind at 1, M_bind at 1, get at 1.
      unfold mbind at 1, M_bind at 1, print at 1, modify at 1.
      unfold mbind at 1, M_bind at 1.
      match goal with
      | |- context [health_parser._save_cache e cache_path xml_path ?w2] =>
          destruct (save_cache_success e cache_path xml_path w2 st Hst Hio)
            as (w3 & -> & Hd & Hm & Hr & Ht & _)
      end.
      unfold mbind, M_bind, get, mret, M_ret. intros [= Hlen <-].
      apply bool_decide_eq_true_1 in Hlen. split; [|done].
      split; [rewrite Hd, lookup_insert_eq; eauto|].
      eexists. split; [exact Hm|]. split; [done|]. by rewrite Hr, Ht.
    - by mstep. }
  destruct Hc as [(Hex & m & Hm & Hmatch & Hr & Ht) Hlen].
  destruct (load_cache_memory_hit e' cache_path xml_path w1 st m Hex Hst' Hm Hmatch)
    as (w2 & Hload & Hr2 & Ht2).
  rewrite <- Hr in Hload. rewrite (bool_decide_eq_true_2 _ Hlen) in Hload.
  unfold health_parser.parse_xml, try_except. rewrite Hcp.
  unfold mbind at 1, M_bind at 1. rewrite Hload.
  destruct cb'; mstep; eexists; (split; [reflexivity|]); cbn; split; congruence.
Qed.

Lemma parse_xml_again_served_from_cache_witness :
  ∃ w2, health_parser.parse_xml fixtures_more.unreadable_export "/data/u2/export.xml" false
          (health_parser.parse_xml fixtures_dir.mixed_dir "/data/u2/export.xml" true
             fixtures.fresh).2
        = (Ret true, w2)
        ∧ records w2
          = records (health_parser.parse_xml fixtures_dir.mixed_dir "/data/u2/export.xml" true
                       fixtures.fresh).2
        ∧ record_types w2
          = record_types (health_parser.parse_xml fixtures_dir.mixed_dir "/data/u2/export.xml"
                            true fixtures.fresh).2.
Proof.
  apply (parse_xml_again_served_from_cache fixtures_dir.mixed_dir
           fixtures_more.unreadable_export
           "/data/u2/export.xml"
           {| stamp_type := SFile; stamp_path := "/data/u2/export.xml";
              stamp_mtime := 50; stamp_size := Some 650 |} true false fixtures.fresh).
  - reflexivity.
  - split; reflexivity.
  - vm_compute. reflexivity.
  - reflexivity.
  - reflexivity.
Defined.

(** ** Frames *)

Section sorting.
Context {A : Type} (key : A → Z).

Lemma insert_by_perm x (l : list A) : insert_by key x l ≡ₚ x :: l.
Proof.
  induction l as [|y l IH]; cbn; [done|].
  destruct (decide _); [done|]. rewrite IH. apply Permutation_swap.
Qed.

Lemma sort_values_perm (l : list A) : sort_values key l ≡ₚ l.
Proof.
  unfold sort_values. induction l as [|x l IH]; cbn; [done|].
  by rewrite insert_by_perm, IH.
Qed.

Lemma insert_by_sorted x (l : list A) :
  StronglySorted (fun a b => key a ≤ key b) l →
  StronglySorted (fun a b => key a ≤ key b) (insert_by key x l).
Proof.
  induction 1 as [|y l Hs IH Hall]; cbn.
  - repeat constructor.
  - destruct (decide (key x ≤ key y)) as [Hle|Hgt].
    + constructor; [by constructor|]. constructor; [done|].
      eapply Forall_impl; [exact Hall|]. intros z Hz. cbn in Hz. lia.
    + constructor; [done|]. rewrite Forall_forall. intros z Hz.
      apply elem_of_insert_by in Hz as [->|Hz]; [lia|].
      rewrite Forall_forall in Hall. by apply Hall.
Qed.

Lemma sort_values_sorted (l : list A) :
  StronglySorted (fun a b => key a ≤ key b) (sort_values key l).
Proof.
  unfold sort_values. induction l as [|x l IH]; cbn; [constructor|].
  by apply insert_by_sorted.
Qed.

(** Sorting a frame whose keys already increase strictly changes
    nothing. *)
Lemma sort_values_sorted_id (l : list A) :
  StronglySorted Z.lt (map key l) → sort_values key l = l.
Proof.
  unfold sort_values. induction l as [|x l IH]; cbn; [done|].
  intros Hs. apply StronglySorted_inv in Hs as [Hs Hall]. rewrite IH by done.
  destruct l as [|y l]; [done|]. cbn. apply Forall_cons in Hall as [Hxy _].
  rewrite decide_True by lia. done.
Qed.

End sorting.

Lemma insert_key_sorted d l : StronglySorted Z.lt l → StronglySorted Z.lt (insert_key d l).
Proof.
  induction 1 as [|y l Hs IH Hall]; cbn.
  - repeat constructor.
  - destruct (decide (d < y)) as [Hlt|Hge].
    + constructor; [by constructor|]. constructor; [done|].
      eapply Forall_impl; [exact Hall|]. intros z Hz. cbn in Hz. lia.
    + destruct (decide (d = y)) as [->|Hne]; [by constructor|].
      constructor; [done|]. rewrite Forall_forall. intros z Hz.
      apply elem_of_insert_key in Hz as [->|Hz]; [lia|].
      rewrite Forall_forall in Hall. by apply Hall.
Qed.

Lemma group_keys_sorted l : StronglySorted Z.lt (group_keys l).
Proof.
  unfold group_keys. induction l as [|x l IH]; cbn; [constructor|].
  by apply insert_key_sorted.
Qed.

Lemma sorted_lt_NoDup (l : list Z) : StronglySorted Z.lt l → NoDup l.
Proof.
  induction 1 as [|y l Hs IH Hall]; constructor; [|done].
  intros Hin. rewrite Forall_forall in Hall. specialize (Hall y Hin). lia.
Qed.


(** ** Sums over groups *)

Lemma Rsum_app l1 l2 : Rsum (l1 ++ l2) = (Rsum l1 + Rsum l2)%R.
Proof. unfold Rsum. induction l1 as [|x l1 IH]; cbn [foldr app]; [lra|]. rewrite IH. lra. Qed.

Lemma Rsum_map_plus {A} (f g : A → R) l :
  Rsum (map (fun x => (f x + g x)%R) l) = (Rsum (map f l) + Rsum (map g l))%R.
Proof. unfold Rsum. induction l as [|x l IH]; cbn [foldr map]; [lra|]. rewrite IH. lra. Qed.

Lemma Rsum_map_zero {A} (l : list A) : Rsum (map (fun _ => 0%R) l) = 0%R.
Proof. unfold Rsum. induction l as [|x l IH]; cbn [foldr map]; [done|]. rewrite IH. lra. Qed.

Lemma Rsum_map_ext {A} (f g : A → R) l :
  (∀ x, x ∈ l → f x = g x) → Rsum (map f l) = Rsum (map g l).
Proof.
  intros H. f_equal. apply map_ext_in. intros x Hx. apply H. by apply list_elem_of_In.
Qed.

(** A sum with one non-zero term. *)
Lemma Rsum_indicator (k : Z) (x : R) keys :
  NoDup keys → k ∈ keys →
  Rsum (map (fun d => if decide (k = d) then x else 0%R) keys) = x.
Proof.
  unfold Rsum. induction 1 as [|d keys Hnot Hnd IH]; intros Hin; [by apply elem_of_nil in Hin|].
  cbn [foldr map]. destruct (decide (k = d)) as [->|Hne].
  - fold (Rsum (map (fun d0 => if decide (d = d0) then x else 0%R) keys)).
    rewrite (Rsum_map_ext _ (fun _ => 0%R)), Rsum_map_zero; [lra|].
    intros d' Hd'. rewrite decide_False; [done|]. by intros <-.
  - apply elem_of_cons in Hin as [Hin|Hin]; [done|]. rewrite IH by done. lra.
Qed.

Lemma Rsum_groups {A} (key : A → Z) (f : A → R) (rows : list A) keys :
  NoDup keys → (∀ r, r ∈ rows → key r ∈ keys) →
  Rsum (map (fun d => Rsum (map f (filter (fun r => key r = d) rows))) keys)
  = Rsum (map f rows).
Proof.
  intros Hnd. induction rows as [|r rows IH]; intros Hin.
  - rewrite (Rsum_map_ext _ (fun _ => 0%R)) by done. apply Rsum_map_zero.
  - rewrite (Rsum_map_ext _ (fun d => ((if decide (key r = d) then f r else 0)
                                       + Rsum (map f (filter (fun r => key r = d) rows)))%R)).
    + rewrite Rsum_map_plus, IH, Rsum_indicator.
      * unfold Rsum. cbn [foldr map]. done.
      * done.
      * apply Hin. left.
      * intros r' Hr'. apply Hin. by right.
    + intros d _. rewrite filter_cons. destruct (decide (key r = d)).
      * unfold Rsum. cbn [foldr map]. done.
      * lra.
Qed.

(** Summing the groups gives the sum of the frame. *)
Lemma Rsum_groupby {A} (key : A → Z) (f : A → R) (rows : list A) :
  Rsum (map (fun '(d, g) => Rsum (map f g)) (groupby key rows)) = Rsum (map f rows).
Proof.
  unfold groupby. rewrite map_map. cbn.
  apply Rsum_groups.
  - apply sorted_lt_NoDup, group_keys_sorted.
  - intros r Hr. apply elem_of_group_keys, list_elem_of_fmap. eauto.
Qed.

Lemma sum_skipna_map {A} (v : A → pyfloat) (l : list A) :
  sum_skipna (map v l) = Rsum (map (fun r => fillna0 (v r)) l).
Proof.
  unfold sum_skipna, Rsum. induction l as [|r l IH]; cbn [map dropna foldr]; [done|].
  destruct (v r); cbn [dropna foldr fillna0]; rewrite IH; lra.
Qed.


(** ** Heart-rate statistics *)

Lemma foldr_Rmax_ge x l : (x <= foldr Rmax x l)%R ∧ Forall (fun y => (y <= foldr Rmax x l)%R) l.
Proof.
  induction l as [|y l [IH1 IH2]]; cbn [foldr]; [split; [lra|constructor]|].
  split; [etrans; [exact IH1|apply Rmax_r]|].
  constructor; [apply Rmax_l|].
  eapply Forall_impl; [exact IH2|]. intros z Hz. cbn in Hz. etrans; [exact Hz|apply Rmax_r].
Qed.

Lemma foldr_Rmin_le x l : (foldr Rmin x l <= x)%R ∧ Forall (fun y => (foldr Rmin x l <= y)%R) l.
Proof.
  induction l as [|y l [IH1 IH2]]; cbn [foldr]; [split; [lra|constructor]|].
  split; [etrans; [apply Rmin_r|exact IH1]|].
  constructor; [apply Rmin_l|].
  eapply Forall_impl; [exact IH2|]. intros z Hz. cbn in Hz. etrans; [apply Rmin_r|exact Hz].
Qed.

Lemma Rsum_bounds lo hi l :
  Forall (fun y => (lo <= y <= hi)%R) l →
  (lo * INR (length l) <= Rsum l <= hi * INR (length l))%R.
Proof.
  unfold Rsum. induction 1 as [|y l Hy Hall IH]; [cbn; lra|].
  rewrite length_cons, S_INR. cbn [foldr]. lra.
Qed.

(** The mean of a non-empty list lies between its minimum and its
    maximum. *)
Lemma mean_between x l :
  (foldr Rmin x l <= Rsum (x :: l) / INR (length (x :: l)) <= foldr Rmax x l)%R.
Proof.
  assert (Hpos : (0 < INR (length (x :: l)))%R) by (apply lt_0_INR; cbn; lia).
  destruct (foldr_Rmax_ge x l) as [Hx1 Hl1]. destruct (foldr_Rmin_le x l) as [Hx2 Hl2].
  assert (Hall : Forall (fun y => (foldr Rmin x l <= y <= foldr Rmax x l)%R) (x :: l)).
  { constructor; [lra|]. rewrite Forall_forall in Hl1, Hl2. rewrite Forall_forall.
    intros y Hy. split; [by apply Hl2|by apply Hl1]. }
  apply Rsum_bounds in Hall.
  set (n := INR (length (x :: l))) in *. set (total := Rsum (x :: l)) in *.
  assert (Hdiv : (total / n * n = total)%R) by (field; lra).
  split; apply Rmult_le_reg_r with n; try done; rewrite Hdiv; lra.
Qed.


(** ** Sleep *)

Lemma sleep_rows_duration_aux pd self :
  Forall (fun row =>
            health_parser.sl_duration row
            = (fun end_date => (IZR (end_date - health_parser.sl_startDate row) / 3600)%R)
                <$> health_parser.sl_endDate row)
         (health_parser.get_sleep_analysis_data pd self).
Proof.
  rewrite Forall_forall. intros row Hrow.
  assert (∃ r, health_parser.sleep_row_of pd r = Some row) as [r Hr].
  { unfold health_parser.get_sleep_analysis_data in Hrow.
    destruct (health_parser.collect self health_parser.sleep_types) as [|r0 rs];
      [by apply elem_of_nil in Hrow|].
    apply elem_of_sort_values, list_elem_of_omap in Hrow as (r & _ & Hr). eauto. }
  unfold health_parser.sleep_row_of in Hr.
  destruct (bool_decide _ || bool_decide _); [|done].
  injection Hr as <-. cbn.
  destruct (health_parser.present r "endDate") as [v|];
    [|destruct (health_parser.present r "End") as [v|]]; done.
Qed.


Lemma daily_sleep_totals_zero rows :
  Forall (fun row => health_parser.sl_endDate row = None
                     ∧ health_parser.sl_duration row = None) rows →
  Forall (fun dh => dh.2 = 0%R) (health_parser.daily_sleep_totals rows).
Proof.
  intros Hall. rewrite Forall_forall in Hall.
  assert (Hzero : ∀ (f : health_parser.sleep_row → pyfloat) d,
            (∀ row, row ∈ rows → f row = FNaN) →
            sum_skipna (map f (filter (fun row =>
              to_date (health_parser.sl_startDate row) = d) rows)) = 0%R).
  { intros f d Hf. rewrite sum_skipna_map.
    rewrite (Rsum_map_ext _ (fun _ => 0%R)); [apply Rsum_map_zero|].
    intros row Hrow. apply list_elem_of_filter in Hrow as [_ Hrow]. by rewrite Hf. }
  unfold health_parser.daily_sleep_totals. rewrite Forall_forall. intros [d h] Hin.
  destruct (negb _); apply list_elem_of_fmap in Hin as ([d' g] & [= -> ->] & Hg);
    apply elem_of_groupby in Hg as [_ ->]; cbn; apply Hzero; intros row Hrow;
    destruct (Hall row Hrow) as [He Hd].
  - unfold health_parser.duration_float. by rewrite Hd.
  - unfold health_parser.recomputed_duration. by rewrite He.
Qed.

Lemma omap_nil_inv {A B} (f : A → option B) l x : omap f l = [] → x ∈ l → f x = None.
Proof.
  intros Hnil Hx. destruct (f x) as [y|] eqn:Hfx; [|done].
  assert (y ∈ omap f l) as Hy by (apply list_elem_of_omap; eauto).
  rewrite Hnil in Hy. by apply elem_of_nil in Hy.
Qed.



(** ** The stress table *)

Lemma std_nonneg l : (0 <= fillna0 (std l))%R.
Proof.
  unfold std. destruct l as [|x [|y l]]; cbn [fillna0]; [lra..|]. apply sqrt_pos.
Qed.

Lemma value_range_nonneg l : (0 <= fillna0 (value_range l))%R.
Proof.
  unfold value_range, maximum, minimum. destruct l as [|x l]; cbn [fillna0]; [lra|].
  destruct (foldr_Rmax_ge x l) as [H1 _]. destruct (foldr_Rmin_le x l) as [H2 _]. lra.
Qed.


(** ** Reading a record *)

Lemma first_present_truthy r fields v :
  health_parser.first_present r fields = Some v →
  truthy v = true ∧ ∃ field, field ∈ fields ∧ r !! field = Some v.
Proof.
  induction fields as [|field rest IH]; cbn; [done|].
  unfold health_parser.present at 1.
  destruct (r !! field) as [v'|] eqn:Hf.
  - destruct (truthy v') eqn:Ht.
    + intros [= <-]. split; [done|]. exists field. split; [left|done].
    + intros H. destruct (IH H) as [? (f & ? & ?)]. split; [done|]. exists f.
      split; [by right|done].
  - intros H. destruct (IH H) as [? (f & ? & ?)]. split; [done|]. exists f.
    split; [by right|done].
Qed.

Lemma first_present_None r fields :
  (∀ field v, field ∈ fields → r !! field = Some v → truthy v = false) →
  health_parser.first_present r fields = None.
Proof.
  intros Hall. destruct (health_parser.first_present r fields) as [v|] eqn:Hv; [|done].
  apply first_present_truthy in Hv as [Ht (field & Hin & Hf)].
  rewrite (Hall field v Hin Hf) in Ht. done.
Qed.



(** ** Dates *)

Lemma contains_Z_replace_Z s : contains_char "Z" (replace_Z s) = false.
Proof.
  induction s as [|a s IH]; [done|]. cbn [replace_Z].
  destruct (bool_decide (a = "Z"%char)) eqn:Ha.
  - cbn. exact IH.
  - cbn. by rewrite Ha.
Qed.

Lemma contains_plus_replace_Z s :
  contains_char "Z" s = true → contains_char "+" (replace_Z s) = true.
Proof.
  induction s as [|a s IH]; [done|]. cbn [replace_Z contains_char].
  destruct (bool_decide (a = "Z"%char)) eqn:Ha; [done|].
  cbn. intros H. rewrite (IH H). apply orb_true_r.
Qed.



(** ** The upload component *)

Lemma parse_xml_emits e xml_path progress_callback :
  emits (health_parser.parse_xml e xml_path progress_callback) parsing_progress.
Proof.
  assert (Hnil : parsing_progress []) by (split; constructor).
  unfold health_parser.parse_xml. apply emits_try_except; [|intros ex; repeat quiet_step].
  cbn zeta. apply emits_after_quiet; [done|apply quiet_load_cache|]. intros hit.
  destruct hit.
  - apply emits_then_quiet; [|intros _; apply quiet_ret].
    destruct progress_callback; [|by apply quiet_emits, quiet_ret].
    intros w0. exists [Progress 95 "Loaded cached data."]. split; [done|]. cbn.
    split; repeat constructor; lia.
  - apply emits_after_quiet; [done|apply quiet_print|]. intros _.
    apply emits_after_quiet; [done|apply quiet_lift|]. intros stream.
    apply emits_then_quiet.
    + intros w0.
      destruct (xml_loop_progress progress_callback (e_getsize e xml_path)
                  (xs_events stream)
                  {| health_parser.last_progress := -1; health_parser.record_count := 0;
                     health_parser.file_pos := 0 |} w0) as (new & Hev & Hs & Hall).
      { cbn. pose proof (progress_percent_range 0
                           (Z.of_N (default 0%N (e_getsize e xml_path)))). lia. }
      exists new. split; [done|]. split; [done|].
      eapply Forall_impl; [exact Hall|]. by intros p [_ ?].
    + intros _. repeat quiet_step; auto using quiet_save_cache.
      destruct (xs_error stream); repeat quiet_step.
Qed.

Lemma progress_callback_percents evs :
  map upload.progress (omap upload.progress_callback evs) = percents evs.
Proof.
  unfold percents. induction evs as [|[line| |p msg] evs IH]; cbn; [done|done|done|].
  by rewrite IH.
Qed.

Lemma progress_callback_processing evs :
  Forall (fun s => upload.status s = "processing") (omap upload.progress_callback evs).
Proof.
  induction evs as [|[line| |p msg] evs IH]; cbn; [constructor|done|done|].
  by constructor.
Qed.

Lemma save_dashboard_cache_true e source_path stats dashboard_chart data_types w w' :
  dashboard_cache.save_dashboard_cache e source_path stats dashboard_chart data_types w
  = (Ret true, w') →
  ∃ st, dashboard_cache._get_source_stamp e source_path = Ret (Some st)
        ∧ disk w' !! dashboard_cache._cache_path_for_source e source_path
          = Some (Pickled (dashboard_payload st stats dashboard_chart data_types)).
Proof.
  unfold dashboard_cache.save_dashboard_cache.
  destruct (dashboard_cache._get_source_stamp e source_path) as [[st|]|ex] eqn:Hst;
    unfold mbind at 1, M_bind at 1, lift at 1; [|done..].
  set (cp := dashboard_cache._cache_path_for_source e source_path).
  fold (tmp_of cp). fold (dashboard_payload st stats dashboard_chart data_types).
  cbn zeta. unfold try_except. rewrite seq_assoc.
  destruct (decide (io_succeeds e cp)) as [Hio|Hio].
  - rewrite (seq_ret _ _ _ _ _ (successful_writes e cp _ w Hio)).
    intros [= <-]. exists st. split; [done|]. cbn. by rewrite lookup_insert_eq.
  - destruct (failing_writes e cp (dashboard_payload st stats dashboard_chart data_types)
                w Hio) as (ex & w1 & Hrun & _).
    rewrite (seq_raise _ _ _ _ _ Hrun).
    destruct (remove_if_exists_spec e (tmp_of cp) w1) as (w2 & Hrm & _).
    rewrite (seq_ret _ _ _ _ _ Hrm). done.
Qed.

Lemma load_dashboard_cache_hit e source_path st payload w :
  dashboard_cache._get_source_stamp e source_path = Ret (Some st) →
  disk w !! dashboard_cache._cache_path_for_source e source_path = Some (Pickled payload) →
  cd_cache_version payload = Some DASHBOARD_CACHE_VERSION →
  cd_source_stamp payload = Some st →
  dashboard_cache.load_dashboard_cache e source_path w = (Ret (Some payload), w).
Proof.
  intros Hst Hdisk Hv Hs.
  unfold dashboard_cache.load_dashboard_cache, read_pickle, lift, try_except. mstep.
  rewrite Hst. mstep. rewrite Hdisk. cbn. rewrite ?Hdisk. cbn.
  rewrite !bool_decide_eq_true_2 by done. done.
Qed.

Lemma sorted_progress_log ps tail :
  StronglySorted Z.lt ps → Forall (fun p => 5 ≤ p ≤ 95) ps →
  StronglySorted Z.le tail → Forall (fun p => 97 ≤ p) tail →
  StronglySorted Z.le (5 :: ps ++ tail).
Proof.
  intros Hs Hr Ht Hge. constructor.
  - induction Hs as [|p ps Hs IH Hall]; cbn; [done|].
    apply Forall_cons in Hr as [Hp Hr]. constructor; [by apply IH|].
    apply Forall_app. split.
    + eapply Forall_impl; [exact Hall|]. intros q Hq. cbn in Hq. lia.
    + eapply Forall_impl; [exact Hge|]. intros q Hq. cbn in Hq. lia.
  - apply Forall_app. split.
    + eapply Forall_impl; [exact Hr|]. intros q Hq. cbn in Hq. lia.
    + eapply Forall_impl; [exact Hge|]. intros q Hq. cbn in Hq. lia.
Qed.


Lemma split_last_None sep s :
  upload.split_last sep s = None ↔ contains_char sep s = false.
Proof.
  induction s as [|a s IH]; cbn; [done|].
  destruct (upload.split_last sep s) as [[h t]|].
  - split; [done|]. intros H. apply orb_false_elim in H as [_ H].
    apply IH in H. done.
  - destruct (bool_decide (a = sep)); cbn; [done|]. split; [|done].
    intros _. by apply IH.
Qed.

Lemma split_last_sound sep s h t :
  upload.split_last sep s = Some (h, t) →
  s = h +:+ String sep t ∧ contains_char sep t = false.
Proof.
  revert h. induction s as [|a s IH]; intros h; cbn; [done|].
  destruct (upload.split_last sep s) as [[h' t']|] eqn:Hs.
  - intros [= <- <-]. destruct (IH h' eq_refl) as [-> Ht]. done.
  - destruct (bool_decide (a = sep)) eqn:Ha; [|done].
    apply bool_decide_eq_true_1 in Ha as ->. intros [= <- <-].
    split; [done|]. by apply split_last_None.
Qed.

Lemma split_last_complete sep h t :
  contains_char sep t = false →
  upload.split_last sep (h +:+ String sep t) = Some (h, t).
Proof.
  intros Ht. induction h as [|a h IH].
  - apply split_last_None in Ht. change ("" +:+ String sep t) with (String sep t).
    cbn [upload.split_last]. rewrite Ht. by rewrite bool_decide_eq_true_2.
  - change (String a h +:+ String sep t) with (String a (h +:+ String sep t)).
    cbn [upload.split_last]. by rewrite IH.
Qed.

Lemma split_last_Some sep s h t :
  upload.split_last sep s = Some (h, t)
  ↔ s = h +:+ String sep t ∧ contains_char sep t = false.
Proof.
  split; [apply split_last_sound|]. intros [-> Ht]. by apply split_last_complete.
Qed.

Lemma contains_char_app c s t :
  contains_char c (s +:+ t) = contains_char c s || contains_char c t.
Proof.
  induction s as [|a s IH]; [done|].
  change (String a s +:+ t) with (String a (s +:+ t)). cbn [contains_char].
  by rewrite IH, orb_assoc.
Qed.

(** X24.  [allowed_file] accepts exactly the names that end in a dot
    followed by [xml] in any mix of upper and lower case, the extension
    being what follows the last dot. *)
Theorem allowed_file_accepts_xml_extension filename :
  upload.allowed_file filename = true
  ↔ ∃ stem extension,
      filename = stem +:+ "." +:+ extension
      ∧ contains_char "." extension = false
      ∧ lower extension = "xml".
Proof.
  unfold upload.allowed_file, upload.rsplit1, upload.ALLOWED_EXTENSIONS. split.
  - intros H. apply andb_prop in H as [_ H].
    destruct (upload.split_last "." filename) as [[h t]|] eqn:Hs; [|done].
    cbn in H. apply bool_decide_eq_true_1, list_elem_of_singleton in H.
    apply split_last_Some in Hs as [-> Ht]. by exists h, t.
  - intros (stem & extension & -> & Hext & Hlower).
    assert (Hs : upload.split_last "." (stem +:+ "." +:+ extension) = Some (stem, extension))
      by (by apply split_last_Some).
    rewrite Hs. cbn [lookup list_lookup].
    rewrite contains_char_app.
    change ("." +:+ extension) with (String "."%char extension). cbn [contains_char].
    rewrite (bool_decide_eq_true_2 ("."%char = "."%char)) by done.
    rewrite orb_true_r. cbn [andb orb].
    apply bool_decide_eq_true_2. rewrite Hlower. by apply list_elem_of_singleton.
Qed.

Lemma allowed_file_accepts_xml_extension_witness :
  upload.allowed_file "Export.XML" = true.
Proof.
  apply (allowed_file_accepts_xml_extension "Export.XML").
  exists "Export", "XML". repeat split; reflexivity.
Defined.

(** ** Where the cache files are *)

Lemma append_cons a s t : String a s +:+ t = String a (s +:+ t).
Proof. reflexivity. Qed.

Lemma split_last_slash_no_slash name :
  contains_char slash name = false → split_last_slash name = ("", name).
Proof.
  induction name as [|c name IH]; [done|]. cbn [contains_char split_last_slash].
  intros H. apply orb_false_elim in H as [Hc H]. rewrite (IH H), Hc. done.
Qed.

Lemma append_slash_ne d t : d +:+ String slash t ≠ "".
Proof. by destruct d. Qed.

Lemma split_last_slash_join d name :
  contains_char slash name = false →
  split_last_slash (d +:+ String slash name) = (d +:+ "/", name).
Proof.
  intros Hname. induction d as [|c d IH].
  - change ("" +:+ String slash name) with (String slash name).
    cbn [split_last_slash]. rewrite (split_last_slash_no_slash _ Hname).
    by rewrite !bool_decide_eq_true_2.
  - rewrite !append_cons. cbn [split_last_slash]. rewrite IH.
    rewrite (bool_decide_eq_false_2 (d +:+ "/" = "")) by apply append_slash_ne.
    by destruct (bool_decide (c = slash)).
Qed.

Lemma all_slashes_false d :
  d ≠ "" → ends_with_slash d = false → all_slashes d = false.
Proof.
  induction d as [|c d IH]; [done|]. intros _ Hend. cbn [all_slashes].
  destruct d as [|c' d].
  - cbn in Hend. by rewrite Hend.
  - rewrite IH; [apply andb_false_r|done|exact Hend].
Qed.

Lemma all_slashes_app d t : all_slashes (d +:+ t) = all_slashes d && all_slashes t.
Proof.
  induction d as [|c d IH]; [done|]. rewrite append_cons. cbn [all_slashes].
  by rewrite IH, andb_assoc.
Qed.

Lemma rstrip_slashes_join d :
  ends_with_slash d = false → rstrip_slashes (d +:+ "/") = d.
Proof.
  induction d as [|c d IH]; [done|]. intros Hend.
  rewrite append_cons. cbn [rstrip_slashes].
  rewrite <- append_cons, all_slashes_app, (all_slashes_false (String c d)) by done.
  cbn [andb]. f_equal. apply IH. by destruct d.
Qed.

Lemma dirname_join d name :
  d ≠ "" → ends_with_slash d = false → contains_char slash name = false →
  dirname (path_join d name) = d.
Proof.
  intros Hd Hend Hname. unfold path_join, dirname.
  assert (starts_with_slash name = false) as ->.
  { destruct name as [|c name]; [done|]. cbn in *. by apply orb_false_elim in Hname as [? _]. }
  rewrite Hend, bool_decide_eq_false_2 by done. cbn [orb].
  change (d +:+ "/" +:+ name) with (d +:+ String slash name).
  rewrite split_last_slash_join by done. cbn [fst].
  rewrite all_slashes_app, (all_slashes_false d) by done. cbn [andb].
  by apply rstrip_slashes_join.
Qed.

(** X25.  The cache files of a file that lies directly in a directory
    are those of the directory: [health_cache.pkl] and
    [dashboard_cache.pkl] beside the file.  So [parse_xml] of an uploaded
    export and [parse_directory] of its folder share one parser cache,
    and the parser cache and the dashboard cache are two files. *)
Theorem cache_files_beside_source e directory name :
  directory ≠ "" → ends_with_slash directory = false →
  contains_char slash name = false →
  e_isdir e directory = true →
  e_isdir e (path_join directory name) = false →
  health_parser._cache_path_for_source e (path_join directory name)
  = health_parser._cache_path_for_source e directory
  ∧ dashboard_cache._cache_path_for_source e (path_join directory name)
    = dashboard_cache._cache_path_for_source e directory
  ∧ health_parser._cache_path_for_source e directory = directory +:+ "/health_cache.pkl"
  ∧ dashboard_cache._cache_path_for_source e directory = directory +:+ "/dashboard_cache.pkl".
Proof.
  intros Hd Hend Hname Hdir Hfile.
  unfold health_parser._cache_path_for_source, dashboard_cache._cache_path_for_source.
  rewrite Hdir, Hfile, dirname_join by done.
  unfold path_join, CACHE_FILENAME, DASHBOARD_CACHE_FILENAME.
  rewrite Hend, bool_decide_eq_false_2 by done. done.
Qed.

Lemma cache_files_beside_source_witness :
  health_parser._cache_path_for_source fixtures_dir.mixed_dir
    (path_join "/data/u2" "export.xml")
  = health_parser._cache_path_for_source fixtures_dir.mixed_dir "/data/u2"
  ∧ dashboard_cache._cache_path_for_source fixtures_dir.mixed_dir
      (path_join "/data/u2" "export.xml")
    = dashboard_cache._cache_path_for_source fixtures_dir.mixed_dir "/data/u2"
  ∧ health_parser._cache_path_for_source fixtures_dir.mixed_dir "/data/u2"
    = "/data/u2" +:+ "/health_cache.pkl"
  ∧ dashboard_cache._cache_path_for_source fixtures_dir.mixed_dir "/data/u2"
    = "/data/u2" +:+ "/dashboard_cache.pkl".
Proof.
  apply (cache_files_beside_source fixtures_dir.mixed_dir "/data/u2" "export.xml").
  - discriminate.
  - reflexivity.
  - reflexivity.
  - reflexivity.
  - reflexivity.
Defined.

(** ** Parsing a folder twice *)

Lemma parse_directory_after_hit e directory_path w w1 :
  health_parser._load_cache e (cache_path_of e directory_path)
    (cache_source_of e directory_path) w = (Ret true, w1) →
  health_parser.parse_directory e directory_path w = (Ret true, w1).
Proof.
  intros Hload. unfold health_parser.parse_directory.
  change (filter _ (e_glob e directory_path "*.xml")) with (export_files_of e directory_path).
  change (default directory_path (head (export_files_of e directory_path)))
    with (cache_source_of e directory_path).
  cbn zeta.
  change (health_parser._cache_path_for_source e (cache_source_of e directory_path))
    with (cache_path_of e directory_path).
  unfold try_except at 1. unfold mbind at 1, M_bind at 1. rewrite Hload. done.
Qed.

Lemma parse_directory_after_raise e directory_path w w1 ex :
  health_parser._load_cache e (cache_path_of e directory_path)
    (cache_source_of e directory_path) w = (Raise ex, w1) →
  (health_parser.parse_directory e directory_path w).1 = Ret false.
Proof.
  intros Hload. unfold health_parser.parse_directory.
  change (filter _ (e_glob e directory_path "*.xml")) with (export_files_of e directory_path).
  change (default directory_path (head (export_files_of e directory_path)))
    with (cache_source_of e directory_path).
  cbn zeta.
  change (health_parser._cache_path_for_source e (cache_source_of e directory_path))
    with (cache_path_of e directory_path).
  unfold try_except at 1. unfold mbind at 1, M_bind at 1. rewrite Hload. done.
Qed.



(** ** From the upload to the dashboard *)

Lemma last_cons_snoc {A} (x : A) l y : last (x :: l ++ [y]) = Some y.
Proof. by rewrite app_comm_cons, last_snoc. Qed.

Lemma last_cons_snoc2 {A} (x : A) l y z : last (x :: l ++ [y; z]) = Some z.
Proof.
  change [y; z] with ([y] ++ [z]). by rewrite app_assoc, app_comm_cons, last_snoc.
Qed.

Lemma parse_in_background_done e build_dashboard_payload file_path w s :
  last (upload._parse_in_background e build_dashboard_payload file_path w).1 = Some s →
  upload.status s = "done" →
  ∃ st stats dashboard_chart data_types w1,
    build_dashboard_payload w1 = Ret (stats, dashboard_chart, data_types)
    ∧ dashboard_cache._get_source_stamp e file_path = Ret (Some st)
    ∧ disk (upload._parse_in_background e build_dashboard_payload file_path w).2
        !! dashboard_cache._cache_path_for_source e file_path
      = Some (Pickled (dashboard_payload st stats dashboard_chart data_types)).
Proof.
  unfold upload._parse_in_background.
  destruct (health_parser.parse_xml e file_path true (set_store [] ∅ w)) as [success w1].
  destruct success as [[|]|exc].
  - destruct (build_dashboard_payload w1) as [[[stats dashboard_chart] data_types]|exc] eqn:Hb.
    + destruct (dashboard_cache.save_dashboard_cache e file_path stats dashboard_chart
                  data_types w1) as [cache_saved w2] eqn:Hsave.
      destruct cache_saved as [[|]|exc]; cbn [fst snd]; rewrite last_cons_snoc2;
        intros [= <-]; cbn; try done.
      intros _. destruct (save_dashboard_cache_true _ _ _ _ _ _ _ Hsave) as (st & Hst & Hd).
      by exists st, stats, dashboard_chart, data_types, w1.
    + cbn [fst snd]. rewrite last_cons_snoc2. by intros [= <-].
  - cbn [fst snd]. rewrite last_cons_snoc. by intros [= <-].
  - cbn [fst snd]. rewrite last_cons_snoc. by intros [= <-].
Qed.

Lemma dict_truthy_dashboard_payload st stats dashboard_chart data_types :
  dict_truthy (dashboard_payload st stats dashboard_chart data_types) = true.
Proof. done. Qed.

Lemma index_cache_hit e build_dashboard_payload s payload w :
  let source_path :=
    if dashboard.path_truthy (dashboard.data_file_path s)
    then default "" (dashboard.data_file_path s)
    else default "" (dashboard.data_dir_path s) in
  dashboard.path_truthy (dashboard.data_file_path s)
  || dashboard.path_truthy (dashboard.data_dir_path s) = true →
  dashboard_cache.load_dashboard_cache e source_path w = (Ret (Some payload), w) →
  dict_truthy payload = true →
  dashboard.index e build_dashboard_payload s w
  = (Ret (dashboard.DashboardPage
            (dd_stats <$> cd_dashboard payload)
            (dd_dashboard_chart <$> cd_dashboard payload)
            (default [] (dd_data_types <$> cd_dashboard payload))), w).
Proof.
  intros source_path Hpath Hload Ht. unfold dashboard.index.
  assert (negb (dashboard.path_truthy (dashboard.data_file_path s))
          && negb (dashboard.path_truthy (dashboard.data_dir_path s)) = false) as ->.
  { by destruct (dashboard.path_truthy (dashboard.data_file_path s)),
         (dashboard.path_truthy (dashboard.data_dir_path s)). }
  cbn zeta. fold source_path. unfold mbind at 1, M_bind at 1. rewrite Hload, Ht. done.
Qed.

(** X27.  From the upload to the dashboard: once the background thread
    has written [done] for an uploaded file, the dashboard route of a
    session that points at this file shows the statistics, the chart and
    the data types the thread built, taken from the dashboard cache; the
    route does not parse and does not build, and changes nothing. *)
Theorem done_upload_is_shown_by_dashboard e build_dashboard_payload build' file_path
    data_dir_path w s :
  file_path ≠ "" →
  last (upload._parse_in_background e build_dashboard_payload file_path w).1 = Some s →
  upload.status s = "done" →
  let w' := (upload._parse_in_background e build_dashboard_payload file_path w).2 in
  ∃ stats dashboard_chart data_types w1,
    build_dashboard_payload w1 = Ret (stats, dashboard_chart, data_types)
    ∧ dashboard.index e build'
        {| dashboard.data_file_path := Some file_path;
           dashboard.data_dir_path := data_dir_path |} w'
      = (Ret (dashboard.DashboardPage (Some stats) (Some dashboard_chart) data_types), w').
Proof.
  intros Hne Hlast Hdone w'.
  destruct (parse_in_background_done _ _ _ _ _ Hlast Hdone)
    as (st & stats & dashboard_chart & data_types & w1 & Hb & Hst & Hdisk).
  exists stats, dashboard_chart, data_types, w1. split; [done|].
  assert (Ht : dashboard.path_truthy (Some file_path) = true).
  { cbn. by rewrite bool_decide_eq_false_2. }
  pose proof (index_cache_hit e build'
    {| dashboard.data_file_path := Some file_path; dashboard.data_dir_path := data_dir_path |}
    (dashboard_payload st stats dashboard_chart data_types) w') as Hhit.
  cbn [dashboard.data_file_path dashboard.data_dir_path] in Hhit. rewrite Ht in Hhit.
  cbn [default orb] in Hhit. apply Hhit; [done| |done].
  by apply (load_dashboard_cache_hit e file_path st).
Qed.

Lemma done_upload_is_shown_by_dashboard_witness :
  let build := fun _ : World => Ret ("stats", "chart", [KStr "StepCount"]) in
  let w' := (upload._parse_in_background fixtures_dir.mixed_dir build "/data/u2/export.xml"
               fixtures.fresh).2 in
  ∃ stats dashboard_chart data_types w1,
    build w1 = Ret (stats, dashboard_chart, data_types)
    ∧ dashboard.index fixtures_dir.mixed_dir (fun _ => Raise recursion_error)
        {| dashboard.data_file_path := Some "/data/u2/export.xml";
           dashboard.data_dir_path := None |} w'
      = (Ret (dashboard.DashboardPage (Some stats) (Some dashboard_chart) data_types), w').
Proof.
  intros build.
  apply (done_upload_is_shown_by_dashboard fixtures_dir.mixed_dir build
           (fun _ => Raise recursion_error) "/data/u2/export.xml" None fixtures.fresh
           {| upload.status := "done"; upload.message := "Parsing complete.";
              upload.progress := 100 |}).
  - discriminate.
  - vm_compute. reflexivity.
  - reflexivity.
Defined.

Lemma load_dashboard_cache_world e source_path w :
  (dashboard_cache.load_dashboard_cache e source_path w).2 = w.
Proof.
  unfold dashboard_cache.load_dashboard_cache, read_pickle, lift, try_except. mstep.
  repeat (case_match; cbn in *; simplify_eq); done.
Qed.

Lemma save_dashboard_cache_success e source_path st stats dashboard_chart data_types w :
  dashboard_cache._get_source_stamp e source_path = Ret (Some st) →
  io_succeeds e (dashboard_cache._cache_path_for_source e source_path) →
  ∃ w', dashboard_cache.save_dashboard_cache e source_path stats dashboard_chart data_types w
        = (Ret true, w')
        ∧ disk w' !! dashboard_cache._cache_path_for_source e source_path
          = Some (Pickled (dashboard_payload st stats dashboard_chart data_types)).
Proof.
  intros Hst Hio. unfold dashboard_cache.save_dashboard_cache. rewrite Hst.
  unfold mbind at 1, M_bind at 1, lift at 1.
  set (cp := dashboard_cache._cache_path_for_source e source_path) in *.
  fold (tmp_of cp). fold (dashboard_payload st stats dashboard_chart data_types).
  cbn zeta. unfold try_except. rewrite seq_assoc.
  rewrite (seq_ret _ _ _ _ _ (successful_writes e cp _ w Hio)).
  eexists. split; [reflexivity|]. cbn. by rewrite lookup_insert_eq.
Qed.



(** X29.  The only exception that leaves the dashboard route is one of
    the cache lookup, that is, of the stamp computation, which runs before
    the [try]: every failure of the parser, of the presentation layer or
    of the cache write ends in the landing page with a flashed message. *)
Theorem index_raises_only_from_lookup e build_dashboard_payload s w ex :
  (dashboard.index e build_dashboard_payload s w).1 = Raise ex →
  dashboard_cache._get_source_stamp e
    (if dashboard.path_truthy (dashboard.data_file_path s)
     then default "" (dashboard.data_file_path s)
     else default "" (dashboard.data_dir_path s)) = Raise ex
  ∧ (dashboard.index e build_dashboard_payload s w).2 = w.
Proof.
  destruct (dashboard.index e build_dashboard_payload s w) as [r w'] eqn:Hidx.
  cbn [fst snd]. intros ->. revert Hidx. unfold dashboard.index.
  destruct (negb _ && negb _); [done|]. cbn zeta.
  set (source_path := if dashboard.path_truthy (dashboard.data_file_path s)
                      then default "" (dashboard.data_file_path s)
                      else default "" (dashboard.data_dir_path s)).
  unfold mbind at 1, M_bind at 1.
  pose proof (load_dashboard_cache_world e source_path w) as Hworld.
  assert (Hraise : ∀ ex', (dashboard_cache.load_dashboard_cache e source_path w).1 = Raise ex' →
            dashboard_cache._get_source_stamp e source_path = Raise ex').
  { unfold dashboard_cache.load_dashboard_cache, read_pickle, lift, try_except. mstep.
    intros ex'. repeat (case_match; cbn in *; simplify_eq); try done. by intros [= ->]. }
  destruct (dashboard_cache.load_dashboard_cache e source_path w) as [[cached|ex'] w0];
    cbn in Hworld; subst w0.
  - assert (Hmiss : ∀ (body : M dashboard.response),
              (try_except body
                 (fun ex => mret (dashboard.IndexPage
                                    (Some ("Error generating dashboard: " +:+ exn_msg ex))))
                 w).1 ≠ Raise ex).
    { intros body. unfold try_except. by destruct (body w) as [[?|?] ?]. }
    destruct cached as [payload|]; [destruct (dict_truthy payload)|].
    + done.
    + intros H. apply (f_equal fst) in H. by apply Hmiss in H.
    + intros H. apply (f_equal fst) in H. by apply Hmiss in H.
  - intros [= -> <-]. split; [|done]. by apply Hraise.
Qed.

Lemma index_raises_only_from_lookup_witness :
  dashboard_cache._get_source_stamp fixtures_more.exhausted "/data/u1/export.xml"
  = Raise recursion_error
  ∧ (dashboard.index fixtures_more.exhausted (fun _ => Raise recursion_error)
       {| dashboard.data_file_path := Some "/data/u1/export.xml";
          dashboard.data_dir_path := None |} fixtures_more.dashboard_on_disk).2
    = fixtures_more.dashboard_on_disk.
Proof.
  apply (index_raises_only_from_lookup fixtures_more.exhausted (fun _ => Raise recursion_error)
           {| dashboard.data_file_path := Some "/data/u1/export.xml";
              dashboard.data_dir_path := None |} fixtures_more.dashboard_on_disk
           recursion_error).
  reflexivity.
Defined.
